(** * Champions League draw validator: entity model, rule set and validator

    A shallow embedding of the Python sources
    [src/models/club.py], [src/models/match.py], [src/models/draw.py],
    [src/config.py], [src/constraints/ucl_constraints.py] and
    [src/validators/draw_validator.py], followed by the properties that the
    specification states about them.

    Conventions of the embedding:
    - a Python [int] is a [Z];
    - a Python [str] is a [string] holding its UTF-8 bytes (byte-wise
      lexicographic order is code-point order, so [sorted] on ids agrees);
    - a [raise] is the [Raise] constructor of [result]; a method that
      mutates [self] returns the final object next to its result;
    - a [list] is a [list]; a [dict] is an association list kept in insertion
      order (the order Python iterates it in); a [set] is the list of its
      members in insertion order, iterated through an unspecified permutation
      ([HashOrder]) because the iteration order of a Python set follows the
      hashes of its members. *)

From Stdlib Require Import List String Ascii ZArith Bool Lia Permutation Sorted DecimalString.
Import ListNotations.

Local Open Scope string_scope.
Local Open Scope Z_scope.

Set Implicit Arguments.

(* ====================================================================== *)
(** * Part 1. The Python runtime that the sources rely on                   *)
(* ====================================================================== *)

(** ** Exceptions *)

Inductive exn : Type :=
| ValueError (msg : string)
| KeyError.

Inductive result (A : Type) : Type :=
| Ok (a : A)
| Raise (e : exn).

Arguments Ok {A} a.
Arguments Raise {A} e.

Definition bind {A B : Type} (r : result A) (k : A -> result B) : result B :=
  match r with
  | Ok a => k a
  | Raise e => Raise e
  end.

Declare Scope py_scope.
Delimit Scope py_scope with py.
Notation "x <- c1 ;; c2" := (bind c1 (fun x => c2))
  (at level 61, c1 at next level, right associativity) : py_scope.
Notation "' p <- c1 ;; c2" := (bind c1 (fun p => c2))
  (at level 61, p pattern, c1 at next level, right associativity) : py_scope.

Definition returns {A : Type} (r : result A) : Prop := exists a, r = Ok a.

(** ** [__eq__]: the equality a container uses

    [py_eq] is the [==] of a class.  For [str], [int] and tuples it is
    structural; [Club] and [Match] override it (see below). *)

Class PyEq (A : Type) : Type := {
  py_eq : A -> A -> bool;
  py_eq_refl : forall x, py_eq x x = true;
  py_eq_sym : forall x y, py_eq x y = py_eq y x;
  py_eq_trans : forall x y z, py_eq x y = true -> py_eq y z = true -> py_eq x z = true
}.

#[export, refine] Instance PyEq_str : PyEq string := {| py_eq := String.eqb |}.
Proof.
  - apply String.eqb_refl.
  - apply String.eqb_sym.
  - intros x y z H1 H2. apply String.eqb_eq in H1, H2. subst. apply String.eqb_refl.
Defined.

#[export, refine] Instance PyEq_int : PyEq Z := {| py_eq := Z.eqb |}.
Proof.
  - apply Z.eqb_refl.
  - apply Z.eqb_sym.
  - intros x y z H1 H2. apply Z.eqb_eq in H1, H2. subst. apply Z.eqb_refl.
Defined.

#[export, refine] Instance PyEq_tuple {A B : Type} `{PyEq A} `{PyEq B} : PyEq (A * B) :=
  {| py_eq := fun p q => py_eq (fst p) (fst q) && py_eq (snd p) (snd q) |}.
Proof.
  - intros [a b]. simpl. now rewrite !py_eq_refl.
  - intros [a b] [c d]. simpl. now rewrite (py_eq_sym a c), (py_eq_sym b d).
  - intros [a b] [c d] [e f]. simpl. intros H1 H2.
    apply andb_true_iff in H1, H2. destruct H1, H2.
    apply andb_true_iff. split; eapply py_eq_trans; eauto.
Defined.

(** [len(l)] *)
Definition len {A : Type} (l : list A) : Z := Z.of_nat (List.length l).

(** [x in l] on a list: some element is [==] to [x]. *)
Definition list_contains {A : Type} `{PyEq A} (x : A) (l : list A) : bool :=
  existsb (fun y => py_eq x y) l.

(** ** [set]

    [set_add] is [s.add(x)]: a member equal to [x] is kept, [x] is dropped. *)

Definition set_add {A : Type} `{PyEq A} (s : list A) (x : A) : list A :=
  if list_contains x s then s else s ++ [x].

(** The order in which a set is iterated: some permutation of its members,
    the same one each time the same set is built. *)
Record IterOrder (A : Type) : Type := {
  iter : list A -> list A;
  iter_perm : forall l, Permutation (iter l) l
}.

Definition insertion_order (A : Type) : IterOrder A :=
  {| iter := fun l => l; iter_perm := fun l => Permutation_refl l |}.

(** ** [dict], in insertion order *)

Section Dict.
Context {K V : Type} `{PyEq K}.

Definition dict : Type := list (K * V).

Fixpoint dict_lookup (d : dict) (k : K) : option V :=
  match d with
  | [] => None
  | (k', v) :: r => if py_eq k' k then Some v else dict_lookup r k
  end.

(** [d.get(k, default)] *)
Definition dict_get (d : dict) (k : K) (default : V) : V :=
  match dict_lookup d k with
  | Some v => v
  | None => default
  end.

(** [d[k]] *)
Definition dict_getitem (d : dict) (k : K) : result V :=
  match dict_lookup d k with
  | Some v => Ok v
  | None => Raise KeyError
  end.

(** [d[k] = v]: an existing key keeps its place, a new one goes last. *)
Fixpoint dict_set (d : dict) (k : K) (v : V) : dict :=
  match d with
  | [] => [(k, v)]
  | (k', v') :: r => if py_eq k' k then (k', v) :: r else (k', v') :: dict_set r k v
  end.
End Dict.

Arguments dict K V : clear implicits.

(** ** [sorted(l, key=...)]: a stable sort *)

Section Sorted.
Context {A K : Type} (key : A -> K) (le : K -> K -> bool).

Fixpoint insert_sorted (x : A) (l : list A) : list A :=
  match l with
  | [] => [x]
  | y :: r => if le (key x) (key y) then x :: y :: r else y :: insert_sorted x r
  end.

Definition sorted (l : list A) : list A := fold_right insert_sorted [] l.
End Sorted.

(** ** [str(n)], [', '.join(l)] and the [repr] of a list of ints *)

Definition str_int (n : Z) : string := NilZero.string_of_int (Z.to_int n).

Definition join (sep : string) (l : list string) : string := String.concat sep l.

Definition repr_int_list (l : list Z) : string :=
  "[" ++ join ", " (map str_int l) ++ "]".

(* ====================================================================== *)
(** * Part 2. Entity model ([src/models])                                   *)
(* ====================================================================== *)

(** ** [club.py] *)

Inductive Chapeau : Type := CHAPEAU_1 | CHAPEAU_2 | CHAPEAU_3 | CHAPEAU_4.

Definition Chapeau_value (c : Chapeau) : Z :=
  match c with
  | CHAPEAU_1 => 1
  | CHAPEAU_2 => 2
  | CHAPEAU_3 => 3
  | CHAPEAU_4 => 4
  end.

(** [Chapeau.from_int]: [cls(value)] looks the member up by value; its
    [ValueError] is caught and raised again with the message below. *)
Definition Chapeau_from_int (value : Z) : result Chapeau :=
  if value =? 1 then Ok CHAPEAU_1
  else if value =? 2 then Ok CHAPEAU_2
  else if value =? 3 then Ok CHAPEAU_3
  else if value =? 4 then Ok CHAPEAU_4
  else Raise (ValueError ("Chapeau invalide: " ++ str_int value ++ ". Doit être entre 1 et 4.")).

Module Club.

Record t : Type := make {
  id : string;
  nom : string;
  pays : string;
  chapeau : Chapeau
}.

(** [Club.__eq__]: by id only. *)
Definition eq (a b : t) : bool := String.eqb (id a) (id b).

(** [Club.__str__] *)
Definition str (c : t) : string := nom c ++ " (" ++ id c ++ ")".

End Club.

#[export, refine] Instance PyEq_Club : PyEq Club.t := {| py_eq := Club.eq |}.
Proof.
  - intros x. apply String.eqb_refl.
  - intros x y. apply String.eqb_sym.
  - unfold Club.eq. intros x y z H1 H2. apply String.eqb_eq in H1, H2.
    rewrite H1, H2. apply String.eqb_refl.
Defined.

(** ** [match.py] *)

Inductive VenueType : Type := DOMICILE | EXTERIEUR.

Module Match.

Record t : Type := make {
  club_home : Club.t;
  club_away : Club.t;
  journee : Z
}.

(** [Match.full_string], which is also [Match.__str__] *)
Definition full_string (m : t) : string :=
  "[J" ++ str_int (journee m) ++ "] " ++ Club.nom (club_home m) ++ " (domicile) vs "
  ++ Club.nom (club_away m) ++ " (extérieur)".

Definition str (m : t) : string := full_string m.

(** [Match.__post_init__]: the checks run by the constructor. *)
Definition post_init (m : t) : result unit :=
  if py_eq (club_home m) (club_away m) then
    Raise (ValueError ("Un club ne peut pas jouer contre lui-même: " ++ Club.str (club_home m)))
  else if (journee m <? 1) || (journee m >? 8) then
    Raise (ValueError ("La journée doit être entre 1 et 8. Reçu: " ++ str_int (journee m)))
  else Ok tt.

(** [Match(club_home=h, club_away=a, journee=j)] *)
Definition new (h a : Club.t) (j : Z) : result t :=
  (_ <- post_init (make h a j) ;; Ok (make h a j))%py.

(** A well-constructed match: one that the constructor returned. *)
Definition valid (m : t) : Prop := post_init m = Ok tt.

(** [Match.implies_reverse_match] *)
Definition implies_reverse_match (self : t) : result t :=
  new (club_away self) (club_home self) (journee self).

(** [Match.involves_club] *)
Definition involves_club (self : t) (club : Club.t) : bool :=
  py_eq club (club_home self) || py_eq club (club_away self).

(** [Match.opponent_of] *)
Definition opponent_of (self : t) (club : Club.t) : option Club.t :=
  if py_eq club (club_home self) then Some (club_away self)
  else if py_eq club (club_away self) then Some (club_home self)
  else None.

(** [Match.__eq__] *)
Definition eq (self other : t) : bool :=
  py_eq (club_home self) (club_home other)
  && py_eq (club_away self) (club_away other)
  && py_eq (journee self) (journee other).

(** The identity that [__eq__] and [__hash__] are built on. *)
Definition identity (m : t) : string * string * Z :=
  (Club.id (club_home m), Club.id (club_away m), journee m).

(** [Match.vs_string] *)
Definition vs_string (m : t) : string :=
  Club.id (club_home m) ++ " vs " ++ Club.id (club_away m).

(** [Match.get_venue_for_club] *)
Definition get_venue_for_club (self : t) (club : Club.t) : result VenueType :=
  if py_eq club (club_home self) then Ok DOMICILE
  else if py_eq club (club_away self) then Ok EXTERIEUR
  else Raise (ValueError ("Le club " ++ Club.id club ++ " ne participe pas au match "
                          ++ vs_string self)).

End Match.

#[export, refine] Instance PyEq_Match : PyEq Match.t := {| py_eq := Match.eq |}.
Proof.
  - intros x. unfold Match.eq. now rewrite !py_eq_refl.
  - intros x y. unfold Match.eq.
    now rewrite (py_eq_sym (Match.club_home x)), (py_eq_sym (Match.club_away x)),
      (py_eq_sym (Match.journee x)).
  - intros x y z. unfold Match.eq. intros H1 H2.
    apply andb_true_iff in H1, H2. destruct H1 as [H1 H1c], H2 as [H2 H2c].
    apply andb_true_iff in H1, H2. destruct H1 as [H1a H1b], H2 as [H2a H2b].
    rewrite (py_eq_trans _ _ _ H1a H2a), (py_eq_trans _ _ _ H1b H2b),
      (py_eq_trans _ _ _ H1c H2c). reflexivity.
Defined.

(** The iteration orders of the two kinds of set the sources build. *)
Record HashOrder : Type := {
  club_order : IterOrder Club.t;
  int_order : IterOrder Z
}.

Definition insertion_hash_order : HashOrder :=
  {| club_order := insertion_order Club.t; int_order := insertion_order Z |}.

(** ** [draw.py] *)

Module Draw.

Record t : Type := make {
  matches : list Match.t;
  season : string
}.

(** The f-string of the duplicate error. *)
Definition msg_duplicate (m : Match.t) : string :=
  "Le match " ++ Match.str m ++ " est déjà présent".

(** [Draw.add_match]: the result, and [self] after the call. *)
Definition add_match (self : t) (m : Match.t) : result unit * t :=
  if list_contains m (matches self) then
    (Raise (ValueError (msg_duplicate m)), self)
  else
    (Ok tt, make (matches self ++ [m]) (season self)).

(** [Draw.add_matches] *)
Fixpoint add_matches (self : t) (ms : list Match.t) : result unit * t :=
  match ms with
  | [] => (Ok tt, self)
  | m :: rest =>
      match add_match self m with
      | (Ok _, self') => add_matches self' rest
      | (Raise e, self') => (Raise e, self')
      end
  end.

Definition get_matches_for_club (self : t) (club : Club.t) : list Match.t :=
  filter (fun m => Match.involves_club m club) (matches self).

Definition get_home_matches_for_club (self : t) (club : Club.t) : list Match.t :=
  filter (fun m => py_eq (Match.club_home m) club) (matches self).

Definition get_away_matches_for_club (self : t) (club : Club.t) : list Match.t :=
  filter (fun m => py_eq (Match.club_away m) club) (matches self).

Definition get_number_of_matches_for_club (self : t) (club : Club.t) : Z :=
  len (get_matches_for_club self club).

Definition get_number_of_home_matches_for_club (self : t) (club : Club.t) : Z :=
  len (get_home_matches_for_club self club).

Definition get_number_of_away_matches_for_club (self : t) (club : Club.t) : Z :=
  len (get_away_matches_for_club self club).

(** [Draw.get_all_clubs]: the set, as the list of its members in insertion
    order.  A [for] loop over it goes through [iter (club_order h)]. *)
Definition get_all_clubs (self : t) : list Club.t :=
  fold_left
    (fun clubs m => set_add (set_add clubs (Match.club_home m)) (Match.club_away m))
    (matches self) [].

(** The set [opponents] that [get_opponents_for_club] fills. *)
Definition opponents_set (self : t) (club : Club.t) : list Club.t :=
  fold_left
    (fun opponents m =>
       match Match.opponent_of m club with
       | Some opponent => set_add opponents opponent
       | None => opponents
       end)
    (get_matches_for_club self club) [].

(** [Draw.get_matches_by_journee]: the bounds are the literals 1 and 8. *)
Definition get_matches_by_journee (self : t) (journee : Z) : result (list Match.t) :=
  if negb ((1 <=? journee) && (journee <=? 8)) then
    Raise (ValueError ("La journée doit être entre 1 et 8. Reçu: " ++ str_int journee))
  else Ok (filter (fun m => py_eq (Match.journee m) journee) (matches self)).

Section WithOrder.
Context (h : HashOrder).

(** [for club in draw.get_all_clubs()] *)
Definition iter_all_clubs (self : t) : list Club.t :=
  iter (club_order h) (get_all_clubs self).

(** [Draw.get_opponents_for_club]: [sorted(list(opponents), key=lambda c: c.id)] *)
Definition get_opponents_for_club (self : t) (club : Club.t) : list Club.t :=
  sorted Club.id String.leb (iter (club_order h) (opponents_set self club)).

(** [Draw.get_country_clashes_for_club] *)
Definition get_country_clashes_for_club (self : t) (club : Club.t) : list (Club.t * Z) :=
  map
    (fun opponent =>
       (opponent,
        len (filter
          (fun m => Match.involves_club m club
                    && match Match.opponent_of m club with
                       | Some o => py_eq o opponent
                       | None => false
                       end)
          (matches self))))
    (filter (fun opponent => py_eq (Club.pays opponent) (Club.pays club))
            (get_opponents_for_club self club)).

(** [Draw.has_country_clash] *)
Definition has_country_clash (self : t) (club1 club2 : Club.t) : bool :=
  if negb (py_eq (Club.pays club1) (Club.pays club2)) then false
  else list_contains club2 (get_opponents_for_club self club1).

(** [Draw.get_clubs_by_country]: [clubs_by_country[club.pays].append(club)] on
    a [defaultdict(list)]. *)
Definition get_clubs_by_country (self : t) : dict string (list Club.t) :=
  fold_left
    (fun clubs_by_country club =>
       dict_set clubs_by_country (Club.pays club)
                (dict_get clubs_by_country (Club.pays club) [] ++ [club])%list)
    (iter_all_clubs self) [].

(** [Draw.get_clubs_by_chapeau]: the same grouping by pot, then
    [dict(sorted(items))].  The keys of a dict differ, so the tuples are
    ordered by their keys alone. *)
Definition get_clubs_by_chapeau (self : t) : dict Z (list Club.t) :=
  sorted fst Z.leb
    (fold_left
       (fun clubs_by_chapeau club =>
          let chapeau := Chapeau_value (Club.chapeau club) in
          dict_set clubs_by_chapeau chapeau
                   (dict_get clubs_by_chapeau chapeau [] ++ [club])%list)
       (iter_all_clubs self) []).

End WithOrder.

End Draw.

(* ====================================================================== *)
(** * Part 3. Configuration ([src/config.py])                               *)
(* ====================================================================== *)

Module config.

(** The module-level constants.  [MAX_OPPONENTS_PER_FOREIGN_COUNTRY] is read
    with [getattr(config, ..., 2)], so it may be absent. *)
Record t : Type := make {
  MATCHES_PER_CLUB : Z;
  JOURNEES : Z;
  HOME_MATCHES_PER_CLUB : Z;
  AWAY_MATCHES_PER_CLUB : Z;
  TOTAL_CLUBS : Z;
  CLUBS_PER_CHAPEAU : dict Z Z;
  OPPONENTS_PER_CHAPEAU : dict Z Z;
  MAX_SAME_COUNTRY_OPPONENTS : Z;
  MAX_OPPONENTS_PER_FOREIGN_COUNTRY : option Z;
  DISTRIBUTION_CHAPEAUX : dict Z (Z * Z);
  MAX_CONSECUTIVE_HOME_MATCHES : Z;
  MAX_CONSECUTIVE_AWAY_MATCHES : Z
}.

(** The values written in [config.py]. *)
Definition default : t := {|
  MATCHES_PER_CLUB := 8;
  JOURNEES := 8;
  HOME_MATCHES_PER_CLUB := 4;
  AWAY_MATCHES_PER_CLUB := 4;
  TOTAL_CLUBS := 36;
  CLUBS_PER_CHAPEAU := [(1, 9); (2, 9); (3, 9); (4, 9)];
  OPPONENTS_PER_CHAPEAU := [(1, 2); (2, 2); (3, 2); (4, 2)];
  MAX_SAME_COUNTRY_OPPONENTS := 0;
  MAX_OPPONENTS_PER_FOREIGN_COUNTRY := Some 2;
  DISTRIBUTION_CHAPEAUX := [(1, (1, 1)); (2, (1, 1)); (3, (1, 1)); (4, (1, 1))];
  MAX_CONSECUTIVE_HOME_MATCHES := 2;
  MAX_CONSECUTIVE_AWAY_MATCHES := 2
|}.

(** [config.get_expected_total_matches]: [//] is floor division. *)
Definition get_expected_total_matches (c : t) : Z :=
  (TOTAL_CLUBS c * MATCHES_PER_CLUB c) / 2.

(** [getattr(config, name, default)] *)
Definition getattr {A : Type} (attr : option A) (default : A) : A :=
  match attr with
  | Some v => v
  | None => default
  end.

(** [sum(d.values())] *)
Definition sum_values (d : dict Z Z) : Z := fold_left (fun acc kv => acc + snd kv) d 0.

(** [set(d1.keys()) == set(d2.keys())] *)
Definition same_keys {V W : Type} (d1 : dict Z V) (d2 : dict Z W) : bool :=
  forallb (fun k => list_contains k (map fst d2)) (map fst d1)
  && forallb (fun k => list_contains k (map fst d1)) (map fst d2).

(** What an f-string prints for [d.get(k)]. *)
Definition str_get (d : dict Z Z) (k : Z) : string :=
  match dict_lookup d k with
  | Some v => str_int v
  | None => "None"
  end.

(** The loop of [validate_config] over [DISTRIBUTION_CHAPEAUX.items()], with
    its accumulators [total_home] and [total_away]. *)
Fixpoint distribution_loop (c : t) (items : dict Z (Z * Z)) (total_home total_away : Z)
  : result (Z * Z) :=
  match items with
  | [] => Ok (total_home, total_away)
  | (chapeau, (home, away)) :: rest =>
      if negb (home + away =? dict_get (OPPONENTS_PER_CHAPEAU c) chapeau 0) then
        Raise (ValueError ("Distribution H/A chapeau " ++ str_int chapeau ++ ": "
                           ++ str_int home ++ " + " ++ str_int away ++ " != "
                           ++ str_get (OPPONENTS_PER_CHAPEAU c) chapeau))
      else distribution_loop c rest (total_home + home) (total_away + away)
  end.

(** [config.validate_config] *)
Definition validate_config (c : t) : result bool :=
  let total_clubs_config := sum_values (CLUBS_PER_CHAPEAU c) in
  if negb (total_clubs_config =? TOTAL_CLUBS c) then
    Raise (ValueError ("Total des clubs par chapeau (" ++ str_int total_clubs_config
                       ++ ") != TOTAL_CLUBS (" ++ str_int (TOTAL_CLUBS c) ++ ")"))
  else if negb (same_keys (CLUBS_PER_CHAPEAU c) (OPPONENTS_PER_CHAPEAU c)
                && same_keys (OPPONENTS_PER_CHAPEAU c) (DISTRIBUTION_CHAPEAUX c)) then
    Raise (ValueError
      "Incohérence des clés entre CLUBS_PER_CHAPEAU, OPPONENTS_PER_CHAPEAU et DISTRIBUTION_CHAPEAUX")
  else
    let total_opponents := sum_values (OPPONENTS_PER_CHAPEAU c) in
    if negb (total_opponents =? MATCHES_PER_CLUB c) then
      Raise (ValueError ("Total des adversaires par chapeau (" ++ str_int total_opponents
                         ++ ") != MATCHES_PER_CLUB (" ++ str_int (MATCHES_PER_CLUB c) ++ ")"))
    else if negb (HOME_MATCHES_PER_CLUB c + AWAY_MATCHES_PER_CLUB c =? MATCHES_PER_CLUB c) then
      Raise (ValueError ("HOME_MATCHES_PER_CLUB + AWAY_MATCHES_PER_CLUB != MATCHES_PER_CLUB ("
                         ++ str_int (HOME_MATCHES_PER_CLUB c) ++ " + "
                         ++ str_int (AWAY_MATCHES_PER_CLUB c) ++ " != "
                         ++ str_int (MATCHES_PER_CLUB c) ++ ")"))
    else
      ('(total_home, total_away) <- distribution_loop c (DISTRIBUTION_CHAPEAUX c) 0 0 ;;
       if negb (total_home =? HOME_MATCHES_PER_CLUB c)
          || negb (total_away =? AWAY_MATCHES_PER_CLUB c) then
         Raise (ValueError ("Somme H/A par chapeau incohérente avec les totaux: H="
                            ++ str_int total_home ++ " vs " ++ str_int (HOME_MATCHES_PER_CLUB c)
                            ++ ", A=" ++ str_int total_away ++ " vs "
                            ++ str_int (AWAY_MATCHES_PER_CLUB c)))
       else if negb ((TOTAL_CLUBS c * MATCHES_PER_CLUB c) mod 2 =? 0) then
         Raise (ValueError ("(" ++ str_int (TOTAL_CLUBS c) ++ " * "
                            ++ str_int (MATCHES_PER_CLUB c)
                            ++ ") doit être pair pour calculer le total de matchs."))
       else Ok true)%py.

End config.

(* ====================================================================== *)
(** * Part 4. The rule set ([src/constraints/ucl_constraints.py])           *)
(* ====================================================================== *)

Inductive ConstraintType : Type := UNARY | BINARY | GLOBAL | SOFT.

Module Constraint.

Record t : Type := make {
  name : string;
  constraint_type : ConstraintType;
  check_fn : Draw.t -> result bool;
  severity : string;
  description : string
}.

Definition is_satisfied (self : t) (draw : Draw.t) : result bool := check_fn self draw.

End Constraint.

(** A [for] loop whose body may [return False] or raise, and that is followed
    by [return True]. *)
Fixpoint for_all {A : Type} (body : A -> result bool) (l : list A) : result bool :=
  match l with
  | [] => Ok true
  | x :: rest => (b <- body x ;; if b then for_all body rest else Ok false)%py
  end.

Module UCLConstraints.

Section Rules.
Context (h : HashOrder) (cfg : config.t).

(** Rule 1 *)
Definition _check_total_matches (draw : Draw.t) : bool :=
  len (Draw.matches draw) =? config.get_expected_total_matches cfg.

(** Rule 2 *)
Definition _check_matches_per_club (draw : Draw.t) : bool :=
  forallb
    (fun club => Draw.get_number_of_matches_for_club draw club =? config.MATCHES_PER_CLUB cfg)
    (Draw.iter_all_clubs h draw).

(** Rule 3 *)
Definition _check_home_away_balance (draw : Draw.t) : bool :=
  forallb
    (fun club =>
       let home := Draw.get_number_of_home_matches_for_club draw club in
       let away := Draw.get_number_of_away_matches_for_club draw club in
       (home =? config.HOME_MATCHES_PER_CLUB cfg) && (away =? config.AWAY_MATCHES_PER_CLUB cfg))
    (Draw.iter_all_clubs h draw).

(** Rule 4: the dict [opponents_by_chapeau] of one club ... *)
Definition opponents_by_chapeau (draw : Draw.t) (club : Club.t) : dict Z Z :=
  fold_left
    (fun d opponent =>
       let chapeau := Chapeau_value (Club.chapeau opponent) in
       dict_set d chapeau (dict_get d chapeau 0 + 1))
    (Draw.get_opponents_for_club h draw club) [].

(** ... and the rule. *)
Definition _check_opponents_per_chapeau (draw : Draw.t) : bool :=
  forallb
    (fun club =>
       forallb
         (fun '(chapeau, expected_count) =>
            dict_get (opponents_by_chapeau draw club) chapeau 0 =? expected_count)
         (config.OPPONENTS_PER_CHAPEAU cfg))
    (Draw.iter_all_clubs h draw).

(** Rule 5 *)
Definition _check_chapeau_home_away_distribution (draw : Draw.t) : bool :=
  forallb
    (fun club =>
       forallb
         (fun '(chapeau, (expected_home, expected_away)) =>
            let home_count :=
              len (filter (fun m => Chapeau_value (Club.chapeau (Match.club_away m)) =? chapeau)
                          (Draw.get_home_matches_for_club draw club)) in
            let away_count :=
              len (filter (fun m => Chapeau_value (Club.chapeau (Match.club_home m)) =? chapeau)
                          (Draw.get_away_matches_for_club draw club)) in
            (home_count =? expected_home) && (away_count =? expected_away))
         (config.DISTRIBUTION_CHAPEAUX cfg))
    (Draw.iter_all_clubs h draw).

(** Rule 6 *)
Definition _check_no_same_country_opponents (draw : Draw.t) : bool :=
  let max_allowed := config.MAX_SAME_COUNTRY_OPPONENTS cfg in
  forallb
    (fun club => len (Draw.get_country_clashes_for_club h draw club) <=? max_allowed)
    (Draw.iter_all_clubs h draw).

(** Rule 7: the inner loop over the opponents of one club.  [Ok true] is a
    loop that ran to its end, [Ok false] the [return False]. *)
Fixpoint foreign_country_loop (max_per_country : Z) (club : Club.t)
    (opponents : list Club.t) (counts : dict string Z) : result bool :=
  match opponents with
  | [] => Ok true
  | opp :: rest =>
      if py_eq (Club.pays opp) (Club.pays club) then
        foreign_country_loop max_per_country club rest counts
      else
        let counts := dict_set counts (Club.pays opp) (dict_get counts (Club.pays opp) 0 + 1) in
        (n <- dict_getitem counts (Club.pays opp) ;;
         if n >? max_per_country then Ok false
         else foreign_country_loop max_per_country club rest counts)%py
  end.

Definition _check_max_two_from_same_foreign_country (draw : Draw.t) : result bool :=
  let max_per_country := config.getattr (config.MAX_OPPONENTS_PER_FOREIGN_COUNTRY cfg) 2 in
  for_all
    (fun club =>
       foreign_country_loop max_per_country club (Draw.get_opponents_for_club h draw club) [])
    (Draw.iter_all_clubs h draw).

(** Rule 8: the home/away sequence of one club ... *)
Definition venue_sequence (draw : Draw.t) (club : Club.t) : list string :=
  map (fun m => if py_eq (Match.club_home m) club then "H" else "A")
      (sorted Match.journee Z.leb (Draw.get_matches_for_club draw club)).

(** ... the loop over it, with its two counters ... *)
Fixpoint streak_loop (max_home max_away : Z) (sequence : list string)
    (consecutive_home consecutive_away : Z) : bool :=
  match sequence with
  | [] => true
  | venue :: rest =>
      let '(consecutive_home, consecutive_away) :=
        if String.eqb venue "H" then (consecutive_home + 1, 0)
        else (0, consecutive_away + 1) in
      if (consecutive_home >? max_home) || (consecutive_away >? max_away) then false
      else streak_loop max_home max_away rest consecutive_home consecutive_away
  end.

(** ... and the rule. *)
Definition _check_no_consecutive_matches (draw : Draw.t) : bool :=
  let max_home := config.MAX_CONSECUTIVE_HOME_MATCHES cfg in
  let max_away := config.MAX_CONSECUTIVE_AWAY_MATCHES cfg in
  forallb
    (fun club => streak_loop max_home max_away (venue_sequence draw club) 0 0)
    (Draw.iter_all_clubs h draw).

(** [UCLConstraints._build_constraints]: the list, in registration order. *)
Definition _build_constraints : list Constraint.t :=
  [ Constraint.make "total_matches" GLOBAL
      (fun d => Ok (_check_total_matches d)) "hard"
      "Le nombre total de matchs doit être correct";
    Constraint.make "matches_per_club" UNARY
      (fun d => Ok (_check_matches_per_club d)) "hard"
      "Chaque club doit jouer exactement le nombre de matchs défini en config";
    Constraint.make "home_away_balance" UNARY
      (fun d => Ok (_check_home_away_balance d)) "hard"
      "Chaque club doit jouer le bon nombre de matchs à domicile et à l'extérieur";
    Constraint.make "opponents_per_chapeau" UNARY
      (fun d => Ok (_check_opponents_per_chapeau d)) "hard"
      "Chaque club doit affronter le bon nombre d'adversaires par chapeau";
    Constraint.make "chapeau_home_away_distribution" UNARY
      (fun d => Ok (_check_chapeau_home_away_distribution d)) "hard"
      "Bonne distribution domicile/extérieur par chapeau";
    Constraint.make "no_same_country_opponents" BINARY
      (fun d => Ok (_check_no_same_country_opponents d)) "hard"
      "Pas d'affrontement entre clubs du même pays";
    Constraint.make "max_two_from_same_foreign_country" UNARY
      _check_max_two_from_same_foreign_country "hard"
      "Au plus deux adversaires provenant d'une même autre association";
    Constraint.make "no_consecutive_matches" UNARY
      (fun d => Ok (_check_no_consecutive_matches d)) "soft"
      "Limite les matchs consécutifs domicile/extérieur" ].

End Rules.

(** The object: its one attribute. *)
Record t : Type := make {
  constraints : list Constraint.t
}.

(** [UCLConstraints()] *)
Definition new (h : HashOrder) (cfg : config.t) : t := make (_build_constraints h cfg).

Definition get_all_constraints (self : t) : list Constraint.t := constraints self.

Definition get_hard_constraints (self : t) : list Constraint.t :=
  filter (fun c => py_eq (Constraint.severity c) "hard") (constraints self).

Definition get_soft_constraints (self : t) : list Constraint.t :=
  filter (fun c => py_eq (Constraint.severity c) "soft") (constraints self).

(** The loop of [verify_all_constraints] and of [verify_hard_constraints]:
    [for constraint in cs: if not constraint.is_satisfied(draw):
    violated.append(constraint.name)].  Next to [violated] it returns
    [calls]: the name of each constraint whose [is_satisfied] it called, one
    entry per call, in call order. *)
Fixpoint verify_loop (cs : list Constraint.t) (draw : Draw.t)
    (violated calls : list string) : result (list string * list string) :=
  match cs with
  | [] => Ok (violated, calls)
  | constraint :: rest =>
      (satisfied <- Constraint.is_satisfied constraint draw ;;
       verify_loop rest draw
         (if negb satisfied then violated ++ [Constraint.name constraint] else violated)%list
         (calls ++ [Constraint.name constraint])%list)%py
  end.

Definition verify_all_constraints (self : t) (draw : Draw.t) : result (bool * list string) :=
  ('(violated, _) <- verify_loop (constraints self) draw [] [] ;;
   Ok (len violated =? 0, violated))%py.

Definition verify_hard_constraints (self : t) (draw : Draw.t) : result (bool * list string) :=
  ('(violated, _) <- verify_loop (get_hard_constraints self) draw [] [] ;;
   Ok (len violated =? 0, violated))%py.

(** The calls to [is_satisfied] that the two functions make. *)
Definition calls_of_verify_all (self : t) (draw : Draw.t) : result (list string) :=
  ('(_, calls) <- verify_loop (constraints self) draw [] [] ;; Ok calls)%py.

Definition calls_of_verify_hard (self : t) (draw : Draw.t) : result (list string) :=
  ('(_, calls) <- verify_loop (get_hard_constraints self) draw [] [] ;; Ok calls)%py.

End UCLConstraints.

(* ====================================================================== *)
(** * Part 5. The validator ([src/validators/draw_validator.py])            *)
(* ====================================================================== *)

Module DrawValidator.

Record t : Type := make {
  constraints : UCLConstraints.t
}.

(** [DrawValidator()] *)
Definition new (h : HashOrder) (cfg : config.t) : t := make (UCLConstraints.new h cfg).

(** The four dicts that step (c) of [_check_internal_consistency] fills. *)
Record Counters : Type := {
  per_day_per_club : dict (string * Z) Z;
  pair_days : dict (string * string) (list Z);
  home_count : dict string Z;
  away_count : dict string Z
}.

Definition empty_counters : Counters :=
  {| per_day_per_club := []; pair_days := []; home_count := []; away_count := [] |}.

(** [tuple(sorted((a, b)))] *)
Definition sorted_pair (a b : string) : string * string :=
  match sorted (fun s : string => s) String.leb [a; b] with
  | [x; y] => (x, y)
  | _ => (a, b)
  end.

(** One turn of the counting loop. *)
Definition count_match (c : Counters) (m : Match.t) : Counters :=
  let home_id := Club.id (Match.club_home m) in
  let away_id := Club.id (Match.club_away m) in
  let j := Match.journee m in
  let pdpc := per_day_per_club c in
  let pdpc := dict_set pdpc (home_id, j) (dict_get pdpc (home_id, j) 0 + 1) in
  let pdpc := dict_set pdpc (away_id, j) (dict_get pdpc (away_id, j) 0 + 1) in
  let key := sorted_pair home_id away_id in
  let pd := dict_set (pair_days c) key (set_add (dict_get (pair_days c) key []) j) in
  let hc := dict_set (home_count c) home_id (dict_get (home_count c) home_id 0 + 1) in
  let ac := dict_set (away_count c) away_id (dict_get (away_count c) away_id 0 + 1) in
  {| per_day_per_club := pdpc; pair_days := pd; home_count := hc; away_count := ac |}.

Definition count_matches (draw : Draw.t) : Counters :=
  fold_left count_match (Draw.matches draw) empty_counters.

(** [range(1, n + 1)] *)
Definition range_1_to (n : Z) : list Z := map Z.of_nat (seq 1 (Z.to_nat n)).

Section Checks.
Context (h : HashOrder) (cfg : config.t).

(** The f-strings of the error entries. *)
Definition msg_self_match (m : Match.t) : string :=
  "Self-match interdit: club " ++ Club.id (Match.club_home m)
  ++ " à la J" ++ str_int (Match.journee m).

Definition msg_out_of_bounds (m : Match.t) : string :=
  "Journée hors bornes: " ++ str_int (Match.journee m) ++ " (match "
  ++ Club.id (Match.club_home m) ++ "-" ++ Club.id (Match.club_away m) ++ ")".

Definition msg_total (n expected_total : Z) : string :=
  "Total de matchs " ++ str_int n ++ " != attendu " ++ str_int expected_total.

Definition msg_per_day (club : Club.t) (n d : Z) : string :=
  "Club " ++ Club.id club ++ " a " ++ str_int n ++ " match(s) à la J" ++ str_int d
  ++ " (attendu: 1)".

Definition msg_pair (a b : string) (days : list Z) : string :=
  "Paire jouée plusieurs fois: " ++ a ++ " vs " ++ b ++ " sur journées "
  ++ repr_int_list days.

Definition msg_home (club : Club.t) (n : Z) : string :=
  "Club " ++ Club.id club ++ ": " ++ str_int n ++ " domicile != "
  ++ str_int (config.HOME_MATCHES_PER_CLUB cfg).

Definition msg_away (club : Club.t) (n : Z) : string :=
  "Club " ++ Club.id club ++ ": " ++ str_int n ++ " extérieur != "
  ++ str_int (config.AWAY_MATCHES_PER_CLUB cfg).

(** Step (a): round bounds and self-matches. *)
Definition check_bounds_and_self (draw : Draw.t) : list string :=
  flat_map
    (fun m =>
       ((if py_eq (Club.id (Match.club_home m)) (Club.id (Match.club_away m))
         then [msg_self_match m] else [])
        ++
        (if negb ((1 <=? Match.journee m) && (Match.journee m <=? config.JOURNEES cfg))
         then [msg_out_of_bounds m] else []))%list)
    (Draw.matches draw).

(** Step (b): the total number of matches. *)
Definition check_total (draw : Draw.t) : list string :=
  let expected_total := config.get_expected_total_matches cfg in
  if negb (len (Draw.matches draw) =? expected_total)
  then [msg_total (len (Draw.matches draw)) expected_total]
  else [].

(** Step (c), first loop: one match per club and round. *)
Definition check_one_match_per_day (draw : Draw.t) : list string :=
  let c := count_matches draw in
  flat_map
    (fun club =>
       flat_map
         (fun d =>
            if negb (dict_get (per_day_per_club c) (Club.id club, d) 0 =? 1)
            then [msg_per_day club (dict_get (per_day_per_club c) (Club.id club, d) 0) d]
            else [])
         (range_1_to (config.JOURNEES cfg)))
    (Draw.iter_all_clubs h draw).

(** Step (c), second loop: a pair meets at most once. *)
Definition check_pairs (draw : Draw.t) : list string :=
  flat_map
    (fun '((a, b), days) =>
       if len days >? 1
       then [msg_pair a b (sorted (fun d : Z => d) Z.leb (iter (int_order h) days))]
       else [])
    (pair_days (count_matches draw)).

(** Step (d): home and away counts per club. *)
Definition check_home_away_counts (draw : Draw.t) : list string :=
  let c := count_matches draw in
  flat_map
    (fun club =>
       ((if negb (dict_get (home_count c) (Club.id club) 0 =? config.HOME_MATCHES_PER_CLUB cfg)
         then [msg_home club (dict_get (home_count c) (Club.id club) 0)] else [])
        ++
        (if negb (dict_get (away_count c) (Club.id club) 0 =? config.AWAY_MATCHES_PER_CLUB cfg)
         then [msg_away club (dict_get (away_count c) (Club.id club) 0)] else []))%list)
    (Draw.iter_all_clubs h draw).

(** [DrawValidator._check_internal_consistency] *)
Definition _check_internal_consistency (draw : Draw.t) : list string :=
  (check_bounds_and_self draw
   ++ check_total draw
   ++ check_one_match_per_day draw
   ++ check_pairs draw
   ++ check_home_away_counts draw)%list.

End Checks.

(** The comprehension [[c.name for c in cs if not c.is_satisfied(draw)]]. *)
Fixpoint names_of_unsatisfied (cs : list Constraint.t) (draw : Draw.t) : result (list string) :=
  match cs with
  | [] => Ok []
  | c :: rest =>
      (satisfied <- Constraint.is_satisfied c draw ;;
       names <- names_of_unsatisfied rest draw ;;
       Ok (if negb satisfied then Constraint.name c :: names else names))%py
  end.

(** The f-strings of the two combined entries. *)
Definition msg_hard (hard_violated : list string) : string :=
  "Hard constraints violated: " ++ join ", " hard_violated.

Definition msg_soft (soft_violated : list string) : string :=
  "Soft constraints not satisfied: " ++ join ", " soft_violated.

(** [DrawValidator.validate].  The structural checks read [config] and walk
    the club set, hence the two parameters next to [self]. *)
Definition validate (h : HashOrder) (cfg : config.t) (self : t) (draw : Draw.t)
  : result (bool * list string * list string) :=
  let errors : list string := [] in
  let warnings : list string := [] in
  let errors := (errors ++ _check_internal_consistency h cfg draw)%list in
  ('(hard_ok, hard_violated) <-
     UCLConstraints.verify_hard_constraints (constraints self) draw ;;
   let errors :=
     if negb hard_ok
     then (errors ++ [msg_hard hard_violated])%list
     else errors in
   soft_violated <-
     names_of_unsatisfied (UCLConstraints.get_soft_constraints (constraints self)) draw ;;
   let warnings :=
     match soft_violated with
     | [] => warnings
     | _ :: _ =>
         (warnings ++ [msg_soft soft_violated])%list
     end in
   Ok (len errors =? 0, errors, warnings))%py.

End DrawValidator.

(* ====================================================================== *)
(** * Part 5b. The club index of the loader ([src/utils/solution_loader.py]) *)
(* ====================================================================== *)

Module SolutionLoader.

(** A value, or the raise of [DrawImportError]. *)
Inductive import_result (A : Type) : Type :=
| Loaded (a : A)
| DrawImportError (msg : string).

Arguments Loaded {A} a.
Arguments DrawImportError {A} msg.

(** [k in idx] on a dict *)
Definition has_key (idx : dict string Club.t) (k : string) : bool :=
  match dict_lookup idx k with
  | Some _ => true
  | None => false
  end.

(** The loop of [_build_club_index] from a given [idx]. *)
Fixpoint index_loop (clubs : list Club.t) (idx : dict string Club.t)
  : import_result (dict string Club.t) :=
  match clubs with
  | [] => Loaded idx
  | c :: rest =>
      if has_key idx (Club.id c) then
        DrawImportError ("ID de club en doublon: " ++ Club.id c)
      else index_loop rest (dict_set idx (Club.id c) c)
  end.

(** [SolutionLoader._build_club_index] *)
Definition _build_club_index (clubs : list Club.t) : import_result (dict string Club.t) :=
  index_loop clubs [].

End SolutionLoader.

(* ====================================================================== *)
(** * Part 6. Notions used to state the properties                          *)
(* ====================================================================== *)

(** ** Batch insertion *)

(** The position of the first element of [ms] that is already in [present]
    or equal to an element before it; [None] when there is none. *)
Fixpoint first_duplicate (present ms : list Match.t) : option nat :=
  match ms with
  | [] => None
  | m :: rest =>
      if list_contains m present then Some O
      else option_map S (first_duplicate (present ++ [m]) rest)
  end.


(** No two matches of the list share a (home id, away id, round) identity. *)
Definition no_duplicate_matches (l : list Match.t) : Prop :=
  NoDup (map Match.identity l).

(** The matches in which [club] is both the home and the away side. *)
Definition self_matches_of (d : Draw.t) (club : Club.t) : list Match.t :=
  filter (fun m => py_eq (Match.club_home m) club && py_eq (Match.club_away m) club)
         (Draw.matches d).

(** The lists that [get_matches_by_journee] returns for rounds 1 to 8, one
    after the other. *)
Definition matches_round_by_round (d : Draw.t) : list Match.t :=
  flat_map
    (fun j => match Draw.get_matches_by_journee d j with
              | Ok l => l
              | Raise _ => []
              end)
    [1; 2; 3; 4; 5; 6; 7; 8].

(** [b] is the opponent of [a] in [m], up to [Club.__eq__]. *)
Definition meets_in (m : Match.t) (a b : Club.t) : bool :=
  match Match.opponent_of m a with
  | Some o => py_eq b o
  | None => false
  end.

(** The home and away clubs of all the matches of a draw. *)
Definition participants (d : Draw.t) : list Club.t :=
  flat_map (fun m => [Match.club_home m; Match.club_away m]) (Draw.matches d).

(** The draw uses one [Club] object per id. *)
Definition one_club_per_id (d : Draw.t) : Prop :=
  forall c1 c2, In c1 (participants d) -> In c2 (participants d) ->
    Club.id c1 = Club.id c2 -> c1 = c2.

(** The matches of round [j] that involve [club]. *)
Definition matches_of_club_in_round (d : Draw.t) (club : Club.t) (j : Z) : list Match.t :=
  filter (fun m => Match.involves_club m club && (Match.journee m =? j)) (Draw.matches d).

(** Two matches oppose the same two ids, whichever side is at home. *)
Definition same_pair (m1 m2 : Match.t) : Prop :=
  (Club.id (Match.club_home m1) = Club.id (Match.club_home m2)
   /\ Club.id (Match.club_away m1) = Club.id (Match.club_away m2))
  \/ (Club.id (Match.club_home m1) = Club.id (Match.club_away m2)
      /\ Club.id (Match.club_away m1) = Club.id (Match.club_home m2)).

(** The sum of [f] over a list. *)
Definition sum_over {A : Type} (f : A -> Z) (l : list A) : Z :=
  fold_right (fun x acc => f x + acc) 0 l.

(** The key under which the counting loop of the validator files a match. *)
Definition pair_key (m : Match.t) : string * string :=
  DrawValidator.sorted_pair (Club.id (Match.club_home m)) (Club.id (Match.club_away m)).

(** The keys of a dict are pairwise different. *)
Fixpoint dict_wf {K V : Type} `{PyEq K} (d : dict K V) : Prop :=
  match d with
  | [] => True
  | (k, _) :: r => dict_lookup r k = None /\ dict_wf r
  end.

(** The index that lists each club under its id, in the order of the list. *)
Definition index_of (clubs : list Club.t) : dict string Club.t :=
  map (fun c => (Club.id c, c)) clubs.

(** ** Rule evaluation *)

(** A rule is violated on a draw when its check returns [False]. *)
Definition violated_by (draw : Draw.t) (c : Constraint.t) : bool :=
  match Constraint.is_satisfied c draw with
  | Ok false => true
  | _ => false
  end.

(** The names under which [_build_constraints] registers the rules, in the
    order of its [append] calls, and those it registers as hard. *)
Definition registered_names : list string :=
  [ "total_matches"; "matches_per_club"; "home_away_balance"; "opponents_per_chapeau";
    "chapeau_home_away_distribution"; "no_same_country_opponents";
    "max_two_from_same_foreign_country"; "no_consecutive_matches" ].

Definition registered_hard_names : list string :=
  [ "total_matches"; "matches_per_club"; "home_away_balance"; "opponents_per_chapeau";
    "chapeau_home_away_distribution"; "no_same_country_opponents";
    "max_two_from_same_foreign_country" ].

(** ** The clubs of a draw and what they play, read off its matches *)

(** [club] is the home side of [m], its away side, one of the two.  Clubs are
    told apart by their ids. *)
Definition at_home (club : Club.t) (m : Match.t) : bool :=
  String.eqb (Club.id (Match.club_home m)) (Club.id club).

Definition on_the_road (club : Club.t) (m : Match.t) : bool :=
  String.eqb (Club.id (Match.club_away m)) (Club.id club).

Definition plays_in (club : Club.t) (m : Match.t) : bool :=
  at_home club m || on_the_road club m.



(** ** The foreign-country rule, in the words of the specification *)


(** The number of clubs of a list that come from [country]. *)
Definition count_from_country (country : string) (clubs : list Club.t) : Z :=
  len (filter (fun opp => String.eqb (Club.pays opp) country) clubs).



(** ** The streak rule, in the words of the specification *)

(** [ms] lists the matches of [club] sorted by round: the rounds never
    decrease along [ms], and the matches of each round are those that the
    club plays in that round, in the order of the draw. *)
Definition in_round_order (d : Draw.t) (club : Club.t) (ms : list Match.t) : Prop :=
  Sorted (fun a b => Match.journee a <= Match.journee b) ms
  /\ forall j, filter (fun m => Match.journee m =? j) ms
               = filter (fun m => plays_in club m && (Match.journee m =? j)) (Draw.matches d).

(** The home/away sequence of [club] along [ms]. *)
Definition venues_of (club : Club.t) (ms : list Match.t) : list string :=
  map (fun m => if at_home club m then "H" else "A") ms.

(** [sequence] contains a run of more than [n] consecutive [venue]s. *)
Definition has_run_longer_than (venue : string) (n : Z) (sequence : list string) : Prop :=
  exists (k : nat) (before after : list string),
    n < Z.of_nat k /\ sequence = (before ++ repeat venue k ++ after)%list.

(** The home/away sequence has no home run longer than the home maximum and
    no away run longer than the away maximum. *)
Definition within_streak_limits (cfg : config.t) (sequence : list string) : Prop :=
  ~ has_run_longer_than "H" (config.MAX_CONSECUTIVE_HOME_MATCHES cfg) sequence
  /\ ~ has_run_longer_than "A" (config.MAX_CONSECUTIVE_AWAY_MATCHES cfg) sequence.

(** For every club of the draw, the home/away sequence of its matches sorted
    by round is within the limits. *)
Definition streak_rule (cfg : config.t) (d : Draw.t) : Prop :=
  forall club, In club (participants d) ->
  forall ms, in_round_order d club ms ->
    within_streak_limits cfg (venues_of club ms).

(** ** Example data *)

Module Examples.

Definition PSG : Club.t := Club.make "PSG" "Paris Saint-Germain" "FRA" CHAPEAU_1.
Definition OM : Club.t := Club.make "OM" "Olympique de Marseille" "FRA" CHAPEAU_3.
Definition RMA : Club.t := Club.make "RMA" "Real Madrid" "ESP" CHAPEAU_1.
Definition BAY : Club.t := Club.make "BAY" "Bayern München" "GER" CHAPEAU_1.

Definition psg_rma_1 : Match.t := Match.make PSG RMA 1.
Definition rma_psg_1 : Match.t := Match.make RMA PSG 1.
Definition psg_om_2 : Match.t := Match.make PSG OM 2.
Definition bay_psg_3 : Match.t := Match.make BAY PSG 3.

Definition psg_bay_4 : Match.t := Match.make PSG BAY 4.
Definition rma_bay_5 : Match.t := Match.make RMA BAY 5.

Definition small_draw : Draw.t :=
  Draw.make [psg_rma_1; psg_om_2; bay_psg_3; psg_bay_4; rma_bay_5] "2025-26".

Definition empty_draw : Draw.t := Draw.make [] "2025-26".
Definition one_match_draw : Draw.t := Draw.make [psg_rma_1] "2025-26".



(** Twelve clubs, three per pot, each from a country of its own, and 48
    matches over 8 rounds in which every club meets two clubs of each pot,
    one at home and one away, and plays once per round. *)
Definition pot_of (letter : string) : Chapeau :=
  if String.eqb letter "A" then CHAPEAU_1
  else if String.eqb letter "B" then CHAPEAU_2
  else if String.eqb letter "C" then CHAPEAU_3
  else CHAPEAU_4.

Definition club12 (letter number : string) : Club.t :=
  Club.make (letter ++ number) ("Club " ++ letter ++ number) ("X" ++ letter ++ number)
            (pot_of letter).

Definition fixture (x : string * string * string * string * Z) : Match.t :=
  let '(hl, hn, al, an, j) := x in Match.make (club12 hl hn) (club12 al an) j.

Definition league12 : Draw.t :=
  Draw.make (map fixture
    [ ("A","0","B","0",1); ("B","1","D","1",1); ("C","0","A","2",1);
      ("C","1","C","2",1); ("D","0","B","2",1); ("D","2","A","1",1);
      ("A","2","B","2",2); ("B","0","C","0",2); ("B","1","A","0",2);
      ("C","1","D","1",2); ("C","2","A","1",2); ("D","2","D","0",2);
      ("A","1","B","1",3); ("A","2","D","2",3); ("B","0","D","0",3);
      ("B","2","C","2",3); ("C","0","C","1",3); ("D","1","A","0",3);
      ("A","0","C","0",4); ("A","1","D","1",4); ("B","2","D","2",4);
      ("C","1","B","0",4); ("C","2","B","1",4); ("D","0","A","2",4);
      ("A","0","A","1",5); ("A","2","C","2",5); ("B","1","B","2",5);
      ("C","0","D","0",5); ("D","1","B","0",5); ("D","2","C","1",5);
      ("A","1","C","1",6); ("A","2","A","0",6); ("B","0","B","1",6);
      ("C","0","B","2",6); ("D","0","C","2",6); ("D","1","D","2",6);
      ("A","1","A","2",7); ("B","2","B","0",7); ("C","1","A","0",7);
      ("C","2","C","0",7); ("D","0","D","1",7); ("D","2","B","1",7);
      ("A","0","D","0",8); ("B","0","A","2",8); ("B","1","C","1",8);
      ("B","2","A","1",8); ("C","2","D","2",8); ("D","1","C","0",8) ])
    "2025-26".

(** The same pairings on other rounds: club A0 is away in rounds 3, 4 and 5. *)
Definition league12_streaky : Draw.t :=
  Draw.make (map fixture
    [ ("A","0","C","0",1); ("A","2","B","2",1); ("B","1","D","1",1);
      ("C","1","B","0",1); ("D","0","C","2",1); ("D","2","A","1",1);
      ("A","2","A","0",2); ("B","1","B","2",2); ("C","0","C","1",2);
      ("C","2","A","1",2); ("D","1","B","0",2); ("D","2","D","0",2);
      ("A","1","A","2",3); ("B","0","D","0",3); ("B","2","C","2",3);
      ("C","1","A","0",3); ("D","1","C","0",3); ("D","2","B","1",3);
      ("A","1","D","1",4); ("A","2","D","2",4); ("B","0","C","0",4);
      ("B","1","A","0",4); ("C","1","C","2",4); ("D","0","B","2",4);
      ("A","0","A","1",5); ("B","0","A","2",5); ("B","2","D","2",5);
      ("C","0","D","0",5); ("C","1","D","1",5); ("C","2","B","1",5);
      ("A","0","B","0",6); ("B","1","C","1",6); ("B","2","A","1",6);
      ("C","0","A","2",6); ("C","2","D","2",6); ("D","0","D","1",6);
      ("A","0","D","0",7); ("A","1","C","1",7); ("A","2","C","2",7);
      ("B","0","B","1",7); ("C","0","B","2",7); ("D","1","D","2",7);
      ("A","1","B","1",8); ("B","2","B","0",8); ("C","2","C","0",8);
      ("D","0","A","2",8); ("D","1","A","0",8); ("D","2","C","1",8) ])
    "2025-26".

(** The configuration of [config.py] with [TOTAL_CLUBS = 12]. *)
Definition config12 : config.t :=
  config.make 8 8 4 4 12 [(1, 3); (2, 3); (3, 3); (4, 3)]
    [(1, 2); (2, 2); (3, 2); (4, 2)] 0 (Some 2)
    [(1, (1, 1)); (2, (1, 1)); (3, (1, 1)); (4, (1, 1))] 2 2.

(** A configuration with no match to play: 36 clubs, nine per pot, and
    zero everywhere else. *)
Definition config_no_match : config.t :=
  config.make 0 8 0 0 36 [(1, 9); (2, 9); (3, 9); (4, 9)]
    [(1, 0); (2, 0); (3, 0); (4, 0)] 0 (Some 2)
    [(1, (0, 0)); (2, (0, 0)); (3, (0, 0)); (4, (0, 0))] 2 2.

End Examples.
(* ====================================================================== *)
(** * Part 7. Properties of the entity model                                *)
(* ====================================================================== *)

Local Open Scope list_scope.

Unset Implicit Arguments.

(** ** Match identity *)

Lemma Match_eq_identity (a b : Match.t) :
  py_eq a b = true <-> Match.identity a = Match.identity b.
Proof.
  unfold Match.identity. simpl. unfold Match.eq. simpl. unfold Club.eq.
  rewrite !andb_true_iff, !String.eqb_eq, Z.eqb_eq.
  split.
  - intros [[H1 H2] H3]. now rewrite H1, H2, H3.
  - intros H. inversion H. auto.
Qed.

Lemma list_contains_spec {A : Type} `{PyEq A} (x : A) (l : list A) :
  list_contains x l = true <-> exists y, In y l /\ py_eq x y = true.
Proof.
  unfold list_contains. rewrite existsb_exists. reflexivity.
Qed.

Lemma list_contains_app {A : Type} `{PyEq A} (x : A) (l1 l2 : list A) :
  list_contains x (l1 ++ l2) = list_contains x l1 || list_contains x l2.
Proof.
  unfold list_contains. apply existsb_app.
Qed.

Lemma valid_inv (m : Match.t) :
  Match.valid m <->
  py_eq (Match.club_home m) (Match.club_away m) = false
  /\ 1 <= Match.journee m <= 8.
Proof.
  unfold Match.valid, Match.post_init.
  destruct (py_eq (Match.club_home m) (Match.club_away m)).
  - split; [discriminate | intros [H _]; discriminate].
  - destruct (Z.ltb_spec (Match.journee m) 1); simpl.
    + split; [discriminate | lia].
    + destruct (Z.gtb_spec (Match.journee m) 8).
      * split; [discriminate | lia].
      * split; [intros _; split; [reflexivity | lia] | reflexivity].
Qed.

(** ** The two insertion methods *)

Lemma add_match_fresh (d : Draw.t) (m : Match.t) :
  list_contains m (Draw.matches d) = false ->
  Draw.add_match d m = (Ok tt, Draw.make (Draw.matches d ++ [m]) (Draw.season d)).
Proof.
  intros H. unfold Draw.add_match. now rewrite H.
Qed.

Lemma add_match_duplicate (d : Draw.t) (m : Match.t) :
  list_contains m (Draw.matches d) = true ->
  Draw.add_match d m
  = (Raise (ValueError (Draw.msg_duplicate m)), d).
Proof.
  intros H. unfold Draw.add_match. now rewrite H.
Qed.

Lemma add_matches_no_duplicate (ms : list Match.t) : forall d,
  first_duplicate (Draw.matches d) ms = None ->
  Draw.add_matches d ms = (Ok tt, Draw.make (Draw.matches d ++ ms) (Draw.season d)).
Proof.
  induction ms as [|m rest IH]; intros d H; simpl in *.
  - rewrite app_nil_r. now destruct d.
  - destruct (list_contains m (Draw.matches d)) eqn:E; [discriminate|].
    rewrite (add_match_fresh _ _ E).
    destruct (first_duplicate (Draw.matches d ++ [m]) rest) eqn:F; [discriminate|].
    rewrite IH by exact F. simpl. now rewrite <- app_assoc.
Qed.

Lemma add_matches_first_duplicate (ms : list Match.t) : forall d j,
  first_duplicate (Draw.matches d) ms = Some j ->
  exists m, nth_error ms j = Some m
    /\ list_contains m (Draw.matches d ++ firstn j ms) = true
    /\ Draw.add_matches d ms
       = (Raise (ValueError (Draw.msg_duplicate m)),
          Draw.make (Draw.matches d ++ firstn j ms) (Draw.season d)).
Proof.
  induction ms as [|m rest IH]; intros d j H; simpl in *; [discriminate|].
  destruct (list_contains m (Draw.matches d)) eqn:E.
  - injection H as <-. exists m. simpl. rewrite app_nil_r.
    repeat split; auto. rewrite (add_match_duplicate _ _ E). now destruct d.
  - rewrite (add_match_fresh _ _ E).
    destruct (first_duplicate (Draw.matches d ++ [m]) rest) as [j'|] eqn:F; [|discriminate].
    injection H as <-.
    destruct (IH (Draw.make (Draw.matches d ++ [m]) (Draw.season d)) j' F)
      as (m' & Hn & Hc & Hr).
    exists m'. simpl in *. rewrite <- app_assoc in Hc, Hr. simpl in Hc, Hr. auto.
Qed.

(** A duplicate at position [k] puts the first duplicate at or before [k]. *)
Lemma first_duplicate_le (ms : list Match.t) : forall present k m,
  nth_error ms k = Some m ->
  list_contains m (present ++ firstn k ms) = true ->
  exists j, first_duplicate present ms = Some j /\ (j <= k)%nat.
Proof.
  induction ms as [|x rest IH]; intros present k m Hn Hc.
  - destruct k; discriminate.
  - simpl. destruct (list_contains x present) eqn:E.
    + exists O. split; [reflexivity | lia].
    + destruct k as [|k]; simpl in *.
      * injection Hn as ->. rewrite app_nil_r in Hc. congruence.
      * destruct (IH (present ++ [x]) k m Hn) as (j & Hj & Hle).
        { now rewrite <- app_assoc. }
        exists (S j). rewrite Hj. split; [reflexivity | lia].
Qed.

(** When no element before position [k] is a duplicate, the first duplicate
    is not before [k]. *)
Lemma first_duplicate_ge (ms : list Match.t) : forall present k j,
  (forall i x, (i < k)%nat -> nth_error ms i = Some x ->
               list_contains x (present ++ firstn i ms) = false) ->
  first_duplicate present ms = Some j -> (k <= j)%nat.
Proof.
  induction ms as [|x rest IH]; intros present k j Hfree Hj; simpl in *; [discriminate|].
  destruct k as [|k]; [lia|].
  destruct (list_contains x present) eqn:E.
  - specialize (Hfree O x ltac:(lia) eq_refl). simpl in Hfree.
    rewrite app_nil_r in Hfree. congruence.
  - destruct (first_duplicate (present ++ [x]) rest) as [j'|] eqn:F; [|discriminate].
    injection Hj as <-. apply le_n_S. apply (IH (present ++ [x]) k j'); auto.
    intros i y Hi Hn. specialize (Hfree (S i) y ltac:(lia) Hn).
    simpl in Hfree. now rewrite <- app_assoc.
Qed.

(** In general a batch with a duplicate anywhere raises, and what stays in
    the draw is the part of the batch before its first duplicate. *)
Lemma add_matches_raises_at_first_duplicate (d : Draw.t) (ms : list Match.t)
    (k : nat) (m : Match.t) :
  nth_error ms k = Some m ->
  list_contains m (Draw.matches d ++ firstn k ms) = true ->
  exists j m', (j <= k)%nat
    /\ nth_error ms j = Some m'
    /\ Draw.add_matches d ms
       = (Raise (ValueError (Draw.msg_duplicate m')),
          Draw.make (Draw.matches d ++ firstn j ms) (Draw.season d)).
Proof.
  intros Hk Hdup.
  destruct (first_duplicate_le ms (Draw.matches d) k m Hk Hdup) as (j & Hj & Hle).
  destruct (add_matches_first_duplicate ms d j Hj) as (m' & Hn & _ & Hr).
  exists j, m'. auto.
Qed.

(* ====================================================================== *)
(** * Part 8. Reverse matches and insertion                                 *)
(* ====================================================================== *)

(** C9.  For a well-constructed match [m], [implies_reverse_match] returns a
    match [r] that is itself well-constructed, differs from [m] under the
    (home id, away id, round) identity, keeps the round, and whose own
    reverse is [m] again.  The operation reads [m] only: it takes no draw and
    returns none, so the reverse is built on each call and stored nowhere. *)
Theorem C9_reverse_match_involution (m : Match.t) (Hvalid : Match.valid m) :
  exists r,
    Match.implies_reverse_match m = Ok r
    /\ r = Match.make (Match.club_away m) (Match.club_home m) (Match.journee m)
    /\ Match.valid r
    /\ py_eq r m = false
    /\ Match.identity r <> Match.identity m
    /\ Match.journee r = Match.journee m
    /\ exists m', Match.implies_reverse_match r = Ok m' /\ py_eq m' m = true /\ m' = m.
Proof.
  pose proof (proj1 (valid_inv m) Hvalid) as [Hne Hj].
  set (r := Match.make (Match.club_away m) (Match.club_home m) (Match.journee m)).
  assert (Hr : Match.valid r).
  { apply valid_inv. unfold r. cbn [Match.club_home Match.club_away Match.journee].
    split; [|exact Hj]. now rewrite py_eq_sym. }
  assert (Hrm : py_eq r m = false).
  { change (Match.eq r m = false). unfold Match.eq, r.
    cbn [Match.club_home Match.club_away Match.journee].
    rewrite (py_eq_sym (Match.club_away m) (Match.club_home m)), Hne. reflexivity. }
  exists r. repeat split.
  - unfold Match.implies_reverse_match, Match.new. fold r.
    unfold Match.valid in Hr. now rewrite Hr.
  - exact Hr.
  - exact Hrm.
  - intros Hid. apply Match_eq_identity in Hid. congruence.
  - exists m. repeat split.
    + unfold Match.implies_reverse_match, Match.new. simpl.
      destruct m as [hm aw j]. simpl in *.
      unfold Match.valid in Hvalid. now rewrite Hvalid.
    + apply py_eq_refl.
Qed.

Lemma C9_reverse_match_involution_witness :
  Match.valid Examples.psg_rma_1
  /\ exists r,
       Match.implies_reverse_match Examples.psg_rma_1 = Ok r
       /\ r = Examples.rma_psg_1
       /\ Match.valid r
       /\ py_eq r Examples.psg_rma_1 = false
       /\ Match.identity r <> Match.identity Examples.psg_rma_1
       /\ Match.journee r = 1
       /\ exists m', Match.implies_reverse_match r = Ok m'
                     /\ py_eq m' Examples.psg_rma_1 = true /\ m' = Examples.psg_rma_1.
Proof.
  split; [reflexivity|].
  exact (C9_reverse_match_involution Examples.psg_rma_1 eq_refl).
Defined.

(** C7.  [add_match] raises the duplicate error exactly when the draw already
    holds a match with the same (home id, away id, round) identity, and then
    leaves the draw as it was; otherwise it returns and appends the match.
    No rule is consulted: an insertion that is not a duplicate succeeds also
    when the resulting draw breaks the hard rules, as the insertion of one
    match into the empty draw shows. *)
Theorem C7_add_match_duplicate_only (d : Draw.t) (m : Match.t) :
  (fst (Draw.add_match d m) = Raise (ValueError (Draw.msg_duplicate m))
   <-> exists m', In m' (Draw.matches d) /\ Match.identity m' = Match.identity m)
  /\ (forall e, fst (Draw.add_match d m) = Raise e -> snd (Draw.add_match d m) = d)
  /\ ((forall m', In m' (Draw.matches d) -> Match.identity m' <> Match.identity m) ->
      Draw.add_match d m = (Ok tt, Draw.make (Draw.matches d ++ [m]) (Draw.season d)))
  /\ (exists d0 m0 d1 violated,
        Draw.add_match d0 m0 = (Ok tt, d1)
        /\ UCLConstraints.verify_hard_constraints
             (UCLConstraints.new insertion_hash_order config.default) d1
           = Ok (false, violated)).
Proof.
  assert (Hdup : list_contains m (Draw.matches d) = true
                 <-> exists m', In m' (Draw.matches d)
                                /\ Match.identity m' = Match.identity m).
  { rewrite list_contains_spec. split; intros (m' & Hin & He); exists m'; split; auto.
    - symmetry. now apply Match_eq_identity.
    - apply Match_eq_identity. now symmetry. }
  repeat split.
  - intros Hr. apply Hdup. unfold Draw.add_match in Hr.
    destruct (list_contains m (Draw.matches d)); [reflexivity | discriminate].
  - intros Hex. apply Hdup in Hex. now rewrite (add_match_duplicate _ _ Hex).
  - intros e. unfold Draw.add_match.
    destruct (list_contains m (Draw.matches d)); simpl; [reflexivity | discriminate].
  - intros Hfresh. apply add_match_fresh.
    destruct (list_contains m (Draw.matches d)) eqn:E; [|reflexivity].
    destruct (proj1 Hdup eq_refl) as (m' & Hin & He). now destruct (Hfresh m' Hin).
  - exists Examples.empty_draw, Examples.psg_rma_1, Examples.one_match_draw.
    eexists. split; vm_compute; reflexivity.
Qed.

(** C10, as stated, fails.  The fourth element of the batch below equals its
    first element, so the batch has a duplicate at position 4; yet
    [add_matches] does not keep the three elements before it: the second
    element is already in the draw, the error is raised there and names it,
    and the third element is never inserted. *)
Lemma C10_counterexample :
  nth_error [Examples.psg_om_2; Examples.psg_rma_1; Examples.bay_psg_3; Examples.psg_om_2] 3
  = Some Examples.psg_om_2
  /\ list_contains Examples.psg_om_2
       (Draw.matches Examples.one_match_draw
        ++ firstn 3 [Examples.psg_om_2; Examples.psg_rma_1; Examples.bay_psg_3;
                     Examples.psg_om_2]) = true
  /\ Draw.add_matches Examples.one_match_draw
       [Examples.psg_om_2; Examples.psg_rma_1; Examples.bay_psg_3; Examples.psg_om_2]
     = (Raise (ValueError (Draw.msg_duplicate Examples.psg_rma_1)),
        Draw.make [Examples.psg_rma_1; Examples.psg_om_2] "2025-26")
  /\ Draw.matches
       (snd (Draw.add_matches Examples.one_match_draw
               [Examples.psg_om_2; Examples.psg_rma_1; Examples.bay_psg_3;
                Examples.psg_om_2]))
     <> Draw.matches Examples.one_match_draw
        ++ firstn 3 [Examples.psg_om_2; Examples.psg_rma_1; Examples.bay_psg_3;
                     Examples.psg_om_2]
  /\ ~ In Examples.bay_psg_3
         (Draw.matches
            (snd (Draw.add_matches Examples.one_match_draw
                    [Examples.psg_om_2; Examples.psg_rma_1; Examples.bay_psg_3;
                     Examples.psg_om_2]))).
Proof.
  split; [reflexivity|]. split; [reflexivity|]. split; [reflexivity|].
  split; [discriminate|].
  intros [H | [H | []]]; discriminate H.
Qed.

(** C10, amended.  [add_matches] is not atomic.  Let the element of the
    batch at position [k] (counted from 0, so the (k+1)-th element) be its
    first duplicate: it equals a match already in the draw or an earlier
    element of the batch, and no element before it does.  Then [add_matches]
    raises the duplicate error for that element, and the draw keeps the [k]
    elements that precede it and none of those that follow. *)
Theorem C10_add_matches_not_atomic (d : Draw.t) (ms : list Match.t) (k : nat) (m : Match.t)
    (Hk : nth_error ms k = Some m)
    (Hdup : list_contains m (Draw.matches d ++ firstn k ms) = true)
    (Hfirst : forall i x, (i < k)%nat -> nth_error ms i = Some x ->
                          list_contains x (Draw.matches d ++ firstn i ms) = false) :
  Draw.add_matches d ms
  = (Raise (ValueError (Draw.msg_duplicate m)),
     Draw.make (Draw.matches d ++ firstn k ms) (Draw.season d)).
Proof.
  destruct (first_duplicate_le ms (Draw.matches d) k m Hk Hdup) as (j & Hj & Hle).
  pose proof (first_duplicate_ge ms (Draw.matches d) k j Hfirst Hj) as Hge.
  assert (j = k) by lia. subst j.
  destruct (add_matches_first_duplicate ms d k Hj) as (m' & Hn & _ & Hr).
  rewrite Hk in Hn. injection Hn as <-. exact Hr.
Qed.

Lemma C10_add_matches_not_atomic_witness :
  Draw.add_matches Examples.one_match_draw
    [Examples.psg_om_2; Examples.bay_psg_3; Examples.psg_om_2; Examples.rma_psg_1]
  = (Raise (ValueError (Draw.msg_duplicate Examples.psg_om_2)),
     Draw.make [Examples.psg_rma_1; Examples.psg_om_2; Examples.bay_psg_3] "2025-26").
Proof.
  apply (C10_add_matches_not_atomic Examples.one_match_draw
           [Examples.psg_om_2; Examples.bay_psg_3; Examples.psg_om_2; Examples.rma_psg_1]
           2%nat Examples.psg_om_2).
  - reflexivity.
  - reflexivity.
  - intros i x Hi Hn.
    destruct i as [|[|i]]; [| |lia]; simpl in Hn; injection Hn as <-; reflexivity.
Defined.

(* ====================================================================== *)
(** * Part 9. Properties of the runtime containers                          *)
(* ====================================================================== *)

Lemma py_eq_congr {A : Type} `{PyEq A} (a b c : A) :
  py_eq a b = true -> py_eq a c = py_eq b c.
Proof.
  intros Hab. destruct (py_eq b c) eqn:Hbc.
  - eapply py_eq_trans; eauto.
  - destruct (py_eq a c) eqn:Hac; [|reflexivity].
    rewrite py_eq_sym in Hab. rewrite <- Hbc. symmetry. eapply py_eq_trans; eauto.
Qed.

Section DictFacts.
Context {K V : Type} `{PyEq K}.

Lemma dict_lookup_set (d : dict K V) (k q : K) (v : V) :
  dict_lookup (dict_set d k v) q = if py_eq k q then Some v else dict_lookup d q.
Proof.
  induction d as [|[k' v'] r IH]; simpl.
  - reflexivity.
  - destruct (py_eq k' k) eqn:E; simpl.
    + rewrite (py_eq_congr k' k q E). now destruct (py_eq k q).
    + rewrite IH. destruct (py_eq k' q) eqn:E'; [|reflexivity].
      destruct (py_eq k q) eqn:E''; [|reflexivity].
      rewrite (py_eq_sym k q) in E''. rewrite (py_eq_trans _ _ _ E' E'') in E. discriminate.
Qed.

Lemma dict_get_set (d : dict K V) (k q : K) (v default : V) :
  dict_get (dict_set d k v) q default = if py_eq k q then v else dict_get d q default.
Proof.
  unfold dict_get. rewrite dict_lookup_set. now destruct (py_eq k q).
Qed.

(** Reading a key just written never raises. *)
Lemma dict_getitem_set (d : dict K V) (k : K) (v : V) :
  dict_getitem (dict_set d k v) k = Ok v.
Proof.
  unfold dict_getitem. now rewrite dict_lookup_set, py_eq_refl.
Qed.

End DictFacts.

(* ====================================================================== *)
(** * Part 10. The engine evaluates every rule                              *)
(* ====================================================================== *)

(** Rule 7 is the one check that subscripts a dict; it returns all the same. *)
Lemma foreign_country_loop_returns (max_per_country : Z) (club : Club.t)
    (opponents : list Club.t) : forall counts,
  returns (UCLConstraints.foreign_country_loop max_per_country club opponents counts).
Proof.
  induction opponents as [|opp rest IH]; intros counts; simpl.
  - now exists true.
  - destruct (String.eqb (Club.pays opp) (Club.pays club)); [apply IH|].
    rewrite dict_getitem_set. simpl.
    destruct (_ >? max_per_country); [now exists false | apply IH].
Qed.

Lemma for_all_returns {A : Type} (body : A -> result bool) (l : list A) :
  (forall x, In x l -> returns (body x)) -> returns (for_all body l).
Proof.
  induction l as [|x rest IH]; intros Hb; simpl.
  - now exists true.
  - destruct (Hb x (or_introl eq_refl)) as [b Hx]. rewrite Hx. simpl.
    destruct b; [apply IH; intros y Hy; apply Hb; now right | now exists false].
Qed.

Lemma check_max_two_returns (h : HashOrder) (cfg : config.t) (d : Draw.t) :
  returns (UCLConstraints._check_max_two_from_same_foreign_country h cfg d).
Proof.
  apply for_all_returns. intros club _. apply foreign_country_loop_returns.
Qed.

Lemma build_constraints_return (h : HashOrder) (cfg : config.t) (d : Draw.t) :
  Forall (fun c => returns (Constraint.is_satisfied c d))
         (UCLConstraints._build_constraints h cfg).
Proof.
  unfold UCLConstraints._build_constraints.
  repeat (apply Forall_cons; [first [ apply check_max_two_returns
                                    | eexists; reflexivity ] |]).
  apply Forall_nil.
Qed.

Lemma registered_names_spec (h : HashOrder) (cfg : config.t) :
  map Constraint.name (UCLConstraints._build_constraints h cfg) = registered_names.
Proof. reflexivity. Qed.

Lemma registered_hard_names_spec (h : HashOrder) (cfg : config.t) :
  map Constraint.name (UCLConstraints.get_hard_constraints (UCLConstraints.new h cfg))
  = registered_hard_names.
Proof. reflexivity. Qed.

Lemma registered_names_NoDup : NoDup registered_names.
Proof.
  unfold registered_names.
  repeat (apply NoDup_cons;
          [simpl; intros Hin;
           repeat (destruct Hin as [Hin|Hin]; [discriminate Hin|]); exact Hin |]).
  apply NoDup_nil.
Qed.

Lemma Forall_filter {A : Type} (P : A -> Prop) (f : A -> bool) (l : list A) :
  Forall P l -> Forall P (filter f l).
Proof.
  intros H. apply Forall_forall. intros x Hx. apply filter_In in Hx.
  destruct Hx as [Hx _]. revert x Hx. now apply Forall_forall.
Qed.

(** The loop visits every constraint of its list once, in order, whatever
    the earlier ones returned. *)
Lemma verify_loop_spec (d : Draw.t) (cs : list Constraint.t) :
  Forall (fun c => returns (Constraint.is_satisfied c d)) cs ->
  forall violated calls,
    UCLConstraints.verify_loop cs d violated calls
    = Ok (violated ++ map Constraint.name (filter (violated_by d) cs),
          calls ++ map Constraint.name cs).
Proof.
  induction 1 as [|c rest [b Hc] Hrest IH]; intros violated calls; simpl.
  - now rewrite !app_nil_r.
  - unfold violated_by at 1. rewrite Hc. simpl. rewrite IH.
    destruct b; simpl; now rewrite <- ?app_assoc.
Qed.

Lemma names_of_unsatisfied_spec (d : Draw.t) (cs : list Constraint.t) :
  Forall (fun c => returns (Constraint.is_satisfied c d)) cs ->
  DrawValidator.names_of_unsatisfied cs d
  = Ok (map Constraint.name (filter (violated_by d) cs)).
Proof.
  induction 1 as [|c rest [b Hc] Hrest IH]; simpl.
  - reflexivity.
  - unfold violated_by at 1. rewrite Hc, IH. simpl. now destruct b.
Qed.

Lemma violated_by_false (d : Draw.t) (c : Constraint.t) :
  returns (Constraint.is_satisfied c d) ->
  (violated_by d c = false <-> Constraint.is_satisfied c d = Ok true).
Proof.
  intros [b Hb]. unfold violated_by. rewrite Hb.
  destruct b; split; congruence.
Qed.

Lemma violated_by_true (d : Draw.t) (c : Constraint.t) :
  violated_by d c = true <-> Constraint.is_satisfied c d = Ok false.
Proof.
  unfold violated_by. destruct (Constraint.is_satisfied c d) as [[|]|e]; split; congruence.
Qed.

(** Names identify the constraints of a list whose names are distinct. *)
Lemma name_injective (cs : list Constraint.t) :
  NoDup (map Constraint.name cs) ->
  forall c c', In c cs -> In c' cs -> Constraint.name c = Constraint.name c' -> c = c'.
Proof.
  induction cs as [|x rest IH]; intros Hnd c c' Hc Hc' Hn; [contradiction|].
  simpl in Hnd. inversion Hnd as [|? ? Hnotin Hnd']; subst.
  destruct Hc as [<-|Hc], Hc' as [<-|Hc']; auto.
  - exfalso. apply Hnotin. rewrite Hn. now apply in_map.
  - exfalso. apply Hnotin. rewrite <- Hn. now apply in_map.
Qed.

Lemma in_violated_names (d : Draw.t) (cs : list Constraint.t) (c : Constraint.t) :
  NoDup (map Constraint.name cs) -> In c cs ->
  (In (Constraint.name c) (map Constraint.name (filter (violated_by d) cs))
   <-> Constraint.is_satisfied c d = Ok false).
Proof.
  intros Hnd Hc. rewrite <- violated_by_true. split.
  - intros Hin. apply in_map_iff in Hin. destruct Hin as (c' & Hn & Hc').
    apply filter_In in Hc'. destruct Hc' as [Hc' Hv].
    now rewrite <- (name_injective cs Hnd c' c Hc' Hc Hn).
  - intros Hv. apply in_map. apply filter_In. auto.
Qed.

(** C3.  On every draw, [verify_all_constraints] calls [is_satisfied] once on
    each of the eight registered rules, in registration order, and
    [verify_hard_constraints] once on each of the seven hard ones: a rule
    that fails does not keep a later one from being evaluated.  Both return;
    the list they return holds the names of the violated rules, each where
    registration put it, so a rule's name is in the list exactly when its
    check returned [False]. *)
Theorem C3_every_rule_evaluated_in_order (h : HashOrder) (cfg : config.t) (d : Draw.t) :
  let self := UCLConstraints.new h cfg in
  let all := UCLConstraints.get_all_constraints self in
  let hard := UCLConstraints.get_hard_constraints self in
  let violated := map Constraint.name (filter (violated_by d) all) in
  let hard_violated := map Constraint.name (filter (violated_by d) hard) in
  map Constraint.name all = registered_names
  /\ map Constraint.name hard = registered_hard_names
  /\ NoDup registered_names
  /\ UCLConstraints.calls_of_verify_all self d = Ok registered_names
  /\ UCLConstraints.calls_of_verify_hard self d = Ok registered_hard_names
  /\ UCLConstraints.verify_all_constraints self d = Ok (len violated =? 0, violated)
  /\ UCLConstraints.verify_hard_constraints self d
     = Ok (len hard_violated =? 0, hard_violated)
  /\ (forall c, In c all ->
        (In (Constraint.name c) violated <-> Constraint.is_satisfied c d = Ok false))
  /\ (forall c, In c hard ->
        (In (Constraint.name c) hard_violated <-> Constraint.is_satisfied c d = Ok false)).
Proof.
  intros self all hard violated hard_violated.
  pose proof (build_constraints_return h cfg d) as Hall.
  assert (Hhard : Forall (fun c => returns (Constraint.is_satisfied c d)) hard).
  { apply Forall_filter. exact Hall. }
  assert (Hnd : NoDup (map Constraint.name all)).
  { change (NoDup registered_names). apply registered_names_NoDup. }
  assert (Hndh : NoDup (map Constraint.name hard)).
  { change (NoDup registered_hard_names).
    rewrite <- (app_nil_r registered_hard_names).
    apply NoDup_remove_1 with (a := "no_consecutive_matches"%string).
    exact registered_names_NoDup. }
  repeat split.
  - apply registered_names_NoDup.
  - unfold UCLConstraints.calls_of_verify_all.
    change (UCLConstraints.constraints self) with all.
    now rewrite (verify_loop_spec d all Hall).
  - unfold UCLConstraints.calls_of_verify_hard. fold hard.
    now rewrite (verify_loop_spec d hard Hhard).
  - unfold UCLConstraints.verify_all_constraints.
    change (UCLConstraints.constraints self) with all.
    now rewrite (verify_loop_spec d all Hall).
  - unfold UCLConstraints.verify_hard_constraints. fold hard.
    now rewrite (verify_loop_spec d hard Hhard).
  - apply (in_violated_names d all c Hnd H).
  - apply (in_violated_names d all c Hnd H).
  - apply (in_violated_names d hard c Hndh H).
  - apply (in_violated_names d hard c Hndh H).
Qed.

(* ====================================================================== *)
(** * Part 11. The validator                                                *)
(* ====================================================================== *)

Lemma len_eqb_0 {A : Type} (l : list A) :
  (len l =? 0) = match l with [] => true | _ :: _ => false end.
Proof.
  destruct l; [reflexivity|]. unfold len. simpl List.length.
  apply Z.eqb_neq. lia.
Qed.

(** What [validate] returns for any validator whose rules all return: the
    structural entries, then at most one entry naming the violated hard
    rules; and at most one warning naming the violated soft rules. *)
Lemma validate_spec (h : HashOrder) (cfg : config.t) (self : DrawValidator.t) (d : Draw.t) :
  let cs := DrawValidator.constraints self in
  let hard_violated :=
    map Constraint.name (filter (violated_by d) (UCLConstraints.get_hard_constraints cs)) in
  let soft_violated :=
    map Constraint.name (filter (violated_by d) (UCLConstraints.get_soft_constraints cs)) in
  let errors :=
    DrawValidator._check_internal_consistency h cfg d
    ++ match hard_violated with
       | [] => []
       | _ :: _ => [DrawValidator.msg_hard hard_violated]
       end in
  let warnings :=
    match soft_violated with
    | [] => []
    | _ :: _ => [DrawValidator.msg_soft soft_violated]
    end in
  Forall (fun c => returns (Constraint.is_satisfied c d)) (UCLConstraints.constraints cs) ->
  DrawValidator.validate h cfg self d = Ok (len errors =? 0, errors, warnings).
Proof.
  intros cs hard_violated soft_violated errors warnings Hret.
  unfold DrawValidator.validate, UCLConstraints.verify_hard_constraints. fold cs.
  rewrite (verify_loop_spec d (UCLConstraints.get_hard_constraints cs)
             (Forall_filter _ _ _ Hret)). simpl bind.
  rewrite (names_of_unsatisfied_spec d (UCLConstraints.get_soft_constraints cs)
             (Forall_filter _ _ _ Hret)). simpl bind.
  fold hard_violated soft_violated. rewrite (len_eqb_0 hard_violated).
  subst errors warnings.
  destruct hard_violated, soft_violated; simpl; rewrite ?app_nil_r; reflexivity.
Qed.

Lemma no_violated_names (d : Draw.t) (cs : list Constraint.t) :
  Forall (fun c => returns (Constraint.is_satisfied c d)) cs ->
  (map Constraint.name (filter (violated_by d) cs) = []
   <-> forall c, In c cs -> Constraint.is_satisfied c d = Ok true).
Proof.
  intros Hret. rewrite Forall_forall in Hret. split.
  - intros Hnil c Hc. apply violated_by_false; [now apply Hret|].
    destruct (violated_by d c) eqn:E; [|reflexivity].
    assert (Hin : In (Constraint.name c) (map Constraint.name (filter (violated_by d) cs))).
    { apply in_map, filter_In. auto. }
    rewrite Hnil in Hin. contradiction.
  - intros Hall. induction cs as [|c rest IH]; [reflexivity|]. simpl.
    assert (Hc : violated_by d c = false).
    { apply violated_by_false; [apply Hret | apply Hall]; now left. }
    rewrite Hc. apply IH; intros; [apply Hret | apply Hall]; now right.
Qed.

(** C1.  [validate] returns a triple.  Its first component is true exactly
    when the structural layer reports nothing and every hard rule is
    satisfied.  The error list is the structural entries followed by at most
    one entry, built from the violated hard rules alone; the soft rules feed
    the warning list only, and no soft rule is among the hard ones. *)
Theorem C1_validate_verdict (h : HashOrder) (cfg : config.t) (d : Draw.t) :
  let self := DrawValidator.new h cfg in
  let structural := DrawValidator._check_internal_consistency h cfg d in
  let hard := UCLConstraints.get_hard_constraints (DrawValidator.constraints self) in
  let soft := UCLConstraints.get_soft_constraints (DrawValidator.constraints self) in
  let hard_violated := map Constraint.name (filter (violated_by d) hard) in
  let soft_violated := map Constraint.name (filter (violated_by d) soft) in
  exists overall_pass errors warnings,
    DrawValidator.validate h cfg self d = Ok (overall_pass, errors, warnings)
    /\ (overall_pass = true <->
        structural = [] /\ forall c, In c hard -> Constraint.is_satisfied c d = Ok true)
    /\ errors = structural ++ match hard_violated with
                              | [] => []
                              | _ :: _ => [DrawValidator.msg_hard hard_violated]
                              end
    /\ warnings = match soft_violated with
                  | [] => []
                  | _ :: _ => [DrawValidator.msg_soft soft_violated]
                  end
    /\ (warnings <> [] <->
        exists c, In c soft /\ Constraint.is_satisfied c d = Ok false)
    /\ (forall c, In c soft -> ~ In (Constraint.name c) (map Constraint.name hard)).
Proof.
  intros self structural hard soft hard_violated soft_violated.
  pose proof (build_constraints_return h cfg d) as Hret.
  pose proof (validate_spec h cfg self d Hret) as Hv. cbv zeta in Hv.
  fold structural hard soft hard_violated soft_violated in Hv.
  eexists _, _, _. split; [exact Hv|].
  assert (Hhard : hard_violated = [] <->
                  forall c, In c hard -> Constraint.is_satisfied c d = Ok true).
  { apply no_violated_names, Forall_filter, Hret. }
  assert (Hsoft : soft_violated = [] <->
                  forall c, In c soft -> Constraint.is_satisfied c d = Ok true).
  { apply no_violated_names, Forall_filter, Hret. }
  repeat split.
  - rewrite len_eqb_0 in H.
    destruct structural; [reflexivity | discriminate].
  - apply Hhard. rewrite len_eqb_0 in H.
    destruct structural; [|discriminate]. simpl in H.
    destruct hard_violated; [reflexivity | discriminate].
  - intros [Hs Hh]. rewrite Hs, (proj2 Hhard Hh). reflexivity.
  - intros Hw. destruct soft_violated as [|n rest] eqn:E; [contradiction|].
    assert (Hin : In n soft_violated) by (rewrite E; now left).
    apply in_map_iff in Hin. destruct Hin as (c & _ & Hc).
    apply filter_In in Hc. destruct Hc as [Hc Hvc].
    exists c. split; [exact Hc | now apply violated_by_true].
  - intros (c & Hc & Hf) Hw.
    destruct soft_violated eqn:E; [|discriminate].
    rewrite (proj1 Hsoft eq_refl c Hc) in Hf. discriminate.
  - intros c Hc Hin. simpl in Hc. destruct Hc as [<-|[]].
    simpl in Hin. repeat (destruct Hin as [Hin|Hin]; [discriminate Hin|]). exact Hin.
Qed.

(** C8.  On every draw, and so on every draw of well-constructed matches,
    [validate] returns instead of raising.  Each structural entry is in the
    error list; each violated hard rule is named in an entry of the error
    list; each violated soft rule is named in an entry of the warning list.
    This holds whatever the earlier layers found: all seven hard rules are
    evaluated, and every rule returns. *)
Theorem C8_validate_never_raises (h : HashOrder) (cfg : config.t) (d : Draw.t) :
  let self := DrawValidator.new h cfg in
  let hard := UCLConstraints.get_hard_constraints (DrawValidator.constraints self) in
  let soft := UCLConstraints.get_soft_constraints (DrawValidator.constraints self) in
  exists overall_pass errors warnings,
    DrawValidator.validate h cfg self d = Ok (overall_pass, errors, warnings)
    /\ (forall e, In e (DrawValidator._check_internal_consistency h cfg d) -> In e errors)
    /\ (forall c, In c hard -> Constraint.is_satisfied c d = Ok false ->
          exists names, In (DrawValidator.msg_hard names) errors
                        /\ In (Constraint.name c) names)
    /\ (forall c, In c soft -> Constraint.is_satisfied c d = Ok false ->
          exists names, In (DrawValidator.msg_soft names) warnings
                        /\ In (Constraint.name c) names)
    /\ UCLConstraints.calls_of_verify_hard (DrawValidator.constraints self) d
       = Ok registered_hard_names
    /\ (forall c, In c (UCLConstraints.get_all_constraints (DrawValidator.constraints self)) ->
          returns (Constraint.is_satisfied c d)).
Proof.
  intros self hard soft.
  pose proof (build_constraints_return h cfg d) as Hret.
  pose proof (validate_spec h cfg self d Hret) as Hv. cbv zeta in Hv.
  fold hard soft in Hv.
  eexists _, _, _. split; [exact Hv|].
  assert (Hnamed : forall cs c, In c cs -> Constraint.is_satisfied c d = Ok false ->
            In (Constraint.name c) (map Constraint.name (filter (violated_by d) cs))).
  { intros cs c Hc Hf. apply in_map, filter_In. split; [exact Hc|].
    now apply violated_by_true. }
  repeat split.
  - intros e He. apply in_or_app. now left.
  - intros c Hc Hf. pose proof (Hnamed hard c Hc Hf) as Hin.
    exists (map Constraint.name (filter (violated_by d) hard)). split; [|exact Hin].
    apply in_or_app. right.
    destruct (map Constraint.name (filter (violated_by d) hard)); [contradiction | now left].
  - intros c Hc Hf. pose proof (Hnamed soft c Hc Hf) as Hin.
    exists (map Constraint.name (filter (violated_by d) soft)). split; [|exact Hin].
    destruct (map Constraint.name (filter (violated_by d) soft)); [contradiction | now left].
  - unfold UCLConstraints.calls_of_verify_hard.
    fold hard. now rewrite (verify_loop_spec d hard (Forall_filter _ _ _ Hret)).
  - intros c Hc. revert c Hc. apply Forall_forall. exact Hret.
Qed.

(* ====================================================================== *)
(** * Part 12. The clubs of a draw                                          *)
(* ====================================================================== *)

Lemma set_add_In {A : Type} `{PyEq A} (s : list A) (x y : A) :
  In y (set_add s x) -> In y s \/ y = x.
Proof.
  unfold set_add. destruct (list_contains x s); [now left|].
  intros Hin. apply in_app_or in Hin. destruct Hin as [Hin|[<-|[]]]; auto.
Qed.

(** Every member of [get_all_clubs] is the home or the away club of a match. *)
Lemma get_all_clubs_from_matches (d : Draw.t) (club : Club.t) :
  In club (Draw.get_all_clubs d) ->
  exists m, In m (Draw.matches d)
            /\ (club = Match.club_home m \/ club = Match.club_away m).
Proof.
  unfold Draw.get_all_clubs.
  assert (G : forall ms acc,
    In club (fold_left
      (fun clubs m => set_add (set_add clubs (Match.club_home m)) (Match.club_away m))
      ms acc) ->
    In club acc \/ exists m, In m ms
      /\ (club = Match.club_home m \/ club = Match.club_away m)).
  { induction ms as [|m rest IH]; intros acc Hin; simpl in *; [now left|].
    destruct (IH _ Hin) as [Hacc|(m' & Hm' & Hc)].
    - apply set_add_In in Hacc. destruct Hacc as [Hacc | ->].
      + apply set_add_In in Hacc. destruct Hacc as [Hacc | ->]; [now left|].
        right. exists m. auto.
      + right. exists m. auto.
    - right. exists m'. auto. }
  intros Hin. destruct (G _ _ Hin) as [[]|Hex]. exact Hex.
Qed.

Lemma iter_all_clubs_In (h : HashOrder) (d : Draw.t) (club : Club.t) :
  In club (Draw.iter_all_clubs h d) <-> In club (Draw.get_all_clubs d).
Proof.
  unfold Draw.iter_all_clubs. split; intros Hin.
  - eapply Permutation_in; [apply iter_perm | exact Hin].
  - eapply Permutation_in; [apply Permutation_sym, iter_perm | exact Hin].
Qed.

(** A club that some member of the club set equals has a match. *)
Lemma club_of_draw_has_match (h : HashOrder) (d : Draw.t) (club : Club.t) :
  list_contains club (Draw.iter_all_clubs h d) = true ->
  1 <= Draw.get_number_of_matches_for_club d club.
Proof.
  intros Hc. apply list_contains_spec in Hc. destruct Hc as (c' & Hin & Heq).
  apply iter_all_clubs_In in Hin.
  destruct (get_all_clubs_from_matches d c' Hin) as (m & Hm & Hside).
  unfold Draw.get_number_of_matches_for_club, Draw.get_matches_for_club, len.
  assert (Hf : In m (filter (fun m => Match.involves_club m club) (Draw.matches d))).
  { apply filter_In. split; [exact Hm|]. unfold Match.involves_club.
    apply orb_true_iff. destruct Hside as [Hs|Hs]; rewrite Hs in Heq; auto. }
  destruct (filter _ (Draw.matches d)); [contradiction|]. simpl List.length. lia.
Qed.

Lemma flat_map_nil {A B : Type} (f : A -> list B) (l : list A) :
  flat_map f l = [] <-> forall x, In x l -> f x = [].
Proof.
  induction l as [|x rest IH]; simpl.
  - split; [intros _ y [] | reflexivity].
  - split.
    + intros Hnil. apply app_eq_nil in Hnil. destruct Hnil as [Hx Hrest].
      intros y [<-|Hy]; [exact Hx | now apply IH].
    + intros Hall. rewrite (Hall x (or_introl eq_refl)). simpl.
      apply IH. intros y Hy. apply Hall. now right.
Qed.

(* ====================================================================== *)
(** * Part 13. The two home/away checks                                     *)
(* ====================================================================== *)

(** After the counting loop, [home_count] and [away_count] hold for each id
    the number of matches whose home (away) club has that id. *)
Lemma count_matches_home_away (ms : list Match.t) : forall (c : DrawValidator.Counters) k,
  dict_get (DrawValidator.home_count (fold_left DrawValidator.count_match ms c)) k 0
  = dict_get (DrawValidator.home_count c) k 0
    + len (filter (fun m => String.eqb (Club.id (Match.club_home m)) k) ms)
  /\
  dict_get (DrawValidator.away_count (fold_left DrawValidator.count_match ms c)) k 0
  = dict_get (DrawValidator.away_count c) k 0
    + len (filter (fun m => String.eqb (Club.id (Match.club_away m)) k) ms).
Proof.
  induction ms as [|m rest IH]; intros c k; simpl fold_left.
  - unfold len. simpl. split; lia.
  - destruct (IH (DrawValidator.count_match c m) k) as [IHh IHa].
    rewrite IHh, IHa. unfold DrawValidator.count_match.
    cbn [DrawValidator.home_count DrawValidator.away_count].
    rewrite !dict_get_set. cbn [filter]. cbn [py_eq PyEq_str].
    split.
    + destruct (String.eqb_spec (Club.id (Match.club_home m)) k) as [Hk|_];
        [rewrite Hk|]; unfold len; cbn [List.length]; lia.
    + destruct (String.eqb_spec (Club.id (Match.club_away m)) k) as [Hk|_];
        [rewrite Hk|]; unfold len; cbn [List.length]; lia.
Qed.

Lemma home_count_is_home_matches (d : Draw.t) (club : Club.t) :
  dict_get (DrawValidator.home_count (DrawValidator.count_matches d)) (Club.id club) 0
  = Draw.get_number_of_home_matches_for_club d club.
Proof.
  unfold DrawValidator.count_matches.
  rewrite (proj1 (count_matches_home_away (Draw.matches d) DrawValidator.empty_counters _)).
  reflexivity.
Qed.

Lemma away_count_is_away_matches (d : Draw.t) (club : Club.t) :
  dict_get (DrawValidator.away_count (DrawValidator.count_matches d)) (Club.id club) 0
  = Draw.get_number_of_away_matches_for_club d club.
Proof.
  unfold DrawValidator.count_matches.
  rewrite (proj2 (count_matches_home_away (Draw.matches d) DrawValidator.empty_counters _)).
  reflexivity.
Qed.

(** C4.  On every draw the structural layer's home/away count check, step
    (d) of [_check_internal_consistency], reports an entry exactly when the
    hard rule [home_away_balance] is violated. *)
Theorem C4_structural_home_away_agrees_with_rule (h : HashOrder) (cfg : config.t)
    (d : Draw.t) :
  DrawValidator.check_home_away_counts h cfg d <> []
  <-> UCLConstraints._check_home_away_balance h cfg d = false.
Proof.
  rewrite <- not_true_iff_false.
  apply not_iff_compat.
  unfold DrawValidator.check_home_away_counts, UCLConstraints._check_home_away_balance.
  rewrite flat_map_nil, forallb_forall.
  split; intros Hall club Hin; specialize (Hall club Hin);
    rewrite home_count_is_home_matches, away_count_is_away_matches in *.
  - apply app_eq_nil in Hall. destruct Hall as [Hh Ha].
    destruct (_ =? config.HOME_MATCHES_PER_CLUB cfg); [|discriminate].
    destruct (_ =? config.AWAY_MATCHES_PER_CLUB cfg); [reflexivity | discriminate].
  - apply andb_true_iff in Hall. destruct Hall as [Hh Ha].
    now rewrite Hh, Ha.
Qed.

(* ====================================================================== *)
(** * Part 14. Clubs without a match                                        *)
(* ====================================================================== *)

(** C2, as stated, fails.  [league12] has 48 matches and [PSG] plays in none
    of them, yet rules 2 to 5 all hold on it: the hard rules report
    [total_matches] alone, and with [TOTAL_CLUBS = 12] the draw passes
    [validate] without any entry. *)
Lemma C2_counterexample :
  Draw.matches Examples.league12 <> []
  /\ Draw.get_number_of_matches_for_club Examples.league12 Examples.PSG = 0
  /\ UCLConstraints._check_matches_per_club
       insertion_hash_order config.default Examples.league12 = true
  /\ UCLConstraints._check_home_away_balance
       insertion_hash_order config.default Examples.league12 = true
  /\ UCLConstraints._check_opponents_per_chapeau
       insertion_hash_order config.default Examples.league12 = true
  /\ UCLConstraints._check_chapeau_home_away_distribution
       insertion_hash_order config.default Examples.league12 = true
  /\ UCLConstraints.verify_hard_constraints
       (UCLConstraints.new insertion_hash_order config.default) Examples.league12
     = Ok (false, ["total_matches"%string])
  /\ DrawValidator.validate insertion_hash_order Examples.config12
       (DrawValidator.new insertion_hash_order Examples.config12) Examples.league12
     = Ok (true, [], []).
Proof.
  split; [discriminate|].
  repeat split; vm_compute; reflexivity.
Qed.

(** C2, amended.  Rules 2 to 5 range over the clubs that [get_all_clubs]
    collects from the matches of the draw.  Each of these clubs plays in at
    least one match; a club that plays in none is not among them, so the
    rules do not examine it; and each rule holds exactly when its test holds
    for every collected club. *)
Theorem C2_rules_examine_clubs_with_matches (h : HashOrder) (cfg : config.t) (d : Draw.t) :
  (forall club, In club (Draw.iter_all_clubs h d) ->
     1 <= Draw.get_number_of_matches_for_club d club)
  /\ (forall club, Draw.get_number_of_matches_for_club d club = 0 ->
        list_contains club (Draw.iter_all_clubs h d) = false)
  /\ (UCLConstraints._check_matches_per_club h cfg d = true <->
      forall club, In club (Draw.iter_all_clubs h d) ->
        Draw.get_number_of_matches_for_club d club = config.MATCHES_PER_CLUB cfg)
  /\ (UCLConstraints._check_home_away_balance h cfg d = true <->
      forall club, In club (Draw.iter_all_clubs h d) ->
        Draw.get_number_of_home_matches_for_club d club = config.HOME_MATCHES_PER_CLUB cfg
        /\ Draw.get_number_of_away_matches_for_club d club = config.AWAY_MATCHES_PER_CLUB cfg)
  /\ (UCLConstraints._check_opponents_per_chapeau h cfg d = true <->
      forall club, In club (Draw.iter_all_clubs h d) ->
      forall chapeau expected_count,
        In (chapeau, expected_count) (config.OPPONENTS_PER_CHAPEAU cfg) ->
        dict_get (UCLConstraints.opponents_by_chapeau h d club) chapeau 0 = expected_count)
  /\ (UCLConstraints._check_chapeau_home_away_distribution h cfg d = true <->
      forall club, In club (Draw.iter_all_clubs h d) ->
      forall chapeau expected_home expected_away,
        In (chapeau, (expected_home, expected_away)) (config.DISTRIBUTION_CHAPEAUX cfg) ->
        len (filter (fun m => Chapeau_value (Club.chapeau (Match.club_away m)) =? chapeau)
                    (Draw.get_home_matches_for_club d club)) = expected_home
        /\ len (filter (fun m => Chapeau_value (Club.chapeau (Match.club_home m)) =? chapeau)
                       (Draw.get_away_matches_for_club d club)) = expected_away).
Proof.
  split; [|split; [|split; [|split; [|split]]]].
  - intros club Hin. apply (club_of_draw_has_match h).
    apply list_contains_spec. exists club. split; [exact Hin | apply py_eq_refl].
  - intros club Hzero.
    destruct (list_contains club (Draw.iter_all_clubs h d)) eqn:E; [|reflexivity].
    pose proof (club_of_draw_has_match h d club E). lia.
  - unfold UCLConstraints._check_matches_per_club. rewrite forallb_forall.
    split; intros Hall club Hin; specialize (Hall club Hin); now apply Z.eqb_eq.
  - unfold UCLConstraints._check_home_away_balance. rewrite forallb_forall.
    split; intros Hall club Hin; specialize (Hall club Hin); cbv zeta in *.
    + apply andb_true_iff in Hall. now rewrite !Z.eqb_eq in Hall.
    + apply andb_true_iff. now rewrite !Z.eqb_eq.
  - unfold UCLConstraints._check_opponents_per_chapeau. rewrite forallb_forall.
    split; intros Hall club Hin; specialize (Hall club Hin).
    + intros chapeau expected_count Hcfg. rewrite forallb_forall in Hall.
      specialize (Hall _ Hcfg). now apply Z.eqb_eq in Hall.
    + apply forallb_forall. intros [chapeau expected_count] Hcfg.
      apply Z.eqb_eq. now apply Hall.
  - unfold UCLConstraints._check_chapeau_home_away_distribution. rewrite forallb_forall.
    split; intros Hall club Hin; specialize (Hall club Hin).
    + intros chapeau expected_home expected_away Hcfg. rewrite forallb_forall in Hall.
      specialize (Hall _ Hcfg). cbv beta iota zeta in Hall.
      apply andb_true_iff in Hall. now rewrite !Z.eqb_eq in Hall.
    + apply forallb_forall. intros [chapeau [expected_home expected_away]] Hcfg.
      apply andb_true_iff. rewrite !Z.eqb_eq. now apply Hall.
Qed.

(* ====================================================================== *)
(** * Part 15. Opponents and the foreign-country rule                       *)
(* ====================================================================== *)

Section SortedFacts.
Context {A K : Type} (key : A -> K) (le : K -> K -> bool).

Lemma insert_sorted_perm (x : A) (l : list A) :
  Permutation (insert_sorted key le x l) (x :: l).
Proof.
  induction l as [|y r IH]; simpl.
  - apply Permutation_refl.
  - destruct (le (key x) (key y)).
    + apply Permutation_refl.
    + eapply Permutation_trans; [apply perm_skip, IH | apply perm_swap].
Qed.

Lemma sorted_perm (l : list A) : Permutation (sorted key le l) l.
Proof.
  induction l as [|x r IH]; simpl.
  - apply perm_nil.
  - eapply Permutation_trans; [apply insert_sorted_perm | apply perm_skip, IH].
Qed.

End SortedFacts.

Lemma list_contains_false_id (x : Club.t) (s : list Club.t) :
  list_contains x s = false -> ~ In (Club.id x) (map Club.id s).
Proof.
  intros Hc Hin. apply in_map_iff in Hin. destruct Hin as (y & Hid & Hy).
  assert (Ht : list_contains x s = true).
  { apply list_contains_spec. exists y. split; [exact Hy|].
    simpl. unfold Club.eq. rewrite Hid. apply String.eqb_refl. }
  congruence.
Qed.

Lemma set_add_NoDup_id (s : list Club.t) (x : Club.t) :
  NoDup (map Club.id s) -> NoDup (map Club.id (set_add s x)).
Proof.
  intros Hnd. unfold set_add. destruct (list_contains x s) eqn:E; [exact Hnd|].
  rewrite map_app. simpl.
  apply NoDup_app; [exact Hnd | repeat constructor; intros [] |].
  intros i Hi [<-|[]]. revert Hi. now apply list_contains_false_id.
Qed.

(** The opponents of a club are pairwise distinct. *)
Lemma opponents_distinct (h : HashOrder) (d : Draw.t) (club : Club.t) :
  NoDup (map Club.id (Draw.get_opponents_for_club h d club)).
Proof.
  unfold Draw.get_opponents_for_club.
  apply (Permutation_NoDup (l := map Club.id (Draw.opponents_set d club))).
  - apply Permutation_map. apply Permutation_sym.
    eapply Permutation_trans; [apply sorted_perm | apply iter_perm].
  - unfold Draw.opponents_set.
    generalize (Draw.get_matches_for_club d club).
    assert (G : forall ms acc, NoDup (map Club.id acc) ->
      NoDup (map Club.id (fold_left
        (fun opponents m =>
           match Match.opponent_of m club with
           | Some opponent => set_add opponents opponent
           | None => opponents
           end) ms acc))).
    { induction ms as [|m rest IH]; intros acc Hacc; simpl; [exact Hacc|].
      apply IH. destruct (Match.opponent_of m club); [now apply set_add_NoDup_id | exact Hacc]. }
    intros ms. apply G. constructor.
Qed.

Lemma for_all_true {A : Type} (body : A -> result bool) (l : list A) :
  for_all body l = Ok true <-> forall x, In x l -> body x = Ok true.
Proof.
  induction l as [|x rest IH]; simpl.
  - split; [intros _ y [] | reflexivity].
  - split.
    + intros Hf y Hy. destruct (body x) as [[|]|e] eqn:Hx; simpl in Hf; try discriminate.
      destruct Hy as [<-|Hy]; [exact Hx | now apply IH].
    + intros Hall. rewrite (Hall x (or_introl eq_refl)). simpl.
      apply IH. intros y Hy. apply Hall. now right.
Qed.

Lemma count_from_country_cons (country : string) (opp : Club.t) (rest : list Club.t) :
  count_from_country country (opp :: rest)
  = (if String.eqb (Club.pays opp) country then 1 else 0) + count_from_country country rest.
Proof.
  unfold count_from_country, len. cbn [filter].
  destruct (String.eqb (Club.pays opp) country); cbn [List.length]; lia.
Qed.

Lemma count_from_country_nonneg (country : string) (clubs : list Club.t) :
  0 <= count_from_country country clubs.
Proof. unfold count_from_country, len. lia. Qed.

Lemma count_from_country_none (country : string) (clubs : list Club.t) :
  (forall opp, In opp clubs -> Club.pays opp <> country) ->
  count_from_country country clubs = 0.
Proof.
  induction clubs as [|o r IH]; intros Hnone; [reflexivity|].
  rewrite count_from_country_cons, IH by (intros; apply Hnone; now right).
  destruct (String.eqb_spec (Club.pays o) country) as [He|_]; [|reflexivity].
  now destruct (Hnone o (or_introl eq_refl)).
Qed.

(** Either some club of the list comes from [country] or none does. *)
Lemma from_country_dec (country : string) (clubs : list Club.t) :
  (exists opp, In opp clubs /\ Club.pays opp = country)
  \/ (forall opp, In opp clubs -> Club.pays opp <> country).
Proof.
  induction clubs as [|o r [(x & Hx & Hp)|IH]].
  - right. intros opp [].
  - left. exists x. split; [now right | exact Hp].
  - destruct (String.eqb_spec (Club.pays o) country) as [He|Hne].
    + left. exists o. split; [now left | exact He].
    + right. intros opp [<-|Ho]; [exact Hne | now apply IH].
Qed.

(** The inner loop of rule 7, from any state of [counts]: it runs to its end
    exactly when, for each foreign country that still has an opponent to
    come, the tally so far plus the opponents to come stays within
    [max_per_country]. *)
Lemma foreign_country_loop_spec (max_per_country : Z) (club : Club.t)
    (opponents : list Club.t) : forall counts,
  UCLConstraints.foreign_country_loop max_per_country club opponents counts = Ok true
  <-> forall country, country <> Club.pays club ->
        (exists opp, In opp opponents /\ Club.pays opp = country) ->
        dict_get counts country 0 + count_from_country country opponents
        <= max_per_country.
Proof.
  induction opponents as [|opp rest IH]; intros counts;
    cbn [UCLConstraints.foreign_country_loop].
  - split; [intros _ country _ (o & [] & _) | reflexivity].
  - change (py_eq (Club.pays opp) (Club.pays club))
      with (String.eqb (Club.pays opp) (Club.pays club)).
    destruct (String.eqb_spec (Club.pays opp) (Club.pays club)) as [Hown|Hforeign].
    + rewrite IH. split; intros Hall country Hc Hex.
      * rewrite count_from_country_cons.
        destruct (String.eqb_spec (Club.pays opp) country) as [He|_]; [congruence|].
        apply Hall; [exact Hc|]. destruct Hex as (o & [<-|Ho] & Hp); [congruence|].
        exists o. auto.
      * assert (Hex' : exists o, In o (opp :: rest) /\ Club.pays o = country).
        { destruct Hex as (o & Ho & Hp). exists o. split; [now right | exact Hp]. }
        specialize (Hall country Hc Hex'). rewrite count_from_country_cons in Hall.
        destruct (String.eqb_spec (Club.pays opp) country) as [He|_]; [congruence|].
        exact Hall.
    + rewrite dict_getitem_set. cbn [bind].
      destruct (Z.gtb_spec (dict_get counts (Club.pays opp) 0 + 1) max_per_country)
        as [Hgt|Hle].
      * split; [discriminate|]. intros Hall. exfalso.
        specialize (Hall (Club.pays opp) Hforeign
                         (ex_intro _ opp (conj (or_introl eq_refl) eq_refl))).
        rewrite count_from_country_cons, String.eqb_refl in Hall.
        pose proof (count_from_country_nonneg (Club.pays opp) rest). lia.
      * rewrite IH. split; intros Hall country Hc Hex.
        -- rewrite count_from_country_cons.
           destruct (from_country_dec country rest) as [Hsome|Hnone].
           ++ specialize (Hall country Hc Hsome).
              rewrite dict_get_set in Hall. cbn [py_eq PyEq_str] in Hall.
              destruct (String.eqb_spec (Club.pays opp) country) as [He|_];
                [rewrite He in *|]; lia.
           ++ rewrite (count_from_country_none country rest Hnone).
              destruct Hex as (o & [<-|Ho] & Hp); [|now destruct (Hnone o Ho)].
              rewrite Hp, String.eqb_refl. rewrite Hp in Hle. lia.
        -- assert (Hex' : exists o, In o (opp :: rest) /\ Club.pays o = country).
           { destruct Hex as (o & Ho & Hp). exists o. split; [now right | exact Hp]. }
           specialize (Hall country Hc Hex'). rewrite count_from_country_cons in Hall.
           rewrite dict_get_set. cbn [py_eq PyEq_str].
           destruct (String.eqb_spec (Club.pays opp) country) as [He|_];
             [rewrite He in *|]; lia.
Qed.


(* ====================================================================== *)
(** * Part 16. The streak rule                                              *)
(* ====================================================================== *)

(** ** Sorting by round *)

Lemma insert_sorted_by_round (x : Match.t) (l : list Match.t) :
  Sorted (fun a b => Match.journee a <= Match.journee b) l ->
  Sorted (fun a b => Match.journee a <= Match.journee b)
         (insert_sorted Match.journee Z.leb x l).
Proof.
  induction 1 as [|y r Hs IH Hhd]; simpl.
  - repeat constructor.
  - destruct (Z.leb_spec (Match.journee x) (Match.journee y)) as [Hle|Hgt].
    + repeat constructor; assumption.
    + constructor; [exact IH|].
      destruct r as [|z r']; simpl.
      * constructor. lia.
      * inversion Hhd; subst.
        destruct (Z.leb_spec (Match.journee x) (Match.journee z)); constructor; lia.
Qed.

Lemma sorted_by_round (l : list Match.t) :
  Sorted (fun a b => Match.journee a <= Match.journee b) (sorted Match.journee Z.leb l).
Proof.
  induction l as [|x r IH]; simpl; [constructor | now apply insert_sorted_by_round].
Qed.

(** ** Runs *)

Lemma repeat_shift {A : Type} (v : A) (n : nat) (s : list A) :
  repeat v n ++ v :: s = v :: repeat v n ++ s.
Proof.
  induction n as [|n IH]; simpl; [reflexivity | now rewrite IH].
Qed.

Lemma run_length (v : string) (n : Z) (s : list string) :
  has_run_longer_than v n s -> n < Z.of_nat (List.length s).
Proof.
  intros (k & before & after & Hk & ->).
  rewrite !length_app, repeat_length. lia.
Qed.

Lemma run_at_head (v : string) (n : Z) (k : nat) (s : list string) :
  n < Z.of_nat k -> has_run_longer_than v n (repeat v k ++ s).
Proof.
  intros Hk. exists k, [], s. split; [exact Hk | reflexivity].
Qed.

Lemma run_cons (v w : string) (n : Z) (s : list string) :
  has_run_longer_than v n s -> has_run_longer_than v n (w :: s).
Proof.
  intros (k & before & after & Hk & ->). exists k, (w :: before), after. auto.
Qed.

Lemma run_app (v : string) (n : Z) (p s : list string) :
  has_run_longer_than v n s -> has_run_longer_than v n (p ++ s).
Proof.
  induction p as [|w p IH]; intros Hr; simpl; [exact Hr | apply run_cons, IH, Hr].
Qed.

(** A run of [v] does not start on another venue. *)
Lemma run_after_other (v w : string) (n : Z) (s : list string) :
  w <> v -> 0 <= n ->
  has_run_longer_than v n (w :: s) -> has_run_longer_than v n s.
Proof.
  intros Hwv Hn (k & before & after & Hk & He).
  destruct before as [|x before']; simpl in He.
  - destruct k as [|k']; [lia|]. simpl in He. congruence.
  - injection He as _ He. exists k, before', after. auto.
Qed.

Lemma repeat_prefix_le (v w : string) (a : nat) (s : list string) : forall k after,
  w <> v -> repeat v k ++ after = repeat v a ++ w :: s -> (k <= a)%nat.
Proof.
  induction a as [|a IH]; intros k after Hwv He; simpl in He.
  - destruct k as [|k']; [lia|]. simpl in He. congruence.
  - destruct k as [|k']; [lia|]. simpl in He. injection He as He.
    apply le_n_S. eapply IH; eauto.
Qed.

(** A run of [v] longer than [n] does not fit in [a <= n] copies of [v]
    closed by another venue: it lies after them. *)
Lemma run_after_short_prefix (v w : string) (n : Z) (s : list string) : forall a,
  w <> v -> Z.of_nat a <= n ->
  has_run_longer_than v n (repeat v a ++ w :: s) -> has_run_longer_than v n s.
Proof.
  induction a as [|a IH]; intros Hwv Ha Hr.
  - simpl in Hr. apply (run_after_other v w); [exact Hwv | lia | exact Hr].
  - destruct Hr as (k & before & after & Hk & He).
    destruct before as [|x before']; simpl in He.
    + symmetry in He. change (v :: repeat v a ++ w :: s)
        with (repeat v (S a) ++ w :: s) in He.
      pose proof (repeat_prefix_le v w (S a) s k after Hwv He). lia.
    + injection He as _ He. apply IH; [exact Hwv | lia |].
      exists k, before', after. auto.
Qed.

(** ** The loop *)

Lemma gtb_0_false (m : Z) : 0 <= m -> (0 >? m) = false.
Proof.
  intros Hm. destruct (Z.gtb_spec 0 m); [lia | reflexivity].
Qed.

Lemma streak_loop_spec (max_home max_away : Z) (Hh : 0 <= max_home) (Ha : 0 <= max_away)
    (sequence : list string) :
  Forall (fun venue => venue = "H"%string \/ venue = "A"%string) sequence ->
  (forall a : nat, Z.of_nat a <= max_home ->
     (UCLConstraints.streak_loop max_home max_away sequence (Z.of_nat a) 0 = true
      <-> ~ has_run_longer_than "H" max_home (repeat "H"%string a ++ sequence)
          /\ ~ has_run_longer_than "A" max_away sequence))
  /\
  (forall b : nat, Z.of_nat b <= max_away ->
     (UCLConstraints.streak_loop max_home max_away sequence 0 (Z.of_nat b) = true
      <-> ~ has_run_longer_than "H" max_home sequence
          /\ ~ has_run_longer_than "A" max_away (repeat "A"%string b ++ sequence))).
Proof.
  assert (HA : "H"%string <> "A"%string) by discriminate.
  assert (AH : "A"%string <> "H"%string) by discriminate.
  induction 1 as [|x r Hx Hr [IH1 IH2]].
  - split; intros n Hn; simpl; rewrite app_nil_r;
      (split; [intros _ | reflexivity]);
      split; intros Hrun; apply run_length in Hrun;
      rewrite ?repeat_length in Hrun; simpl in Hrun; lia.
  - split; intros n Hn; cbn [UCLConstraints.streak_loop];
      destruct Hx as [-> | ->]; cbn [String.eqb Ascii.eqb Bool.eqb andb];
      cbv beta iota.
    + (* home after [n] home matches *)
      rewrite (gtb_0_false max_away Ha), orb_false_r.
      rewrite repeat_shift.
      change ("H"%string :: repeat "H"%string n ++ r) with (repeat "H"%string (S n) ++ r).
      destruct (Z.gtb_spec (Z.of_nat n + 1) max_home) as [Hgt|Hle].
      * split; [discriminate|]. intros [Hno _]. exfalso. apply Hno.
        apply run_at_head. lia.
      * replace (Z.of_nat n + 1) with (Z.of_nat (S n)) by lia.
        rewrite IH1 by lia. split; intros [H1 H2]; (split; [exact H1|]).
        -- intros Hrun. apply H2. now apply (run_after_other "A" "H") in Hrun.
        -- intros Hrun. apply H2. now apply run_cons.
    + (* away after [n] home matches *)
      rewrite (gtb_0_false max_home Hh), orb_false_l.
      destruct (Z.gtb_spec (0 + 1) max_away) as [Hgt|Hle].
      * split; [discriminate|]. intros [_ Hno]. exfalso. apply Hno.
        apply (run_at_head "A" max_away 1 r). lia.
      * change (0 + 1) with (Z.of_nat 1). rewrite IH2 by (simpl; lia).
        split; intros [H1 H2]; (split; [|exact H2]).
        -- intros Hrun. apply H1.
           now apply (run_after_short_prefix "H" "A" max_home r n) in Hrun.
        -- intros Hrun. apply H1. now apply run_app, run_cons.
    + (* home after [n] away matches *)
      rewrite (gtb_0_false max_away Ha), orb_false_r.
      destruct (Z.gtb_spec (0 + 1) max_home) as [Hgt|Hle].
      * split; [discriminate|]. intros [Hno _]. exfalso. apply Hno.
        apply (run_at_head "H" max_home 1 r). lia.
      * change (0 + 1) with (Z.of_nat 1). rewrite IH1 by (simpl; lia).
        split; intros [H1 H2]; (split; [exact H1|]).
        -- intros Hrun. apply H2.
           now apply (run_after_short_prefix "A" "H" max_away r n) in Hrun.
        -- intros Hrun. apply H2. now apply run_app, run_cons.
    + (* away after [n] away matches *)
      rewrite (gtb_0_false max_home Hh), orb_false_l.
      rewrite repeat_shift.
      change ("A"%string :: repeat "A"%string n ++ r) with (repeat "A"%string (S n) ++ r).
      destruct (Z.gtb_spec (Z.of_nat n + 1) max_away) as [Hgt|Hle].
      * split; [discriminate|]. intros [_ Hno]. exfalso. apply Hno.
        apply run_at_head. lia.
      * replace (Z.of_nat n + 1) with (Z.of_nat (S n)) by lia.
        rewrite IH2 by lia. split; intros [H1 H2]; (split; [|exact H2]).
        -- intros Hrun. apply H1. now apply (run_after_other "H" "A") in Hrun.
        -- intros Hrun. apply H1. now apply run_cons.
Qed.

(** With a negative maximum the loop stops on the first match, and the empty
    run is already too long. *)
Lemma streak_loop_negative (max_home max_away : Z) (sequence : list string) :
  max_home < 0 \/ max_away < 0 -> sequence <> [] ->
  UCLConstraints.streak_loop max_home max_away sequence 0 0 = false
  /\ (has_run_longer_than "H" max_home sequence
      \/ has_run_longer_than "A" max_away sequence).
Proof.
  intros Hneg Hne. destruct sequence as [|x r]; [contradiction|]. split.
  - cbn [UCLConstraints.streak_loop].
    destruct (String.eqb x "H"); cbv beta iota;
      destruct (Z.gtb_spec (0 + 1) max_home), (Z.gtb_spec 0 max_away),
               (Z.gtb_spec 0 max_home), (Z.gtb_spec (0 + 1) max_away);
      try reflexivity; lia.
  - destruct Hneg as [Hm|Hm]; [left | right];
      exists O, [], (x :: r); (split; [simpl; lia | reflexivity]).
Qed.

Lemma streak_loop_iff (max_home max_away : Z) (sequence : list string) :
  Forall (fun venue => venue = "H"%string \/ venue = "A"%string) sequence ->
  sequence <> [] \/ (0 <= max_home /\ 0 <= max_away) ->
  (UCLConstraints.streak_loop max_home max_away sequence 0 0 = true
   <-> ~ has_run_longer_than "H" max_home sequence
       /\ ~ has_run_longer_than "A" max_away sequence).
Proof.
  intros Hseq Hcase.
  destruct (Z.le_gt_cases 0 max_home) as [Hh|Hh], (Z.le_gt_cases 0 max_away) as [Ha|Ha].
  - exact (proj1 (streak_loop_spec max_home max_away Hh Ha sequence Hseq) O Hh).
  - destruct Hcase as [Hne|[_ H0]]; [|lia].
    destruct (streak_loop_negative max_home max_away sequence (or_intror Ha) Hne)
      as [Hf Hrun].
    rewrite Hf. split; [discriminate | intros [H1 H2]; destruct Hrun; contradiction].
  - destruct Hcase as [Hne|[H0 _]]; [|lia].
    destruct (streak_loop_negative max_home max_away sequence (or_introl Hh) Hne)
      as [Hf Hrun].
    rewrite Hf. split; [discriminate | intros [H1 H2]; destruct Hrun; contradiction].
  - destruct Hcase as [Hne|[H0 _]]; [|lia].
    destruct (streak_loop_negative max_home max_away sequence (or_introl Hh) Hne)
      as [Hf Hrun].
    rewrite Hf. split; [discriminate | intros [H1 H2]; destruct Hrun; contradiction].
Qed.

Lemma venue_sequence_venues (d : Draw.t) (club : Club.t) :
  Forall (fun venue => venue = "H"%string \/ venue = "A"%string)
         (UCLConstraints.venue_sequence d club).
Proof.
  unfold UCLConstraints.venue_sequence. apply Forall_forall. intros v Hv.
  apply in_map_iff in Hv. destruct Hv as (m & <- & _).
  destruct (py_eq (Match.club_home m) club); auto.
Qed.

Lemma venue_sequence_nonempty (h : HashOrder) (d : Draw.t) (club : Club.t) :
  In club (Draw.iter_all_clubs h d) -> UCLConstraints.venue_sequence d club <> [].
Proof.
  intros Hin Hnil.
  assert (Hc : list_contains club (Draw.iter_all_clubs h d) = true).
  { apply list_contains_spec. exists club. split; [exact Hin | apply py_eq_refl]. }
  pose proof (club_of_draw_has_match h d club Hc) as Hone.
  unfold Draw.get_number_of_matches_for_club, len in Hone.
  apply (f_equal (@List.length string)) in Hnil.
  unfold UCLConstraints.venue_sequence in Hnil. rewrite length_map in Hnil.
  rewrite (Permutation_length (sorted_perm Match.journee Z.leb _)) in Hnil.
  simpl in Hnil. lia.
Qed.

(* ====================================================================== *)
(** * Part 17. The validator on concrete draws                              *)
(* ====================================================================== *)

(** A draw that meets every rule passes without an entry. *)
Example validate_league12 :
  DrawValidator.validate insertion_hash_order Examples.config12
    (DrawValidator.new insertion_hash_order Examples.config12) Examples.league12
  = Ok (true, [], []).
Proof. vm_compute. reflexivity. Qed.

(** A streak of three leaves the verdict as it is and adds a warning. *)
Example validate_league12_streaky :
  DrawValidator.validate insertion_hash_order Examples.config12
    (DrawValidator.new insertion_hash_order Examples.config12) Examples.league12_streaky
  = Ok (true, [], ["Soft constraints not satisfied: no_consecutive_matches"%string]).
Proof. vm_compute. reflexivity. Qed.

(** Two clubs of one country that meet are reported by rule 6. *)
Example same_country_is_reported :
  exists violated,
    UCLConstraints.verify_hard_constraints
      (UCLConstraints.new insertion_hash_order config.default) Examples.small_draw
    = Ok (false, violated)
    /\ In "no_same_country_opponents"%string violated
    /\ ~ In "max_two_from_same_foreign_country"%string violated.
Proof.
  eexists. split; [vm_compute; reflexivity|]. split.
  - simpl. tauto.
  - simpl. intros Hin.
    repeat (destruct Hin as [Hin|Hin]; [discriminate Hin|]). exact Hin.
Qed.

(** The structural layer on a draw of five matches: the entries come in the
    order of the checks. *)
Example structural_entries_small_draw :
  firstn 3 (DrawValidator._check_internal_consistency insertion_hash_order config.default
              Examples.small_draw)
  = [ "Total de matchs 5 != attendu 144"%string;
      "Club PSG a 0 match(s) à la J5 (attendu: 1)"%string;
      "Club PSG a 0 match(s) à la J6 (attendu: 1)"%string ]
  /\ In "Paire jouée plusieurs fois: BAY vs PSG sur journées [3, 4]"%string
        (DrawValidator._check_internal_consistency insertion_hash_order config.default
           Examples.small_draw)
  /\ In "Club PSG: 3 domicile != 4"%string
        (DrawValidator._check_internal_consistency insertion_hash_order config.default
           Examples.small_draw).
Proof.
  split; [vm_compute; reflexivity|].
  split; vm_compute; tauto.
Qed.

(* ====================================================================== *)
(** * Part 18. Construction and queries of the entity model                 *)
(* ====================================================================== *)

(** [Chapeau.from_int] returns the member whose value is the integer, for 1
    to 4, and raises for every other integer; [value] is its inverse. *)
Theorem Chapeau_from_int_roundtrip :
  (forall c, Chapeau_from_int (Chapeau_value c) = Ok c)
  /\ (forall n c, Chapeau_from_int n = Ok c <-> Chapeau_value c = n)
  /\ (forall n, (n < 1 \/ 4 < n) <->
        Chapeau_from_int n
        = Raise (ValueError ("Chapeau invalide: " ++ str_int n
                             ++ ". Doit être entre 1 et 4.")%string)).
Proof.
  split; [|split].
  - intros []; reflexivity.
  - intros n c. unfold Chapeau_from_int.
    destruct (Z.eqb_spec n 1); [subst; destruct c; split; (discriminate || reflexivity || congruence)|].
    destruct (Z.eqb_spec n 2); [subst; destruct c; split; (discriminate || reflexivity || congruence)|].
    destruct (Z.eqb_spec n 3); [subst; destruct c; split; (discriminate || reflexivity || congruence)|].
    destruct (Z.eqb_spec n 4); [subst; destruct c; split; (discriminate || reflexivity || congruence)|].
    split; [discriminate|]. destruct c; simpl; intros; lia.
  - intros n. unfold Chapeau_from_int.
    destruct (Z.eqb_spec n 1); [split; [lia | discriminate]|].
    destruct (Z.eqb_spec n 2); [split; [lia | discriminate]|].
    destruct (Z.eqb_spec n 3); [split; [lia | discriminate]|].
    destruct (Z.eqb_spec n 4); [split; [lia | discriminate]|].
    split; [reflexivity | lia].
Qed.

(** The constructor of [Match] accepts exactly the pairs of clubs with
    different ids on a round from 1 to 8.  The self-match test comes first:
    two clubs with one id raise the self-match error whatever the round. *)
Theorem Match_new_accepts (home away : Club.t) (j : Z) :
  (Match.new home away j = Ok (Match.make home away j)
   <-> Club.id home <> Club.id away /\ 1 <= j <= 8)
  /\ (Club.id home = Club.id away ->
      Match.new home away j
      = Raise (ValueError ("Un club ne peut pas jouer contre lui-même: "
                           ++ Club.str home)%string))
  /\ (Club.id home <> Club.id away -> j < 1 \/ 8 < j ->
      Match.new home away j
      = Raise (ValueError ("La journée doit être entre 1 et 8. Reçu: "
                           ++ str_int j)%string)).
Proof.
  unfold Match.new, Match.post_init.
  cbn [Match.club_home Match.club_away Match.journee].
  change (py_eq home away) with (String.eqb (Club.id home) (Club.id away)).
  destruct (String.eqb_spec (Club.id home) (Club.id away)) as [He|Hne].
  - split; [split; [discriminate | intros [H _]; contradiction]|].
    split; [reflexivity | contradiction].
  - destruct (Z.ltb_spec j 1) as [Hlt|Hge]; cbn [orb bind].
    + split; [split; [discriminate | lia]|]. split; [contradiction | reflexivity].
    + destruct (Z.gtb_spec j 8) as [Hgt|Hle]; cbn [bind].
      * split; [split; [discriminate | lia]|]. split; [contradiction | reflexivity].
      * split; [split; [intros _; split; [exact Hne | lia] | reflexivity]|].
        split; [contradiction | intros _ [H|H]; lia].
Qed.

(** [get_venue_for_club], [opponent_of] and [involves_club] agree on who
    takes part in a match: the venue query raises exactly when the club is
    not involved, which is exactly when [opponent_of] returns [None]; the
    home side is tested first. *)
Theorem venue_and_opponent_agree (m : Match.t) (club : Club.t) :
  (Match.get_venue_for_club m club = Ok DOMICILE
   <-> Club.id club = Club.id (Match.club_home m))
  /\ (Match.get_venue_for_club m club = Ok EXTERIEUR
      <-> Club.id club <> Club.id (Match.club_home m)
          /\ Club.id club = Club.id (Match.club_away m))
  /\ (Match.involves_club m club = false
      <-> Match.get_venue_for_club m club
          = Raise (ValueError ("Le club " ++ Club.id club ++ " ne participe pas au match "
                               ++ Match.vs_string m)%string))
  /\ (Match.involves_club m club = false <-> Match.opponent_of m club = None)
  /\ (Match.get_venue_for_club m club = Ok DOMICILE ->
      Match.opponent_of m club = Some (Match.club_away m))
  /\ (Match.get_venue_for_club m club = Ok EXTERIEUR ->
      Match.opponent_of m club = Some (Match.club_home m)).
Proof.
  unfold Match.get_venue_for_club, Match.involves_club, Match.opponent_of.
  change (py_eq club (Match.club_home m))
    with (String.eqb (Club.id club) (Club.id (Match.club_home m))).
  change (py_eq club (Match.club_away m))
    with (String.eqb (Club.id club) (Club.id (Match.club_away m))).
  destruct (String.eqb_spec (Club.id club) (Club.id (Match.club_home m))) as [Hh|Hh];
    destruct (String.eqb_spec (Club.id club) (Club.id (Match.club_away m))) as [Ha|Ha];
    cbn [orb]; repeat split; try discriminate; try congruence; try tauto;
    try (intros [H1 H2]; congruence); auto.
Qed.

(** In a well-constructed match the opponent of a participant is the other
    participant: it is not the club itself, it plays at the other venue, and
    its own opponent is the club again. *)
Theorem opponent_of_involution (m : Match.t) (club : Club.t)
    (Hvalid : Match.valid m) (Hin : Match.involves_club m club = true) :
  exists opp,
    Match.opponent_of m club = Some opp
    /\ py_eq opp club = false
    /\ Match.involves_club m opp = true
    /\ (exists back, Match.opponent_of m opp = Some back /\ py_eq back club = true)
    /\ Match.get_venue_for_club m opp <> Match.get_venue_for_club m club
    /\ returns (Match.get_venue_for_club m club)
    /\ returns (Match.get_venue_for_club m opp).
Proof.
  apply valid_inv in Hvalid. destruct Hvalid as [Hne _].
  change (String.eqb (Club.id (Match.club_home m)) (Club.id (Match.club_away m)) = false)
    in Hne.
  apply String.eqb_neq in Hne.
  unfold Match.involves_club, Match.opponent_of, Match.get_venue_for_club in *.
  change (py_eq club (Match.club_home m))
    with (String.eqb (Club.id club) (Club.id (Match.club_home m))) in *.
  change (py_eq club (Match.club_away m))
    with (String.eqb (Club.id club) (Club.id (Match.club_away m))) in *.
  destruct (String.eqb_spec (Club.id club) (Club.id (Match.club_home m))) as [Hh|Hh].
  - exists (Match.club_away m).
    assert (E1 : py_eq (Match.club_away m) club = false).
    { apply String.eqb_neq. congruence. }
    assert (E2 : py_eq (Match.club_away m) (Match.club_home m) = false).
    { apply String.eqb_neq. congruence. }
    rewrite E2, !py_eq_refl, orb_true_r.
    repeat split; auto; try discriminate.
    + exists (Match.club_home m). split; [reflexivity|].
      apply String.eqb_eq. congruence.
    + now exists DOMICILE.
    + now exists EXTERIEUR.
  - destruct (String.eqb_spec (Club.id club) (Club.id (Match.club_away m))) as [Ha|Ha];
      [|discriminate].
    exists (Match.club_home m).
    assert (E1 : py_eq (Match.club_home m) club = false).
    { apply String.eqb_neq. congruence. }
    rewrite !py_eq_refl. cbn [orb].
    repeat split; auto; try discriminate.
    + exists (Match.club_away m). split; [reflexivity|].
      apply String.eqb_eq. congruence.
    + now exists EXTERIEUR.
    + now exists DOMICILE.
Qed.

Lemma opponent_of_involution_witness :
  Match.valid Examples.psg_rma_1
  /\ Match.involves_club Examples.psg_rma_1 Examples.RMA = true
  /\ exists opp,
       Match.opponent_of Examples.psg_rma_1 Examples.RMA = Some opp
       /\ py_eq opp Examples.RMA = false
       /\ Match.involves_club Examples.psg_rma_1 opp = true
       /\ (exists back, Match.opponent_of Examples.psg_rma_1 opp = Some back
                        /\ py_eq back Examples.RMA = true)
       /\ Match.get_venue_for_club Examples.psg_rma_1 opp
          <> Match.get_venue_for_club Examples.psg_rma_1 Examples.RMA
       /\ returns (Match.get_venue_for_club Examples.psg_rma_1 Examples.RMA)
       /\ returns (Match.get_venue_for_club Examples.psg_rma_1 opp).
Proof.
  split; [reflexivity|]. split; [reflexivity|].
  exact (opponent_of_involution Examples.psg_rma_1 Examples.RMA eq_refl eq_refl).
Defined.

(* ====================================================================== *)
(** * Part 19. Insertion keeps a draw free of duplicates                    *)
(* ====================================================================== *)

Lemma list_contains_identity (m : Match.t) (l : list Match.t) :
  list_contains m l = true <-> In (Match.identity m) (map Match.identity l).
Proof.
  rewrite list_contains_spec, in_map_iff. split; intros (y & H1 & H2); exists y.
  - split; [symmetry; now apply Match_eq_identity | exact H1].
  - split; [exact H2 | apply Match_eq_identity; now symmetry].
Qed.

Lemma list_contains_not_identity (m : Match.t) (l : list Match.t) :
  list_contains m l = false <-> ~ In (Match.identity m) (map Match.identity l).
Proof.
  rewrite <- list_contains_identity. destruct (list_contains m l); split; congruence.
Qed.

(** However a batch insertion ends, it leaves a draw that had no duplicates
    without duplicates; it only appends, a prefix of the batch, and never
    touches the season. *)
Theorem add_matches_keeps_no_duplicates (ms : list Match.t) (d : Draw.t)
    (Hnodup : no_duplicate_matches (Draw.matches d)) :
  no_duplicate_matches (Draw.matches (snd (Draw.add_matches d ms)))
  /\ Draw.season (snd (Draw.add_matches d ms)) = Draw.season d
  /\ exists added rest,
       ms = added ++ rest
       /\ Draw.matches (snd (Draw.add_matches d ms)) = Draw.matches d ++ added.
Proof.
  revert d Hnodup. induction ms as [|m rest IH]; intros d Hnodup.
  - simpl. split; [exact Hnodup|]. split; [reflexivity|].
    exists [], []. split; [reflexivity | now rewrite app_nil_r].
  - simpl. destruct (list_contains m (Draw.matches d)) eqn:E.
    + rewrite (add_match_duplicate d m E). simpl.
      split; [exact Hnodup|]. split; [reflexivity|].
      exists [], (m :: rest). split; [reflexivity | now rewrite app_nil_r].
    + rewrite (add_match_fresh d m E).
      destruct (IH (Draw.make (Draw.matches d ++ [m]) (Draw.season d)))
        as (H1 & H2 & added & rest' & H3 & H4).
      { unfold no_duplicate_matches in *. simpl. rewrite map_app. simpl.
        apply NoDup_app; [exact Hnodup | repeat constructor; intros [] |].
        intros i Hi [<-|[]]. revert Hi. now apply list_contains_not_identity. }
      split; [exact H1|]. split; [exact H2|].
      exists (m :: added), rest'. split; [simpl; now rewrite H3|].
      rewrite H4. simpl. now rewrite <- app_assoc.
Qed.

Lemma add_matches_keeps_no_duplicates_witness :
  no_duplicate_matches (Draw.matches Examples.one_match_draw)
  /\ no_duplicate_matches
       (Draw.matches (snd (Draw.add_matches Examples.one_match_draw
                             [Examples.psg_om_2; Examples.psg_rma_1; Examples.bay_psg_3])))
  /\ Draw.matches (snd (Draw.add_matches Examples.one_match_draw
                          [Examples.psg_om_2; Examples.psg_rma_1; Examples.bay_psg_3]))
     = [Examples.psg_rma_1; Examples.psg_om_2].
Proof.
  assert (H : no_duplicate_matches (Draw.matches Examples.one_match_draw)).
  { repeat constructor. intros []. }
  split; [exact H|]. split; [|reflexivity].
  exact (proj1 (add_matches_keeps_no_duplicates
                  [Examples.psg_om_2; Examples.psg_rma_1; Examples.bay_psg_3]
                  Examples.one_match_draw H)).
Defined.

(** A batch insertion returns exactly when the batch has no two matches of
    one identity and none of its matches is in the draw already; the draw
    then holds its old matches followed by the whole batch. *)
Theorem add_matches_succeeds_iff (ms : list Match.t) (d : Draw.t) :
  (fst (Draw.add_matches d ms) = Ok tt
   <-> NoDup (map Match.identity ms)
       /\ forall m, In m ms -> ~ In (Match.identity m) (map Match.identity (Draw.matches d)))
  /\ (fst (Draw.add_matches d ms) = Ok tt ->
      snd (Draw.add_matches d ms) = Draw.make (Draw.matches d ++ ms) (Draw.season d)).
Proof.
  revert d. induction ms as [|x rest IH]; intros d.
  - simpl. split; [split; [intros _; split; [constructor | intros m []] | reflexivity]|].
    intros _. rewrite app_nil_r. now destruct d.
  - simpl. destruct (list_contains x (Draw.matches d)) eqn:E.
    + rewrite (add_match_duplicate d x E). simpl.
      split; [split; [discriminate|] | discriminate].
      intros [_ Hfresh]. exfalso. apply (Hfresh x (or_introl eq_refl)).
      now apply list_contains_identity.
    + rewrite (add_match_fresh d x E).
      destruct (IH (Draw.make (Draw.matches d ++ [x]) (Draw.season d))) as [IH1 IH2].
      simpl in IH1, IH2. apply list_contains_not_identity in E.
      split.
      * rewrite IH1. rewrite NoDup_cons_iff. split.
        -- intros [Hnd Hfresh]. split; [split; [|exact Hnd]|].
           ++ intros Hin. apply in_map_iff in Hin. destruct Hin as (y & Hy & Hin).
              apply (Hfresh y Hin). rewrite map_app, in_app_iff. right. simpl. auto.
           ++ intros m [<-|Hm]; [exact E|].
              intros Hin. apply (Hfresh m Hm). rewrite map_app, in_app_iff. now left.
        -- intros [[Hx Hnd] Hfresh]. split; [exact Hnd|].
           intros m Hm Hin. rewrite map_app, in_app_iff in Hin.
           destruct Hin as [Hin|[Hin|[]]].
           ++ apply (Hfresh m (or_intror Hm) Hin).
           ++ apply Hx. rewrite Hin. now apply in_map.
      * intros Hok. rewrite (IH2 Hok). now rewrite <- app_assoc.
Qed.

(** Inserting a concatenation is inserting its first part and, if that
    returned, its second part into the draw so obtained. *)
Theorem add_matches_app (l1 l2 : list Match.t) (d : Draw.t) :
  Draw.add_matches d (l1 ++ l2)
  = match Draw.add_matches d l1 with
    | (Ok _, d1) => Draw.add_matches d1 l2
    | (Raise e, d1) => (Raise e, d1)
    end.
Proof.
  revert d. induction l1 as [|x rest IH]; intros d; [reflexivity|].
  simpl. destruct (Draw.add_match d x) as [[u|e] d1]; [apply IH | reflexivity].
Qed.

(* ====================================================================== *)
(** * Part 20. The per-club and per-round views of a draw                   *)
(* ====================================================================== *)

Lemma matches_split (d : Draw.t) (club : Club.t) :
  Draw.get_number_of_matches_for_club d club + len (self_matches_of d club)
  = Draw.get_number_of_home_matches_for_club d club
    + Draw.get_number_of_away_matches_for_club d club.
Proof.
  unfold Draw.get_number_of_matches_for_club, Draw.get_number_of_home_matches_for_club,
    Draw.get_number_of_away_matches_for_club, Draw.get_matches_for_club,
    Draw.get_home_matches_for_club, Draw.get_away_matches_for_club, self_matches_of.
  induction (Draw.matches d) as [|m r IH]; [reflexivity|]. cbn [filter].
  assert (Hinv : Match.involves_club m club
                 = py_eq (Match.club_home m) club || py_eq (Match.club_away m) club).
  { unfold Match.involves_club.
    now rewrite (py_eq_sym club (Match.club_home m)), (py_eq_sym club (Match.club_away m)). }
  rewrite Hinv.
  destruct (py_eq (Match.club_home m) club), (py_eq (Match.club_away m) club);
    cbn [orb andb]; unfold len in *; cbn [List.length]; lia.
Qed.

Lemma no_self_matches (d : Draw.t) (club : Club.t) :
  Forall Match.valid (Draw.matches d) -> self_matches_of d club = [].
Proof.
  unfold self_matches_of. intros Hvalid.
  induction Hvalid as [|m r Hm Hr IH]; [reflexivity|]. cbn [filter].
  apply valid_inv in Hm. destruct Hm as [Hne _].
  destruct (py_eq (Match.club_home m) club) eqn:E1; [|exact IH].
  destruct (py_eq (Match.club_away m) club) eqn:E2; [|exact IH].
  rewrite py_eq_sym in E2. rewrite (py_eq_trans _ _ _ E1 E2) in Hne. discriminate.
Qed.

Lemma matches_split_valid (d : Draw.t) (club : Club.t) :
  Forall Match.valid (Draw.matches d) ->
  Draw.get_number_of_matches_for_club d club
  = Draw.get_number_of_home_matches_for_club d club
    + Draw.get_number_of_away_matches_for_club d club.
Proof.
  intros Hvalid. pose proof (matches_split d club) as G.
  rewrite (no_self_matches d club Hvalid) in G.
  change (len (@nil Match.t)) with 0 in G. lia.
Qed.

(** The matches of a club are its home matches and its away matches, a match
    of the club against itself being one match that is both.  In a draw of
    well-constructed matches the number of matches of a club is the sum of
    its home and away counts. *)
Theorem matches_split_home_away (d : Draw.t) (club : Club.t) :
  Draw.get_number_of_matches_for_club d club + len (self_matches_of d club)
  = Draw.get_number_of_home_matches_for_club d club
    + Draw.get_number_of_away_matches_for_club d club
  /\ (Forall Match.valid (Draw.matches d) ->
      self_matches_of d club = []
      /\ Draw.get_number_of_matches_for_club d club
         = Draw.get_number_of_home_matches_for_club d club
           + Draw.get_number_of_away_matches_for_club d club).
Proof.
  split; [apply matches_split|]. intros Hvalid.
  split; [now apply no_self_matches | now apply matches_split_valid].
Qed.

Lemma flat_map_bucket_absent (x : Match.t) (jx : Z) (f : Z -> list Match.t) (js : list Z) :
  ~ In jx js ->
  flat_map (fun j => if jx =? j then x :: f j else f j) js = flat_map f js.
Proof.
  induction js as [|j r IH]; intros Hnot; [reflexivity|]. simpl.
  destruct (Z.eqb_spec jx j) as [->|_]; [exfalso; apply Hnot; now left|].
  rewrite IH; [reflexivity|]. intros Hin. apply Hnot. now right.
Qed.

Lemma flat_map_bucket (x : Match.t) (jx : Z) (f : Z -> list Match.t) (js : list Z) :
  NoDup js -> In jx js ->
  Permutation (flat_map (fun j => if jx =? j then x :: f j else f j) js)
              (x :: flat_map f js).
Proof.
  induction 1 as [|j r Hnotin Hnd IH]; intros Hin; [contradiction|]. simpl.
  destruct (Z.eqb_spec jx j) as [->|Hne].
  - rewrite (flat_map_bucket_absent x j f r Hnotin). apply Permutation_refl.
  - destruct Hin as [->|Hin]; [contradiction|].
    eapply Permutation_trans; [apply Permutation_app_head, IH, Hin|].
    apply Permutation_sym, Permutation_middle.
Qed.

(** [get_matches_by_journee] raises exactly for a round outside 1 to 8 and
    otherwise returns the matches of that round.  In a draw of
    well-constructed matches every match is returned for exactly one round:
    the eight lists together are a rearrangement of the draw. *)
Theorem get_matches_by_journee_partition (d : Draw.t)
    (Hvalid : Forall Match.valid (Draw.matches d)) :
  (forall j, (j < 1 \/ 8 < j) <->
     Draw.get_matches_by_journee d j
     = Raise (ValueError ("La journée doit être entre 1 et 8. Reçu: " ++ str_int j)%string))
  /\ (forall j l, Draw.get_matches_by_journee d j = Ok l ->
        forall m, In m l <-> In m (Draw.matches d) /\ Match.journee m = j)
  /\ Permutation (matches_round_by_round d) (Draw.matches d).
Proof.
  split; [|split].
  - intros j. unfold Draw.get_matches_by_journee.
    destruct (Z.leb_spec 1 j), (Z.leb_spec j 8); cbn [andb negb];
      split; try discriminate; try reflexivity; lia.
  - intros j l. unfold Draw.get_matches_by_journee.
    destruct (negb _); [discriminate|]. intros Hl. injection Hl as <-.
    intros m. rewrite filter_In. change (py_eq (Match.journee m) j) with (Match.journee m =? j).
    now rewrite Z.eqb_eq.
  - change (matches_round_by_round d)
      with (flat_map (fun j => filter (fun m => Match.journee m =? j) (Draw.matches d))
                     [1; 2; 3; 4; 5; 6; 7; 8]).
    induction Hvalid as [|x r Hx Hr IH]; [apply Permutation_refl|].
    apply valid_inv in Hx. destruct Hx as [_ Hj].
    rewrite (flat_map_ext _
      (fun j => if Match.journee x =? j
                then x :: filter (fun m => Match.journee m =? j) r
                else filter (fun m => Match.journee m =? j) r)).
    + eapply Permutation_trans.
      * apply flat_map_bucket.
        -- repeat (constructor; [simpl; intros H;
             repeat (destruct H as [H|H]; [discriminate H|]); exact H|]). constructor.
        -- simpl. lia.
      * apply perm_skip, IH.
    + intros j. cbn [filter]. reflexivity.
Qed.

Lemma get_matches_by_journee_partition_witness :
  Forall Match.valid (Draw.matches Examples.small_draw)
  /\ Permutation (matches_round_by_round Examples.small_draw)
                 (Draw.matches Examples.small_draw).
Proof.
  assert (H : Forall Match.valid (Draw.matches Examples.small_draw)).
  { repeat (constructor; [reflexivity|]). constructor. }
  split; [exact H|].
  exact (proj2 (proj2 (get_matches_by_journee_partition Examples.small_draw H))).
Defined.

(* ====================================================================== *)
(** * Part 21. The club set and the opponents of a club                     *)
(* ====================================================================== *)

Lemma bool_eq_iff (a b : bool) : (a = true <-> b = true) -> a = b.
Proof.
  destruct a, b; intros [H1 H2]; try reflexivity;
    [symmetry; apply H1; reflexivity | apply H2; reflexivity].
Qed.

Lemma list_contains_perm {A : Type} `{PyEq A} (x : A) (l l' : list A) :
  Permutation l l' -> list_contains x l = list_contains x l'.
Proof.
  intros Hp. apply bool_eq_iff. rewrite !list_contains_spec.
  split; intros (y & Hy & He); exists y; split; auto.
  - eapply Permutation_in; eauto.
  - eapply Permutation_in; [apply Permutation_sym|]; eauto.
Qed.

Lemma list_contains_congr {A : Type} `{PyEq A} (x y : A) (l : list A) :
  py_eq x y = true -> list_contains x l = list_contains y l.
Proof.
  intros He. unfold list_contains. induction l as [|z r IH]; [reflexivity|].
  simpl. rewrite IH. now rewrite (py_eq_congr x y z He).
Qed.

Lemma set_add_contains {A : Type} `{PyEq A} (s : list A) (x y : A) :
  list_contains y (set_add s x) = list_contains y s || py_eq y x.
Proof.
  unfold set_add. destruct (list_contains x s) eqn:E.
  - destruct (py_eq y x) eqn:Eyx; [|now rewrite orb_false_r].
    rewrite (list_contains_congr y x s Eyx), E. reflexivity.
  - rewrite list_contains_app. simpl. now rewrite orb_false_r.
Qed.

Lemma set_add_length {A : Type} `{PyEq A} (s : list A) (x : A) :
  (List.length (set_add s x) <= S (List.length s))%nat.
Proof.
  unfold set_add. destruct (list_contains x s); [lia|].
  rewrite length_app. simpl. lia.
Qed.

Lemma all_clubs_fold_contains (club : Club.t) (ms : list Match.t) : forall acc,
  list_contains club
    (fold_left (fun clubs m => set_add (set_add clubs (Match.club_home m)) (Match.club_away m))
               ms acc)
  = list_contains club acc || existsb (fun m => Match.involves_club m club) ms.
Proof.
  induction ms as [|m r IH]; intros acc; simpl; [now rewrite orb_false_r|].
  rewrite IH, !set_add_contains. unfold Match.involves_club.
  now rewrite <- !orb_assoc.
Qed.

Lemma all_clubs_fold_NoDup (ms : list Match.t) : forall acc,
  NoDup (map Club.id acc) ->
  NoDup (map Club.id
    (fold_left (fun clubs m => set_add (set_add clubs (Match.club_home m)) (Match.club_away m))
               ms acc)).
Proof.
  induction ms as [|m r IH]; intros acc Hacc; simpl; [exact Hacc|].
  apply IH. now apply set_add_NoDup_id, set_add_NoDup_id.
Qed.

Lemma all_clubs_fold_length (ms : list Match.t) : forall acc,
  (List.length
     (fold_left (fun clubs m => set_add (set_add clubs (Match.club_home m)) (Match.club_away m))
                ms acc)
   <= List.length acc + 2 * List.length ms)%nat.
Proof.
  induction ms as [|m r IH]; intros acc; simpl; [lia|].
  eapply Nat.le_trans; [apply IH|].
  pose proof (set_add_length (set_add acc (Match.club_home m)) (Match.club_away m)).
  pose proof (set_add_length acc (Match.club_home m)). lia.
Qed.

Lemma all_clubs_NoDup (d : Draw.t) : NoDup (map Club.id (Draw.get_all_clubs d)).
Proof. apply all_clubs_fold_NoDup. constructor. Qed.

Lemma all_clubs_contains (d : Draw.t) (club : Club.t) :
  list_contains club (Draw.get_all_clubs d)
  = existsb (fun m => Match.involves_club m club) (Draw.matches d).
Proof. unfold Draw.get_all_clubs. now rewrite all_clubs_fold_contains. Qed.

Lemma iter_all_clubs_contains (h : HashOrder) (d : Draw.t) (club : Club.t) :
  list_contains club (Draw.iter_all_clubs h d)
  = existsb (fun m => Match.involves_club m club) (Draw.matches d).
Proof.
  rewrite <- all_clubs_contains. apply list_contains_perm. apply iter_perm.
Qed.

(** [get_all_clubs] holds each club of the draw once: its members have
    pairwise different ids, a club is (equal to) a member exactly when some
    match involves it, and there are at most two members per match.  The
    same membership holds for the order in which the set is iterated. *)
Theorem get_all_clubs_spec (h : HashOrder) (d : Draw.t) :
  NoDup (map Club.id (Draw.get_all_clubs d))
  /\ (forall club,
        list_contains club (Draw.get_all_clubs d)
        = existsb (fun m => Match.involves_club m club) (Draw.matches d))
  /\ (forall club,
        list_contains club (Draw.iter_all_clubs h d)
        = existsb (fun m => Match.involves_club m club) (Draw.matches d))
  /\ len (Draw.get_all_clubs d) <= 2 * len (Draw.matches d)
  /\ len (Draw.iter_all_clubs h d) = len (Draw.get_all_clubs d).
Proof.
  split; [apply all_clubs_NoDup|].
  split; [apply all_clubs_contains|]. split; [apply iter_all_clubs_contains|]. split.
  - unfold len, Draw.get_all_clubs.
    pose proof (all_clubs_fold_length (Draw.matches d) []). simpl in H. lia.
  - unfold len, Draw.iter_all_clubs. f_equal. apply Permutation_length, iter_perm.
Qed.

Section SortedTotal.
Context {A K : Type} (key : A -> K) (le : K -> K -> bool).
Hypothesis le_total : forall x y, le x y = true \/ le y x = true.

Lemma insert_sorted_Sorted (x : A) (l : list A) :
  Sorted (fun a b => le (key a) (key b) = true) l ->
  Sorted (fun a b => le (key a) (key b) = true) (insert_sorted key le x l).
Proof.
  induction 1 as [|y r Hs IH Hhd]; simpl.
  - repeat constructor.
  - destruct (le (key x) (key y)) eqn:E.
    + repeat constructor; assumption.
    + assert (Hyx : le (key y) (key x) = true).
      { destruct (le_total (key x) (key y)); congruence. }
      constructor; [exact IH|].
      destruct r as [|z r']; simpl.
      * constructor. exact Hyx.
      * inversion Hhd; subst.
        destruct (le (key x) (key z)); constructor; assumption.
Qed.

Lemma sorted_Sorted (l : list A) :
  Sorted (fun a b => le (key a) (key b) = true) (sorted key le l).
Proof.
  induction l as [|x r IH]; simpl; [constructor | now apply insert_sorted_Sorted].
Qed.

End SortedTotal.

Lemma existsb_filter {A : Type} (f p : A -> bool) (l : list A) :
  (forall x, f x = true -> p x = true) ->
  existsb f (filter p l) = existsb f l.
Proof.
  intros Himp. induction l as [|x r IH]; [reflexivity|]. simpl.
  destruct (p x) eqn:E; simpl; rewrite IH; [reflexivity|].
  destruct (f x) eqn:F; [|reflexivity]. rewrite (Himp x F) in E. discriminate.
Qed.

Lemma opponents_fold_contains (club y : Club.t) (ms : list Match.t) : forall acc,
  list_contains y
    (fold_left (fun opponents m =>
                  match Match.opponent_of m club with
                  | Some opponent => set_add opponents opponent
                  | None => opponents
                  end) ms acc)
  = list_contains y acc || existsb (fun m => meets_in m club y) ms.
Proof.
  induction ms as [|m r IH]; intros acc; simpl; [now rewrite orb_false_r|].
  rewrite IH. unfold meets_in.
  destruct (Match.opponent_of m club) as [o|].
  - now rewrite set_add_contains, <- orb_assoc.
  - reflexivity.
Qed.

Lemma meets_in_involves (m : Match.t) (a b : Club.t) :
  meets_in m a b = true -> Match.involves_club m a = true.
Proof.
  unfold meets_in, Match.opponent_of, Match.involves_club.
  destruct (py_eq a (Match.club_home m)); [reflexivity|].
  destruct (py_eq a (Match.club_away m)); [reflexivity | discriminate].
Qed.

(** Each club meets the other in the same matches. *)
Lemma meets_in_sym (m : Match.t) (a b : Club.t) : meets_in m a b = meets_in m b a.
Proof.
  unfold meets_in, Match.opponent_of.
  change (@py_eq Club.t _) with Club.eq. unfold Club.eq.
  destruct (String.eqb_spec (Club.id a) (Club.id (Match.club_home m)));
    destruct (String.eqb_spec (Club.id a) (Club.id (Match.club_away m)));
    destruct (String.eqb_spec (Club.id b) (Club.id (Match.club_home m)));
    destruct (String.eqb_spec (Club.id b) (Club.id (Match.club_away m)));
    try reflexivity; try congruence;
    try (apply String.eqb_eq; congruence);
    try (symmetry; apply String.eqb_eq; congruence);
    try (apply String.eqb_neq; congruence);
    try (symmetry; apply String.eqb_neq; congruence).
Qed.

Lemma opponents_contains (h : HashOrder) (d : Draw.t) (a b : Club.t) :
  list_contains b (Draw.get_opponents_for_club h d a)
  = existsb (fun m => meets_in m a b) (Draw.matches d).
Proof.
  unfold Draw.get_opponents_for_club.
  rewrite (list_contains_perm b _ (Draw.opponents_set d a)).
  - unfold Draw.opponents_set, Draw.get_matches_for_club.
    rewrite opponents_fold_contains. simpl.
    apply existsb_filter. intros m. apply meets_in_involves.
  - eapply Permutation_trans; [apply sorted_perm | apply iter_perm].
Qed.

Lemma opponents_contains_sym (h : HashOrder) (d : Draw.t) (a b : Club.t) :
  list_contains b (Draw.get_opponents_for_club h d a)
  = list_contains a (Draw.get_opponents_for_club h d b).
Proof.
  rewrite !opponents_contains.
  induction (Draw.matches d) as [|m r IH]; [reflexivity|]. simpl.
  now rewrite IH, (meets_in_sym m a b).
Qed.

(** [get_opponents_for_club] returns each opponent once, in ascending order
    of id.  A club is (equal to) one of the opponents of [a] exactly when
    some match opposes the two, so being an opponent is symmetric; and in a
    draw of well-constructed matches no club is its own opponent. *)
Theorem get_opponents_spec (h : HashOrder) (d : Draw.t) (a b : Club.t) :
  Sorted (fun x y => String.leb (Club.id x) (Club.id y) = true)
         (Draw.get_opponents_for_club h d a)
  /\ NoDup (map Club.id (Draw.get_opponents_for_club h d a))
  /\ list_contains b (Draw.get_opponents_for_club h d a)
     = existsb (fun m => meets_in m a b) (Draw.matches d)
  /\ list_contains b (Draw.get_opponents_for_club h d a)
     = list_contains a (Draw.get_opponents_for_club h d b)
  /\ (Forall Match.valid (Draw.matches d) ->
      list_contains a (Draw.get_opponents_for_club h d a) = false).
Proof.
  split; [apply sorted_Sorted, String.leb_total|].
  split; [apply opponents_distinct|].
  split; [apply opponents_contains|]. split; [apply opponents_contains_sym|].
  intros Hvalid. rewrite opponents_contains.
  induction Hvalid as [|m r Hm Hr IH]; [reflexivity|]. simpl. rewrite IH, orb_false_r.
  apply valid_inv in Hm. destruct Hm as [Hne _].
  unfold meets_in, Match.opponent_of.
  destruct (py_eq a (Match.club_home m)) eqn:E1.
  - destruct (py_eq a (Match.club_away m)) eqn:E2; [|reflexivity].
    rewrite py_eq_sym in E1. rewrite (py_eq_trans _ _ _ E1 E2) in Hne. discriminate.
  - destruct (py_eq a (Match.club_away m)); [exact E1 | reflexivity].
Qed.

(** [has_country_clash] does not depend on the order of its two clubs: it is
    true exactly when they have the same country code and some match opposes
    them. *)
Theorem has_country_clash_symmetric (h : HashOrder) (d : Draw.t) (a b : Club.t) :
  Draw.has_country_clash h d a b = Draw.has_country_clash h d b a
  /\ (Draw.has_country_clash h d a b = true
      <-> Club.pays a = Club.pays b
          /\ exists m, In m (Draw.matches d) /\ meets_in m a b = true).
Proof.
  unfold Draw.has_country_clash.
  change (py_eq (Club.pays a) (Club.pays b)) with (String.eqb (Club.pays a) (Club.pays b)).
  change (py_eq (Club.pays b) (Club.pays a)) with (String.eqb (Club.pays b) (Club.pays a)).
  rewrite (String.eqb_sym (Club.pays b) (Club.pays a)).
  rewrite (opponents_contains_sym h d a b).
  split; [reflexivity|].
  destruct (String.eqb_spec (Club.pays a) (Club.pays b)) as [He|Hne]; cbn [negb].
  - rewrite <- (opponents_contains_sym h d a b).
    rewrite opponents_contains, existsb_exists. tauto.
  - split; [discriminate | intros [H _]; contradiction].
Qed.

(* ====================================================================== *)
(** * Part 22. Same-country clashes and the pot rule                        *)
(* ====================================================================== *)

Lemma opponents_set_from_match (d : Draw.t) (club o : Club.t) :
  In o (Draw.opponents_set d club) ->
  exists m, In m (Draw.matches d)
            /\ Match.involves_club m club = true
            /\ Match.opponent_of m club = Some o.
Proof.
  unfold Draw.opponents_set, Draw.get_matches_for_club.
  assert (G : forall ms acc,
    In o (fold_left (fun opponents m =>
                       match Match.opponent_of m club with
                       | Some opponent => set_add opponents opponent
                       | None => opponents
                       end) ms acc) ->
    In o acc \/ exists m, In m ms /\ Match.opponent_of m club = Some o).
  { induction ms as [|m r IH]; intros acc Hin; simpl in *; [now left|].
    destruct (IH _ Hin) as [Hacc|(m' & Hm' & Ho)].
    - destruct (Match.opponent_of m club) as [x|] eqn:E; [|now left].
      apply set_add_In in Hacc. destruct Hacc as [Hacc | ->]; [now left|].
      right. exists m. auto.
    - right. exists m'. auto. }
  intros Hin. destruct (G _ _ Hin) as [[]|(m & Hm & Ho)].
  apply filter_In in Hm. destruct Hm as [Hm Hinv]. exists m. auto.
Qed.

Lemma opponents_In (h : HashOrder) (d : Draw.t) (club o : Club.t) :
  In o (Draw.get_opponents_for_club h d club) <-> In o (Draw.opponents_set d club).
Proof.
  unfold Draw.get_opponents_for_club.
  assert (Hp : Permutation (sorted Club.id String.leb
                              (iter (club_order h) (Draw.opponents_set d club)))
                           (Draw.opponents_set d club)).
  { eapply Permutation_trans; [apply sorted_perm | apply iter_perm]. }
  split; intros Hin.
  - eapply Permutation_in; eauto.
  - eapply Permutation_in; [apply Permutation_sym|]; eauto.
Qed.

Lemma filter_length_le_filter {A : Type} (f p : A -> bool) (l : list A) :
  (forall x, f x = true -> p x = true) ->
  (List.length (filter f l) <= List.length (filter p l))%nat.
Proof.
  intros Himp. induction l as [|x r IH]; [apply Nat.le_refl|]. cbn [filter].
  destruct (f x) eqn:F.
  - rewrite (Himp x F). cbn [List.length]. lia.
  - destruct (p x); cbn [List.length]; lia.
Qed.

Lemma country_clashes_len (h : HashOrder) (d : Draw.t) (club : Club.t) :
  len (Draw.get_country_clashes_for_club h d club)
  = count_from_country (Club.pays club) (Draw.get_opponents_for_club h d club).
Proof.
  unfold Draw.get_country_clashes_for_club, count_from_country, len.
  now rewrite length_map.
Qed.

(** [get_country_clashes_for_club] lists, in the order of the opponents, the
    opponents whose country code is the club's, each with the number of
    matches against it, which is at least 1 and at most the number of
    matches of the club. *)
Theorem country_clashes_spec (h : HashOrder) (d : Draw.t) (club : Club.t) :
  map fst (Draw.get_country_clashes_for_club h d club)
  = filter (fun opp => String.eqb (Club.pays opp) (Club.pays club))
           (Draw.get_opponents_for_club h d club)
  /\ len (Draw.get_country_clashes_for_club h d club)
     = count_from_country (Club.pays club) (Draw.get_opponents_for_club h d club)
  /\ (forall opp n, In (opp, n) (Draw.get_country_clashes_for_club h d club) ->
        In opp (Draw.get_opponents_for_club h d club)
        /\ Club.pays opp = Club.pays club
        /\ 1 <= n <= Draw.get_number_of_matches_for_club d club).
Proof.
  unfold Draw.get_country_clashes_for_club.
  change (fun opponent : Club.t => py_eq (Club.pays opponent) (Club.pays club))
    with (fun opp : Club.t => String.eqb (Club.pays opp) (Club.pays club)).
  split; [|split].
  - rewrite map_map. simpl. apply map_id.
  - unfold count_from_country, len. now rewrite length_map.
  - intros opp n Hin. apply in_map_iff in Hin. destruct Hin as (o & Heq & Ho).
    injection Heq as -> <-. apply filter_In in Ho. destruct Ho as [Ho Hp].
    apply String.eqb_eq in Hp. split; [exact Ho|]. split; [exact Hp|].
    apply opponents_In in Ho.
    destruct (opponents_set_from_match d club opp Ho) as (m & Hm & Hinv & Hopp).
    split.
    + assert (Hf : In m (filter
        (fun m => Match.involves_club m club
                  && match Match.opponent_of m club with
                     | Some o => py_eq o opp
                     | None => false
                     end) (Draw.matches d))).
      { apply filter_In. split; [exact Hm|]. rewrite Hinv, Hopp. apply py_eq_refl. }
      unfold len. destruct (filter _ (Draw.matches d)); [contradiction|].
      simpl List.length. lia.
    + unfold Draw.get_number_of_matches_for_club, Draw.get_matches_for_club, len.
      apply inj_le. apply filter_length_le_filter.
      intros x Hx. apply andb_true_iff in Hx. tauto.
Qed.

Lemma participants_of_match (d : Draw.t) (m : Match.t) :
  In m (Draw.matches d) ->
  In (Match.club_home m) (participants d) /\ In (Match.club_away m) (participants d).
Proof.
  intros Hm. unfold participants. rewrite !in_flat_map.
  split; exists m; simpl; auto.
Qed.

Lemma all_clubs_are_participants (d : Draw.t) (club : Club.t) :
  In club (Draw.get_all_clubs d) -> In club (participants d).
Proof.
  intros Hin. destruct (get_all_clubs_from_matches d club Hin) as (m & Hm & [-> | ->]);
    now apply participants_of_match.
Qed.

Lemma opponents_are_participants (h : HashOrder) (d : Draw.t) (club o : Club.t) :
  In o (Draw.get_opponents_for_club h d club) -> In o (participants d).
Proof.
  intros Hin. apply opponents_In in Hin.
  destruct (opponents_set_from_match d club o Hin) as (m & Hm & _ & Hopp).
  unfold Match.opponent_of in Hopp.
  destruct (py_eq club (Match.club_home m)).
  - injection Hopp as <-. now apply participants_of_match.
  - destruct (py_eq club (Match.club_away m)); [|discriminate].
    injection Hopp as <-. now apply participants_of_match.
Qed.

(** With no same-country opponent allowed, and one [Club] object per id,
    rule 6 is satisfied exactly when no match opposes two clubs with the same
    country code. *)
Theorem no_same_country_rule (h : HashOrder) (cfg : config.t) (d : Draw.t)
    (Hmax : config.MAX_SAME_COUNTRY_OPPONENTS cfg = 0)
    (Hone : one_club_per_id d) :
  UCLConstraints._check_no_same_country_opponents h cfg d = true
  <-> forall m, In m (Draw.matches d) ->
        Club.pays (Match.club_home m) <> Club.pays (Match.club_away m).
Proof.
  unfold UCLConstraints._check_no_same_country_opponents. cbv zeta.
  rewrite Hmax, forallb_forall.
  assert (Hempty : forall club,
    (len (Draw.get_country_clashes_for_club h d club) <=? 0) = true
    <-> forall o, In o (Draw.get_opponents_for_club h d club) ->
                  Club.pays o <> Club.pays club).
  { intros club. rewrite Z.leb_le.
    rewrite (country_clashes_len h d club). split.
    - intros Hle o Ho Hp.
      assert (Hpos : 1 <= count_from_country (Club.pays club)
                            (Draw.get_opponents_for_club h d club)).
      { clear Hle. induction (Draw.get_opponents_for_club h d club) as [|x r IH];
          [contradiction|].
        rewrite count_from_country_cons.
        pose proof (count_from_country_nonneg (Club.pays club) r).
        destruct Ho as [->|Ho].
        - rewrite Hp, String.eqb_refl. lia.
        - specialize (IH Ho). destruct (String.eqb (Club.pays x) (Club.pays club)); lia. }
      lia.
    - intros Hnone. rewrite count_from_country_none; [lia | exact Hnone]. }
  split.
  - intros Hall m Hm Hp.
    destruct (participants_of_match d m Hm) as [Hph Hpa].
    assert (Hhome : In (Match.club_home m) (Draw.iter_all_clubs h d)).
    { assert (Hc : list_contains (Match.club_home m) (Draw.iter_all_clubs h d) = true).
      { rewrite iter_all_clubs_contains.
        apply existsb_exists. exists m. split; [exact Hm|].
        unfold Match.involves_club. now rewrite py_eq_refl. }
      apply list_contains_spec in Hc. destruct Hc as (c & Hc & He).
      apply String.eqb_eq in He.
      rewrite (Hone (Match.club_home m) c Hph
                 (all_clubs_are_participants d c (proj1 (iter_all_clubs_In h d c) Hc)) He).
      exact Hc. }
    assert (Haway : In (Match.club_away m)
                       (Draw.get_opponents_for_club h d (Match.club_home m))).
    { assert (Hc : list_contains (Match.club_away m)
                     (Draw.get_opponents_for_club h d (Match.club_home m)) = true).
      { rewrite opponents_contains. apply existsb_exists. exists m. split; [exact Hm|].
        unfold meets_in, Match.opponent_of. now rewrite !py_eq_refl. }
      apply list_contains_spec in Hc. destruct Hc as (o & Ho & He).
      apply String.eqb_eq in He.
      rewrite (Hone (Match.club_away m) o Hpa (opponents_are_participants h d _ o Ho) He).
      exact Ho. }
    apply (proj1 (Hempty (Match.club_home m)) (Hall _ Hhome) _ Haway). now symmetry.
  - intros Hall club Hclub. apply Hempty. intros o Ho Hp.
    apply iter_all_clubs_In in Hclub. apply all_clubs_are_participants in Hclub.
    apply opponents_In in Ho.
    destruct (opponents_set_from_match d club o Ho) as (m & Hm & _ & Hopp).
    destruct (participants_of_match d m Hm) as [Hph Hpa].
    unfold Match.opponent_of in Hopp.
    change (@py_eq Club.t _) with Club.eq in Hopp. unfold Club.eq in Hopp.
    destruct (String.eqb_spec (Club.id club) (Club.id (Match.club_home m))) as [He|_].
    + injection Hopp as <-. rewrite (Hone club _ Hclub Hph He) in Hp.
      apply (Hall m Hm). now symmetry.
    + destruct (String.eqb_spec (Club.id club) (Club.id (Match.club_away m))) as [He|_];
        [|discriminate].
      injection Hopp as <-. rewrite (Hone club _ Hclub Hpa He) in Hp.
      now apply (Hall m Hm).
Qed.

Lemma no_same_country_rule_witness :
  config.MAX_SAME_COUNTRY_OPPONENTS config.default = 0
  /\ one_club_per_id Examples.small_draw
  /\ UCLConstraints._check_no_same_country_opponents
       insertion_hash_order config.default Examples.small_draw = false
  /\ ~ (forall m, In m (Draw.matches Examples.small_draw) ->
          Club.pays (Match.club_home m) <> Club.pays (Match.club_away m)).
Proof.
  assert (Hone : one_club_per_id Examples.small_draw).
  { intros c1 c2 H1 H2 Hid. simpl in H1, H2.
    repeat (destruct H1 as [<-|H1]); try contradiction;
      repeat (destruct H2 as [<-|H2]); try contradiction;
      first [reflexivity | discriminate Hid]. }
  split; [reflexivity|]. split; [exact Hone|]. split; [reflexivity|].
  intros Hall.
  pose proof (proj2 (no_same_country_rule insertion_hash_order config.default
                       Examples.small_draw eq_refl Hone) Hall) as Hr.
  discriminate Hr.
Defined.

Lemma dict_get_congr {K V : Type} `{PyEq K} (d : dict K V) (k q : K) (default : V) :
  py_eq k q = true -> dict_get d k default = dict_get d q default.
Proof.
  intros E. unfold dict_get. induction d as [|[k' v'] r IH]; [reflexivity|]. simpl.
  assert (Hk : py_eq k' k = py_eq k' q).
  { rewrite (py_eq_sym k' k), (py_eq_sym k' q). apply py_eq_congr, E. }
  rewrite Hk. destruct (py_eq k' q); [reflexivity | exact IH].
Qed.

(** In the dict filled by [d[k] = d.get(k, 0) + 1] over a list, each key
    holds the number of elements with that key. *)
Lemma counter_fold {A K : Type} `{PyEq K} (key : A -> K) (l : list A) :
  forall (d : dict K Z) (q : K),
    dict_get (fold_left (fun d x => dict_set d (key x) (dict_get d (key x) 0 + 1)) l d) q 0
    = dict_get d q 0 + len (filter (fun x => py_eq (key x) q) l).
Proof.
  induction l as [|x r IH]; intros d q; simpl fold_left.
  - unfold len. simpl. lia.
  - rewrite IH, dict_get_set. cbn [filter].
    destruct (py_eq (key x) q) eqn:E.
    + rewrite (dict_get_congr d (key x) q 0 E). unfold len. cbn [List.length]. lia.
    + reflexivity.
Qed.

(** Rule 4 is satisfied exactly when every club of the draw has, for each
    pot listed in the configuration, the configured number of opponents of
    that pot.  Opponents are counted once each, however many matches oppose
    them to the club. *)
Theorem opponents_per_chapeau_counts (h : HashOrder) (cfg : config.t) (d : Draw.t) :
  (forall club chapeau,
     dict_get (UCLConstraints.opponents_by_chapeau h d club) chapeau 0
     = len (filter (fun opp => Chapeau_value (Club.chapeau opp) =? chapeau)
                   (Draw.get_opponents_for_club h d club)))
  /\ (UCLConstraints._check_opponents_per_chapeau h cfg d = true
      <-> forall club, In club (Draw.iter_all_clubs h d) ->
          forall chapeau expected_count,
            In (chapeau, expected_count) (config.OPPONENTS_PER_CHAPEAU cfg) ->
            len (filter (fun opp => Chapeau_value (Club.chapeau opp) =? chapeau)
                        (Draw.get_opponents_for_club h d club)) = expected_count).
Proof.
  assert (Hcount : forall club chapeau,
     dict_get (UCLConstraints.opponents_by_chapeau h d club) chapeau 0
     = len (filter (fun opp => Chapeau_value (Club.chapeau opp) =? chapeau)
                   (Draw.get_opponents_for_club h d club))).
  { intros club chapeau. unfold UCLConstraints.opponents_by_chapeau.
    exact (counter_fold (fun o => Chapeau_value (Club.chapeau o))
             (Draw.get_opponents_for_club h d club) [] chapeau). }
  split; [exact Hcount|].
  unfold UCLConstraints._check_opponents_per_chapeau. rewrite forallb_forall.
  split; intros Hall club Hin; specialize (Hall club Hin).
  - intros chapeau n Hcfg. rewrite forallb_forall in Hall.
    specialize (Hall _ Hcfg). cbv beta iota in Hall.
    apply Z.eqb_eq in Hall. now rewrite <- Hcount.
  - apply forallb_forall. intros [chapeau n] Hcfg.
    apply Z.eqb_eq. rewrite Hcount. now apply Hall.
Qed.

(* ====================================================================== *)
(** * Part 23. What the structural layer checks                             *)
(* ====================================================================== *)

Lemma range_1_to_In (n j : Z) : In j (DrawValidator.range_1_to n) <-> 1 <= j <= n.
Proof.
  unfold DrawValidator.range_1_to. rewrite in_map_iff. split.
  - intros (k & <- & Hk). apply in_seq in Hk. lia.
  - intros Hj. exists (Z.to_nat j). split; [lia|]. apply in_seq. lia.
Qed.

Lemma range_1_to_NoDup (n : Z) : NoDup (DrawValidator.range_1_to n).
Proof.
  unfold DrawValidator.range_1_to. apply Finite.Injective_map_NoDup.
  - intros x y Hxy. lia.
  - apply seq_NoDup.
Qed.

Lemma py_eq_day_key_spec (p q : string * Z) : reflect (p = q) (py_eq p q).
Proof.
  destruct p as [a i], q as [b j]. simpl.
  destruct (String.eqb_spec a b), (Z.eqb_spec i j); simpl; constructor; congruence.
Qed.

Lemma py_eq_pair_key_spec (p q : string * string) : reflect (p = q) (py_eq p q).
Proof.
  destruct p as [a i], q as [b j]. simpl.
  destruct (String.eqb_spec a b), (String.eqb_spec i j); simpl; constructor; congruence.
Qed.

(** After the counting loop, [per_day_per_club] holds for each (id, round)
    the number of times the id is at home in that round plus the number of
    times it is away. *)
Lemma count_matches_per_day (ms : list Match.t) : forall (c : DrawValidator.Counters) q,
  dict_get (DrawValidator.per_day_per_club (fold_left DrawValidator.count_match ms c)) q 0
  = dict_get (DrawValidator.per_day_per_club c) q 0
    + len (filter (fun m => py_eq (Club.id (Match.club_home m), Match.journee m) q) ms)
    + len (filter (fun m => py_eq (Club.id (Match.club_away m), Match.journee m) q) ms).
Proof.
  induction ms as [|m rest IH]; intros c q; simpl fold_left.
  - unfold len. simpl. lia.
  - rewrite IH. unfold DrawValidator.count_match.
    cbn [DrawValidator.per_day_per_club]. rewrite !dict_get_set. cbn [filter].
    destruct (py_eq_day_key_spec (Club.id (Match.club_home m), Match.journee m) q) as [Hh|Hh];
      destruct (py_eq_day_key_spec (Club.id (Match.club_away m), Match.journee m) q)
        as [Ha|Ha];
      destruct (py_eq_day_key_spec (Club.id (Match.club_home m), Match.journee m)
                  (Club.id (Match.club_away m), Match.journee m)) as [Hha|Hha];
      try congruence; try rewrite Hh; try rewrite Ha;
      unfold len; cbn [List.length]; lia.
Qed.

Lemma valid_ids_differ (ms : list Match.t) :
  Forall Match.valid ms ->
  Forall (fun m => Club.id (Match.club_home m) <> Club.id (Match.club_away m)) ms.
Proof.
  intros Hvalid. apply Forall_forall. intros m Hm. rewrite Forall_forall in Hvalid.
  specialize (Hvalid m Hm). apply valid_inv in Hvalid. destruct Hvalid as [Hne _].
  now apply String.eqb_neq.
Qed.

Lemma involved_in_round_split (club : Club.t) (j : Z) (ms : list Match.t) :
  Forall (fun m => Club.id (Match.club_home m) <> Club.id (Match.club_away m)) ms ->
  len (filter (fun m => Match.involves_club m club && (Match.journee m =? j)) ms)
  = len (filter (fun m => py_eq (Club.id (Match.club_home m), Match.journee m)
                               (Club.id club, j)) ms)
    + len (filter (fun m => py_eq (Club.id (Match.club_away m), Match.journee m)
                                 (Club.id club, j)) ms).
Proof.
  set (f := fun m => Match.involves_club m club && (Match.journee m =? j)).
  set (g1 := fun m => py_eq (Club.id (Match.club_home m), Match.journee m) (Club.id club, j)).
  set (g2 := fun m => py_eq (Club.id (Match.club_away m), Match.journee m) (Club.id club, j)).
  induction 1 as [|m r Hne Hr IH]; [reflexivity|]. cbn [filter].
  assert (Hpt : Z.b2z (f m) = Z.b2z (g1 m) + Z.b2z (g2 m)).
  { subst f g1 g2. cbv beta. unfold Match.involves_club.
    change (@py_eq Club.t _) with Club.eq. unfold Club.eq.
    cbn [py_eq PyEq_tuple PyEq_str PyEq_int fst snd].
    rewrite (String.eqb_sym (Club.id club) (Club.id (Match.club_home m))),
            (String.eqb_sym (Club.id club) (Club.id (Match.club_away m))).
    destruct (String.eqb_spec (Club.id (Match.club_home m)) (Club.id club));
      destruct (String.eqb_spec (Club.id (Match.club_away m)) (Club.id club));
      destruct (Match.journee m =? j); cbn [orb andb]; try reflexivity; congruence. }
  destruct (f m), (g1 m), (g2 m); simpl in Hpt; try discriminate Hpt;
    unfold len in *; cbn [List.length]; lia.
Qed.

Lemma one_match_per_round_ids (h : HashOrder) (cfg : config.t) (d : Draw.t) :
  Forall (fun m => Club.id (Match.club_home m) <> Club.id (Match.club_away m))
         (Draw.matches d) ->
  (DrawValidator.check_one_match_per_day h cfg d = []
   <-> forall club, In club (Draw.iter_all_clubs h d) ->
       forall j, 1 <= j <= config.JOURNEES cfg ->
         len (matches_of_club_in_round d club j) = 1).
Proof.
  intros Hids.
  unfold DrawValidator.check_one_match_per_day. cbv zeta. rewrite flat_map_nil.
  assert (Hcount : forall club j,
    dict_get (DrawValidator.per_day_per_club (DrawValidator.count_matches d))
             (Club.id club, j) 0
    = len (matches_of_club_in_round d club j)).
  { intros club j. unfold DrawValidator.count_matches, matches_of_club_in_round.
    rewrite count_matches_per_day, (involved_in_round_split club j _ Hids).
    unfold DrawValidator.empty_counters, dict_get. simpl. lia. }
  split; intros Hall club Hin; specialize (Hall club Hin).
  - intros j Hj. rewrite flat_map_nil in Hall.
    specialize (Hall j (proj2 (range_1_to_In _ _) Hj)). rewrite Hcount in Hall.
    destruct (Z.eqb_spec (len (matches_of_club_in_round d club j)) 1);
      [assumption | discriminate].
  - apply flat_map_nil. intros j Hj. apply range_1_to_In in Hj.
    rewrite Hcount, (Hall j Hj). reflexivity.
Qed.

(** In a draw of well-constructed matches, the first loop of step (c)
    reports nothing exactly when every club of the draw is involved in
    exactly one match in each round from 1 to [JOURNEES]. *)
Theorem one_match_per_round_check (h : HashOrder) (cfg : config.t) (d : Draw.t)
    (Hvalid : Forall Match.valid (Draw.matches d)) :
  DrawValidator.check_one_match_per_day h cfg d = []
  <-> forall club, In club (Draw.iter_all_clubs h d) ->
      forall j, 1 <= j <= config.JOURNEES cfg ->
        len (matches_of_club_in_round d club j) = 1.
Proof.
  apply one_match_per_round_ids, valid_ids_differ, Hvalid.
Qed.

Lemma valid_league12 : Forall Match.valid (Draw.matches Examples.league12).
Proof.
  apply Forall_forall. intros m Hm. apply valid_inv.
  assert (G : forallb (fun m => negb (py_eq (Match.club_home m) (Match.club_away m))
                               && (1 <=? Match.journee m) && (Match.journee m <=? 8))
                      (Draw.matches Examples.league12) = true) by (vm_compute; reflexivity).
  rewrite forallb_forall in G. specialize (G m Hm).
  apply andb_true_iff in G. destruct G as [G G3].
  apply andb_true_iff in G. destruct G as [G1 G2].
  apply negb_true_iff in G1. apply Z.leb_le in G2, G3. auto.
Qed.

Lemma one_match_per_round_check_witness :
  Forall Match.valid (Draw.matches Examples.league12)
  /\ DrawValidator.check_one_match_per_day insertion_hash_order Examples.config12
       Examples.league12 = []
  /\ forall club, In club (Draw.iter_all_clubs insertion_hash_order Examples.league12) ->
     forall j, 1 <= j <= config.JOURNEES Examples.config12 ->
       len (matches_of_club_in_round Examples.league12 club j) = 1.
Proof.
  split; [exact valid_league12|].
  assert (H : DrawValidator.check_one_match_per_day insertion_hash_order Examples.config12
                Examples.league12 = []) by (vm_compute; reflexivity).
  split; [exact H|].
  exact (proj1 (one_match_per_round_check insertion_hash_order Examples.config12
                  Examples.league12 valid_league12) H).
Defined.

(** ** Dicts whose keys are pairwise different *)

Section DictKeys.
Context {K V : Type} `{PyEq K}.

Lemma dict_lookup_congr (d : dict K V) (k q : K) :
  py_eq k q = true -> dict_lookup d k = dict_lookup d q.
Proof.
  intros E. induction d as [|[k' v'] r IH]; [reflexivity|]. simpl.
  assert (Hk : py_eq k' k = py_eq k' q).
  { rewrite (py_eq_sym k' k), (py_eq_sym k' q). apply py_eq_congr, E. }
  rewrite Hk. destruct (py_eq k' q); [reflexivity | exact IH].
Qed.

Lemma dict_set_wf (d : dict K V) (k : K) (v : V) : dict_wf d -> dict_wf (dict_set d k v).
Proof.
  induction d as [|[k' v'] r IH]; simpl; [auto|].
  intros [Hnone Hwf]. destruct (py_eq k' k) eqn:E; simpl.
  - auto.
  - split; [|auto]. rewrite dict_lookup_set, (py_eq_sym k k'), E. exact Hnone.
Qed.

Lemma dict_wf_In_lookup (d : dict K V) (k : K) (v : V) :
  dict_wf d -> In (k, v) d -> dict_lookup d k = Some v.
Proof.
  induction d as [|[k' v'] r IH]; simpl; [contradiction|].
  intros [Hnone Hwf] [Heq|Hin].
  - injection Heq as -> ->. now rewrite py_eq_refl.
  - destruct (py_eq k' k) eqn:E; [|auto].
    rewrite (dict_lookup_congr r k' k E), (IH Hwf Hin) in Hnone. discriminate.
Qed.

Lemma dict_lookup_In (d : dict K V) (k : K) (v : V) :
  dict_lookup d k = Some v -> exists k', In (k', v) d /\ py_eq k' k = true.
Proof.
  induction d as [|[k' v'] r IH]; simpl; [discriminate|].
  destruct (py_eq k' k) eqn:E.
  - intros Hv. injection Hv as ->. exists k'. auto.
  - intros Hv. destruct (IH Hv) as (k'' & Hin & He). exists k''. auto.
Qed.

End DictKeys.

(** ** Pairs *)

Lemma sorted_pair_eq (a b : string) :
  DrawValidator.sorted_pair a b = if String.leb a b then (a, b) else (b, a).
Proof.
  unfold DrawValidator.sorted_pair, sorted. simpl. now destruct (String.leb a b).
Qed.

(** [tuple(sorted((a, b)))] identifies the unordered pair. *)
Lemma sorted_pair_same (a b a' b' : string) :
  DrawValidator.sorted_pair a b = DrawValidator.sorted_pair a' b'
  <-> (a = a' /\ b = b') \/ (a = b' /\ b = a').
Proof.
  rewrite !sorted_pair_eq. split.
  - destruct (String.leb a b), (String.leb a' b'); intros He; injection He; auto.
  - intros [[-> ->]|[-> ->]]; [reflexivity|].
    destruct (String.leb b' a') eqn:E1, (String.leb a' b') eqn:E2; try reflexivity.
    + now rewrite (String.leb_antisym _ _ E1 E2).
    + destruct (String.leb_total a' b'); congruence.
Qed.

Lemma set_add_In_int (s : list Z) (x y : Z) : In y (set_add s x) <-> In y s \/ y = x.
Proof.
  split; [apply set_add_In|]. unfold set_add.
  destruct (list_contains x s) eqn:E.
  - intros [Hin| ->]; [exact Hin|]. apply list_contains_spec in E.
    destruct E as (z & Hz & He). apply Z.eqb_eq in He. now subst.
  - intros [Hin| ->]; apply in_or_app; [now left | right; now left].
Qed.

Lemma set_add_NoDup_int (s : list Z) (x : Z) : NoDup s -> NoDup (set_add s x).
Proof.
  intros Hnd. unfold set_add. destruct (list_contains x s) eqn:E; [exact Hnd|].
  apply NoDup_app; [exact Hnd | repeat constructor; intros [] |].
  intros y Hy [Hxy|[]]. subst y.
  assert (Ht : list_contains x s = true).
  { apply list_contains_spec. exists x. split; [exact Hy | apply Z.eqb_refl]. }
  congruence.
Qed.

Lemma pair_days_step (c : DrawValidator.Counters) (m : Match.t) :
  DrawValidator.pair_days (DrawValidator.count_match c m)
  = dict_set (DrawValidator.pair_days c) (pair_key m)
             (set_add (dict_get (DrawValidator.pair_days c) (pair_key m) [])
                      (Match.journee m)).
Proof. reflexivity. Qed.

(** After the counting loop, [pair_days] has pairwise different keys, and
    the set filed under a key holds, once each, the rounds of the matches
    with that key. *)
Lemma count_matches_pair_days (ms : list Match.t) : forall (c : DrawValidator.Counters),
  (dict_wf (DrawValidator.pair_days c) ->
   dict_wf (DrawValidator.pair_days (fold_left DrawValidator.count_match ms c)))
  /\ (forall k j,
        In j (dict_get (DrawValidator.pair_days (fold_left DrawValidator.count_match ms c))
                       k [])
        <-> In j (dict_get (DrawValidator.pair_days c) k [])
            \/ exists m, In m ms /\ pair_key m = k /\ Match.journee m = j)
  /\ (forall k,
        NoDup (dict_get (DrawValidator.pair_days c) k []) ->
        NoDup (dict_get (DrawValidator.pair_days (fold_left DrawValidator.count_match ms c))
                        k [])).
Proof.
  induction ms as [|m rest IH]; intros c; simpl fold_left.
  - split; [auto|]. split; [|auto].
    intros k j. split; [auto | intros [Hin|(m & [] & _)]; exact Hin].
  - destruct (IH (DrawValidator.count_match c m)) as (IHwf & IHin & IHnd).
    split; [|split].
    + intros Hwf. apply IHwf. rewrite pair_days_step. now apply dict_set_wf.
    + intros k j. rewrite IHin, pair_days_step, dict_get_set.
      destruct (py_eq_pair_key_spec (pair_key m) k) as [Hk|Hk].
      * rewrite set_add_In_int, Hk. split.
        -- intros [[Hin| ->]|(m' & Hm' & Hkey & Hj)]; auto.
           ++ right. exists m. split; [now left | auto].
           ++ right. exists m'. split; [now right | auto].
        -- intros [Hin|(m' & [<-|Hm'] & Hkey & Hj)]; auto.
           right. exists m'. auto.
      * split.
        -- intros [Hin|(m' & Hm' & Hkey & Hj)]; auto.
           right. exists m'. split; [now right | auto].
        -- intros [Hin|(m' & [<-|Hm'] & Hkey & Hj)]; auto; [contradiction|].
           right. exists m'. auto.
    + intros k Hnd. apply IHnd. rewrite pair_days_step, dict_get_set.
      destruct (py_eq_pair_key_spec (pair_key m) k) as [Hk|Hk]; [|exact Hnd].
      apply set_add_NoDup_int. now rewrite Hk.
Qed.

(** The second loop of step (c) reports nothing exactly when no two matches
    between the same two ids, whichever side is at home, are on different
    rounds.  Two matches of one pair on the same round are not reported by
    this loop. *)
Theorem pair_check_spec (h : HashOrder) (d : Draw.t) :
  DrawValidator.check_pairs h d = []
  <-> forall m1 m2, In m1 (Draw.matches d) -> In m2 (Draw.matches d) ->
        same_pair m1 m2 -> Match.journee m1 = Match.journee m2.
Proof.
  unfold DrawValidator.check_pairs, DrawValidator.count_matches. rewrite flat_map_nil.
  destruct (count_matches_pair_days (Draw.matches d) DrawValidator.empty_counters)
    as (Hwf & Hin & Hnd).
  specialize (Hwf I).
  set (pd := DrawValidator.pair_days
               (fold_left DrawValidator.count_match (Draw.matches d)
                          DrawValidator.empty_counters)) in *.
  assert (Hdays : forall k j, In j (dict_get pd k [])
                  <-> exists m, In m (Draw.matches d) /\ pair_key m = k
                                /\ Match.journee m = j).
  { intros k j. rewrite Hin. split; [intros [[]|Hex]; exact Hex | auto]. }
  split.
  - intros Hall m1 m2 Hm1 Hm2 Hsame.
    assert (Hkey : pair_key m1 = pair_key m2) by (now apply sorted_pair_same).
    assert (H1 : In (Match.journee m1) (dict_get pd (pair_key m2) [])).
    { apply Hdays. exists m1. auto. }
    assert (H2 : In (Match.journee m2) (dict_get pd (pair_key m2) [])).
    { apply Hdays. exists m2. auto. }
    unfold dict_get in H1, H2.
    destruct (dict_lookup pd (pair_key m2)) as [days|] eqn:E; [|contradiction].
    destruct (dict_lookup_In pd _ _ E) as (k' & Hentry & _).
    specialize (Hall _ Hentry). destruct k' as [a b]. cbv beta iota in Hall.
    destruct days as [|x [|y t]].
    + contradiction.
    + destruct H1 as [<-|[]], H2 as [<-|[]]. reflexivity.
    + exfalso. unfold len in Hall. simpl List.length in Hall.
      destruct (Z.gtb_spec (Z.of_nat (S (S (List.length t)))) 1); [discriminate | lia].
  - intros Hall [[a b] days] Hentry. cbv beta iota.
    pose proof (dict_wf_In_lookup pd (a, b) days Hwf Hentry) as Hlook.
    assert (Hget : dict_get pd (a, b) [] = days) by (unfold dict_get; now rewrite Hlook).
    destruct days as [|x [|y t]]; try reflexivity.
    exfalso.
    assert (Hnodup : NoDup (x :: y :: t)).
    { rewrite <- Hget. apply Hnd. constructor. }
    assert (Hx : In x (dict_get pd (a, b) [])) by (rewrite Hget; now left).
    assert (Hy : In y (dict_get pd (a, b) [])) by (rewrite Hget; right; now left).
    apply Hdays in Hx, Hy.
    destruct Hx as (m1 & Hm1 & Hk1 & Hj1), Hy as (m2 & Hm2 & Hk2 & Hj2).
    assert (Hsame : same_pair m1 m2).
    { apply sorted_pair_same. change (pair_key m1 = pair_key m2). congruence. }
    specialize (Hall m1 m2 Hm1 Hm2 Hsame).
    inversion Hnodup as [|? ? Hnotin _]. apply Hnotin. left. congruence.
Qed.

(* ====================================================================== *)
(** * Part 24. Counting matches over the clubs of a draw                    *)
(* ====================================================================== *)

Lemma sum_over_cons {A : Type} (f : A -> Z) (x : A) (l : list A) :
  sum_over f (x :: l) = f x + sum_over f l.
Proof. reflexivity. Qed.

Lemma list_contains_cons {A : Type} `{PyEq A} (x y : A) (l : list A) :
  list_contains x (y :: l) = py_eq x y || list_contains x l.
Proof. reflexivity. Qed.

Lemma sum_over_ext {A : Type} (f g : A -> Z) (l : list A) :
  (forall x, In x l -> f x = g x) -> sum_over f l = sum_over g l.
Proof.
  induction l as [|x r IH]; intros Hfg; [reflexivity|]. simpl.
  rewrite (Hfg x (or_introl eq_refl)), IH; [reflexivity|].
  intros y Hy. apply Hfg. now right.
Qed.

Lemma sum_over_add {A : Type} (f g : A -> Z) (l : list A) :
  sum_over (fun x => f x + g x) l = sum_over f l + sum_over g l.
Proof.
  induction l as [|x r IH]; [reflexivity|]. simpl. rewrite IH. lia.
Qed.

Lemma sum_over_const {A : Type} (c : Z) (l : list A) :
  sum_over (fun _ => c) l = c * len l.
Proof.
  induction l as [|x r IH]; [unfold len; simpl; lia|].
  simpl. rewrite IH. unfold len. simpl List.length. lia.
Qed.

Lemma sum_over_perm {A : Type} (f : A -> Z) (l l' : list A) :
  Permutation l l' -> sum_over f l = sum_over f l'.
Proof.
  induction 1; simpl; lia.
Qed.

(** Over a list of clubs with pairwise different ids, exactly one member
    equals a club that the list contains. *)
Lemma sum_over_indicator (x : Club.t) (l : list Club.t) :
  NoDup (map Club.id l) ->
  sum_over (fun c => Z.b2z (py_eq c x)) l = Z.b2z (list_contains x l).
Proof.
  induction l as [|c r IH]; intros Hnd; [reflexivity|].
  simpl in Hnd. inversion Hnd as [|? ? Hnotin Hnd']; subst.
  rewrite sum_over_cons, list_contains_cons, (IH Hnd'), (py_eq_sym x c).
  change (@py_eq Club.t PyEq_Club c x) with (String.eqb (Club.id c) (Club.id x)).
  destruct (String.eqb_spec (Club.id c) (Club.id x)) as [He|Hne]; [|reflexivity].
  destruct (list_contains x r) eqn:E; [|reflexivity].
  exfalso. apply Hnotin. apply list_contains_spec in E. destruct E as (y & Hy & Hxy).
  apply String.eqb_eq in Hxy. rewrite He, Hxy. now apply in_map.
Qed.

Lemma matches_counted_twice (clubs : list Club.t) (ms : list Match.t) :
  NoDup (map Club.id clubs) ->
  Forall (fun m => Club.id (Match.club_home m) <> Club.id (Match.club_away m)) ms ->
  (forall m, In m ms -> list_contains (Match.club_home m) clubs = true
                        /\ list_contains (Match.club_away m) clubs = true) ->
  sum_over (fun c => len (filter (fun m => Match.involves_club m c) ms)) clubs
  = 2 * len ms.
Proof.
  intros Hnd Hne. induction Hne as [|m r Hm Hr IH]; intros Hin.
  - rewrite (sum_over_ext _ (fun _ => 0)); [now rewrite sum_over_const|]. reflexivity.
  - rewrite (sum_over_ext _
      (fun c => (Z.b2z (py_eq c (Match.club_home m)) + Z.b2z (py_eq c (Match.club_away m)))
                + len (filter (fun m => Match.involves_club m c) r))).
    + rewrite sum_over_add, sum_over_add, !sum_over_indicator by exact Hnd.
      destruct (Hin m (or_introl eq_refl)) as [-> ->].
      rewrite IH by (intros m' Hm'; apply Hin; now right).
      unfold len. simpl List.length. simpl Z.b2z. lia.
    + intros c _. cbn [filter]. unfold Match.involves_club at 1.
      change (@py_eq Club.t _) with Club.eq. unfold Club.eq.
      destruct (String.eqb_spec (Club.id c) (Club.id (Match.club_home m)));
        destruct (String.eqb_spec (Club.id c) (Club.id (Match.club_away m)));
        cbn [orb Z.b2z]; try congruence; unfold len; cbn [List.length]; lia.
Qed.

(** In a draw of well-constructed matches every match counts for exactly two
    clubs: the numbers of matches of the clubs of the draw add up to twice
    the number of matches. *)
Theorem matches_per_club_sum (d : Draw.t) (Hvalid : Forall Match.valid (Draw.matches d)) :
  sum_over (Draw.get_number_of_matches_for_club d) (Draw.get_all_clubs d)
  = 2 * len (Draw.matches d).
Proof.
  unfold Draw.get_number_of_matches_for_club, Draw.get_matches_for_club.
  apply matches_counted_twice.
  - apply all_clubs_NoDup.
  - apply Forall_forall. intros m Hm. rewrite Forall_forall in Hvalid.
    specialize (Hvalid m Hm). apply valid_inv in Hvalid. destruct Hvalid as [Hne _].
    now apply String.eqb_neq.
  - intros m Hm.
    rewrite !all_clubs_contains.
    split; apply existsb_exists; exists m; (split; [exact Hm|]);
      unfold Match.involves_club; rewrite !py_eq_refl; auto using orb_true_r.
Qed.

Lemma matches_per_club_sum_witness :
  Forall Match.valid (Draw.matches Examples.league12)
  /\ sum_over (Draw.get_number_of_matches_for_club Examples.league12)
              (Draw.get_all_clubs Examples.league12)
     = 2 * len (Draw.matches Examples.league12).
Proof.
  split; [exact valid_league12|].
  exact (matches_per_club_sum Examples.league12 valid_league12).
Defined.

(* ====================================================================== *)
(** * Part 25. What a passing draw looks like                               *)
(* ====================================================================== *)

(** A verdict [True] means an empty structural layer and seven satisfied
    hard rules. *)
Lemma validate_pass_inv (h : HashOrder) (cfg : config.t) (d : Draw.t)
    (errors warnings : list string) :
  DrawValidator.validate h cfg (DrawValidator.new h cfg) d = Ok (true, errors, warnings) ->
  errors = []
  /\ DrawValidator._check_internal_consistency h cfg d = []
  /\ UCLConstraints._check_total_matches cfg d = true
  /\ UCLConstraints._check_matches_per_club h cfg d = true
  /\ UCLConstraints._check_home_away_balance h cfg d = true
  /\ UCLConstraints._check_opponents_per_chapeau h cfg d = true
  /\ UCLConstraints._check_chapeau_home_away_distribution h cfg d = true
  /\ UCLConstraints._check_no_same_country_opponents h cfg d = true
  /\ UCLConstraints._check_max_two_from_same_foreign_country h cfg d = Ok true.
Proof.
  intros Hv.
  pose proof (build_constraints_return h cfg d) as Hret.
  rewrite (validate_spec h cfg (DrawValidator.new h cfg) d Hret) in Hv.
  cbv zeta in Hv. injection Hv as Hlen Herr _.
  rewrite Herr in Hlen. rewrite len_eqb_0 in Hlen.
  destruct errors; [|discriminate]. apply app_eq_nil in Herr. destruct Herr as [Hs Hh].
  assert (Hnil : map Constraint.name
                   (filter (violated_by d)
                      (UCLConstraints.get_hard_constraints
                         (DrawValidator.constraints (DrawValidator.new h cfg)))) = []).
  { destruct (map Constraint.name _); [reflexivity | discriminate]. }
  pose proof (proj1 (no_violated_names d _ (Forall_filter _ _ _ Hret)) Hnil) as Hall.
  split; [reflexivity|]. split; [exact Hs|].
  repeat split.
  - assert (H := Hall _ (or_introl eq_refl)). now injection H.
  - assert (H := Hall _ (or_intror (or_introl eq_refl))). now injection H.
  - assert (H := Hall _ (or_intror (or_intror (or_introl eq_refl)))). now injection H.
  - assert (H := Hall _ (or_intror (or_intror (or_intror (or_introl eq_refl))))).
    now injection H.
  - assert (H := Hall _ (or_intror (or_intror (or_intror (or_intror (or_introl eq_refl)))))).
    now injection H.
  - assert (H := Hall _ (or_intror (or_intror (or_intror (or_intror
                          (or_intror (or_introl eq_refl))))))).
    now injection H.
  - exact (Hall _ (or_intror (or_intror (or_intror (or_intror
                     (or_intror (or_intror (or_introl eq_refl)))))))).
Qed.

Lemma bounds_and_self_nil (cfg : config.t) (d : Draw.t) :
  DrawValidator.check_bounds_and_self cfg d = []
  <-> forall m, In m (Draw.matches d) ->
        Club.id (Match.club_home m) <> Club.id (Match.club_away m)
        /\ 1 <= Match.journee m <= config.JOURNEES cfg.
Proof.
  unfold DrawValidator.check_bounds_and_self. rewrite flat_map_nil.
  split; intros Hall m Hm; specialize (Hall m Hm).
  - apply app_eq_nil in Hall. destruct Hall as [H1 H2].
    change (py_eq (Club.id (Match.club_home m)) (Club.id (Match.club_away m)))
      with (String.eqb (Club.id (Match.club_home m)) (Club.id (Match.club_away m))) in H1.
    destruct (String.eqb_spec (Club.id (Match.club_home m)) (Club.id (Match.club_away m)));
      [discriminate|].
    destruct (Z.leb_spec 1 (Match.journee m)),
             (Z.leb_spec (Match.journee m) (config.JOURNEES cfg));
      try discriminate. split; [assumption | lia].
  - destruct Hall as [Hne [H1 H2]].
    change (py_eq (Club.id (Match.club_home m)) (Club.id (Match.club_away m)))
      with (String.eqb (Club.id (Match.club_home m)) (Club.id (Match.club_away m))).
    apply String.eqb_neq in Hne. rewrite Hne.
    apply Z.leb_le in H1, H2. now rewrite H1, H2.
Qed.

(** A configuration whose [MATCHES_PER_CLUB] is zero passes
    [validate_config], and the empty draw then passes [validate] without a
    single club. *)
Lemma no_match_configuration_passes :
  config.validate_config Examples.config_no_match = Ok true
  /\ DrawValidator.validate insertion_hash_order Examples.config_no_match
       (DrawValidator.new insertion_hash_order Examples.config_no_match)
       Examples.empty_draw
     = Ok (true, [], [])
  /\ len (Draw.get_all_clubs Examples.empty_draw) = 0
  /\ config.TOTAL_CLUBS Examples.config_no_match = 36.
Proof. repeat split; vm_compute; reflexivity. Qed.

(** No rule counts the clubs, yet a draw that passes [validate] has exactly
    [TOTAL_CLUBS] of them, provided that [MATCHES_PER_CLUB] is not zero and
    that [TOTAL_CLUBS * MATCHES_PER_CLUB] is even.  [validate_config] checks
    the second condition and not the first, which is needed
    ([no_match_configuration_passes]). *)
Theorem passing_draw_has_total_clubs (h : HashOrder) (cfg : config.t) (d : Draw.t)
    (errors warnings : list string)
    (Hpass : DrawValidator.validate h cfg (DrawValidator.new h cfg) d
             = Ok (true, errors, warnings))
    (Hmpc : config.MATCHES_PER_CLUB cfg <> 0)
    (Heven : (config.TOTAL_CLUBS cfg * config.MATCHES_PER_CLUB cfg) mod 2 = 0) :
  len (Draw.get_all_clubs d) = config.TOTAL_CLUBS cfg.
Proof.
  destruct (validate_pass_inv h cfg d errors warnings Hpass)
    as (_ & Hs & Htotal & Hper & _).
  unfold DrawValidator._check_internal_consistency in Hs.
  apply app_eq_nil in Hs. destruct Hs as [Ha _].
  pose proof (proj1 (bounds_and_self_nil cfg d) Ha) as Hms.
  assert (Hsum : sum_over (Draw.get_number_of_matches_for_club d) (Draw.get_all_clubs d)
                 = 2 * len (Draw.matches d)).
  { unfold Draw.get_number_of_matches_for_club, Draw.get_matches_for_club.
    apply matches_counted_twice.
    - apply all_clubs_NoDup.
    - apply Forall_forall. intros m Hm. apply (Hms m Hm).
    - intros m Hm. rewrite !all_clubs_contains.
      split; apply existsb_exists; exists m; (split; [exact Hm|]);
        unfold Match.involves_club; rewrite !py_eq_refl; auto using orb_true_r. }
  unfold UCLConstraints._check_matches_per_club in Hper. rewrite forallb_forall in Hper.
  rewrite (sum_over_ext _ (fun _ => config.MATCHES_PER_CLUB cfg)) in Hsum.
  - rewrite sum_over_const in Hsum.
    unfold UCLConstraints._check_total_matches, config.get_expected_total_matches in Htotal.
    apply Z.eqb_eq in Htotal. rewrite Htotal in Hsum.
    pose proof (Z.div_mod (config.TOTAL_CLUBS cfg * config.MATCHES_PER_CLUB cfg) 2
                  ltac:(lia)) as Hdm.
    rewrite Heven in Hdm.
    assert (Hm : config.MATCHES_PER_CLUB cfg * len (Draw.get_all_clubs d)
                 = config.MATCHES_PER_CLUB cfg * config.TOTAL_CLUBS cfg) by lia.
    apply Z.mul_reg_l in Hm; assumption.
  - intros c Hc. apply Z.eqb_eq. apply Hper. now apply iter_all_clubs_In.
Qed.

Lemma passing_draw_has_total_clubs_witness :
  DrawValidator.validate insertion_hash_order Examples.config12
    (DrawValidator.new insertion_hash_order Examples.config12) Examples.league12
  = Ok (true, [], [])
  /\ config.MATCHES_PER_CLUB Examples.config12 <> 0
  /\ (config.TOTAL_CLUBS Examples.config12 * config.MATCHES_PER_CLUB Examples.config12)
     mod 2 = 0
  /\ len (Draw.get_all_clubs Examples.league12) = 12.
Proof.
  assert (Hp : DrawValidator.validate insertion_hash_order Examples.config12
                 (DrawValidator.new insertion_hash_order Examples.config12)
                 Examples.league12 = Ok (true, [], [])) by (vm_compute; reflexivity).
  assert (Hm : config.MATCHES_PER_CLUB Examples.config12 <> 0) by discriminate.
  assert (He : (config.TOTAL_CLUBS Examples.config12
                * config.MATCHES_PER_CLUB Examples.config12) mod 2 = 0) by reflexivity.
  split; [exact Hp|]. split; [exact Hm|]. split; [exact He|].
  exact (passing_draw_has_total_clubs insertion_hash_order Examples.config12
           Examples.league12 [] [] Hp Hm He).
Defined.

(* ====================================================================== *)
(** * Part 26. How the layers overlap                                       *)
(* ====================================================================== *)

Lemma sum_over_indicator_int_absent (x : Z) (l : list Z) :
  ~ In x l -> sum_over (fun k => Z.b2z (x =? k)) l = 0.
Proof.
  induction l as [|k r IH]; intros Hnot; [reflexivity|].
  rewrite sum_over_cons, IH by (intros Hin; apply Hnot; now right).
  destruct (Z.eqb_spec x k) as [->|_]; [exfalso; apply Hnot; now left | reflexivity].
Qed.

Lemma sum_over_indicator_int (x : Z) (l : list Z) :
  NoDup l -> In x l -> sum_over (fun k => Z.b2z (x =? k)) l = 1.
Proof.
  induction 1 as [|k r Hnotin Hnd IH]; intros Hin; [contradiction|].
  rewrite sum_over_cons. destruct (Z.eqb_spec x k) as [->|Hne].
  - now rewrite sum_over_indicator_int_absent.
  - destruct Hin as [->|Hin]; [contradiction|]. now rewrite IH.
Qed.

(** A list splits by the key of its elements. *)
Lemma len_by_key {A : Type} (key : A -> Z) (keys : list Z) (l : list A) :
  NoDup keys -> (forall x, In x l -> In (key x) keys) ->
  len l = sum_over (fun k => len (filter (fun x => key x =? k) l)) keys.
Proof.
  intros Hnd. induction l as [|x r IH]; intros Hkeys.
  - rewrite (sum_over_ext _ (fun _ => 0)); [now rewrite sum_over_const|]. reflexivity.
  - rewrite (sum_over_ext _
      (fun k => Z.b2z (key x =? k) + len (filter (fun x => key x =? k) r))).
    + rewrite sum_over_add, sum_over_indicator_int, <- IH; auto.
      * unfold len. simpl List.length. lia.
      * intros y Hy. apply Hkeys. now right.
      * apply Hkeys. now left.
    + intros k _. cbn [filter]. destruct (key x =? k); unfold len; cbn [List.length Z.b2z]; lia.
Qed.

Lemma filter_filter {A : Type} (f g : A -> bool) (l : list A) :
  filter g (filter f l) = filter (fun x => f x && g x) l.
Proof.
  induction l as [|x r IH]; [reflexivity|]. cbn [filter].
  destruct (f x); cbn [filter andb]; [destruct (g x)|]; now rewrite IH.
Qed.

Lemma range_1_to_len (n : Z) : 0 <= n -> len (DrawValidator.range_1_to n) = n.
Proof.
  intros Hn. unfold len, DrawValidator.range_1_to. rewrite length_map, length_seq. lia.
Qed.

(** An empty structural layer already settles three of the hard rules: the
    total is right, every club has its home and away counts, and every club
    plays exactly [JOURNEES] matches, so that rule 2 holds whenever
    [MATCHES_PER_CLUB] is [JOURNEES]. *)
Theorem structural_layer_implies_rules (h : HashOrder) (cfg : config.t) (d : Draw.t)
    (Hs : DrawValidator._check_internal_consistency h cfg d = []) :
  UCLConstraints._check_total_matches cfg d = true
  /\ UCLConstraints._check_home_away_balance h cfg d = true
  /\ (forall club, In club (Draw.iter_all_clubs h d) ->
        Draw.get_number_of_matches_for_club d club = config.JOURNEES cfg)
  /\ (config.MATCHES_PER_CLUB cfg = config.JOURNEES cfg ->
      UCLConstraints._check_matches_per_club h cfg d = true).
Proof.
  unfold DrawValidator._check_internal_consistency in Hs.
  apply app_eq_nil in Hs. destruct Hs as [Ha Hs].
  apply app_eq_nil in Hs. destruct Hs as [Hb Hs].
  apply app_eq_nil in Hs. destruct Hs as [Hc Hs].
  apply app_eq_nil in Hs. destruct Hs as [_ Hd].
  pose proof (proj1 (bounds_and_self_nil cfg d) Ha) as Hms.
  assert (Hids : Forall (fun m => Club.id (Match.club_home m) <> Club.id (Match.club_away m))
                        (Draw.matches d)).
  { apply Forall_forall. intros m Hm. apply (Hms m Hm). }
  pose proof (proj1 (one_match_per_round_ids h cfg d Hids) Hc) as Hround.
  assert (Hper : forall club, In club (Draw.iter_all_clubs h d) ->
            Draw.get_number_of_matches_for_club d club = config.JOURNEES cfg).
  { intros club Hin.
    assert (Hone : 1 <= Draw.get_number_of_matches_for_club d club).
    { apply (club_of_draw_has_match h). apply list_contains_spec.
      exists club. split; [exact Hin | apply py_eq_refl]. }
    unfold Draw.get_number_of_matches_for_club, Draw.get_matches_for_club in *.
    assert (Hj : 0 <= config.JOURNEES cfg).
    { destruct (filter (fun m => Match.involves_club m club) (Draw.matches d))
        as [|m r] eqn:E; [unfold len in Hone; simpl in Hone; lia|].
      assert (Hm : In m (Draw.matches d)).
      { assert (Hf : In m (filter (fun m => Match.involves_club m club) (Draw.matches d)))
          by (rewrite E; now left).
        now apply filter_In in Hf. }
      pose proof (Hms m Hm). lia. }
    rewrite (len_by_key Match.journee (DrawValidator.range_1_to (config.JOURNEES cfg))).
    - rewrite (sum_over_ext _ (fun _ => 1)).
      + rewrite sum_over_const, (range_1_to_len _ Hj). lia.
      + intros j Hjr. rewrite filter_filter. apply (Hround club Hin).
        now apply range_1_to_In.
    - apply range_1_to_NoDup.
    - intros m Hm. apply filter_In in Hm. apply range_1_to_In. apply (Hms m (proj1 Hm)). }
  split; [|split; [|split; [exact Hper|]]].
  - unfold DrawValidator.check_total in Hb. cbv zeta in Hb.
    unfold UCLConstraints._check_total_matches.
    destruct (len (Draw.matches d) =? config.get_expected_total_matches cfg);
      [reflexivity | discriminate].
  - unfold DrawValidator.check_home_away_counts in Hd. cbv zeta in Hd.
    rewrite flat_map_nil in Hd.
    unfold UCLConstraints._check_home_away_balance. apply forallb_forall.
    intros club Hin. specialize (Hd club Hin).
    rewrite home_count_is_home_matches, away_count_is_away_matches in Hd.
    apply app_eq_nil in Hd. destruct Hd as [Hh Haw]. cbv zeta.
    destruct (_ =? config.HOME_MATCHES_PER_CLUB cfg); [|discriminate].
    destruct (_ =? config.AWAY_MATCHES_PER_CLUB cfg); [reflexivity | discriminate].
  - intros Heq. unfold UCLConstraints._check_matches_per_club. apply forallb_forall.
    intros club Hin. apply Z.eqb_eq. rewrite Heq. now apply Hper.
Qed.

Lemma structural_layer_implies_rules_witness :
  DrawValidator._check_internal_consistency insertion_hash_order Examples.config12
    Examples.league12 = []
  /\ UCLConstraints._check_total_matches Examples.config12 Examples.league12 = true
  /\ forall club, In club (Draw.iter_all_clubs insertion_hash_order Examples.league12) ->
       Draw.get_number_of_matches_for_club Examples.league12 club = 8.
Proof.
  assert (Hs : DrawValidator._check_internal_consistency insertion_hash_order
                 Examples.config12 Examples.league12 = []) by (vm_compute; reflexivity).
  split; [exact Hs|].
  pose proof (structural_layer_implies_rules insertion_hash_order Examples.config12
                Examples.league12 Hs) as (H1 & _ & H3 & _).
  split; [exact H1 | exact H3].
Defined.

Lemma Ok_triple_inj {A B C : Type} (a a' : A) (b b' : B) (c c' : C) :
  Ok (a, b, c) = Ok (a', b', c') -> a = a' /\ b = b' /\ c = c'.
Proof. intros H. injection H. auto. Qed.

Lemma Ok_pair_inj {A B : Type} (a a' : A) (b b' : B) :
  Ok (a, b) = Ok (a', b') -> a = a' /\ b = b'.
Proof. intros H. injection H. auto. Qed.

(** [validate] returns [(True, [], [])] exactly when the structural layer is
    empty and [verify_all_constraints] returns [(True, [])]: the hard and the
    soft rules together are all the registered rules. *)
Theorem validate_clean_iff (h : HashOrder) (cfg : config.t) (d : Draw.t) :
  DrawValidator.validate h cfg (DrawValidator.new h cfg) d = Ok (true, [], [])
  <-> DrawValidator._check_internal_consistency h cfg d = []
      /\ UCLConstraints.verify_all_constraints (UCLConstraints.new h cfg) d = Ok (true, []).
Proof.
  pose proof (build_constraints_return h cfg d) as Hret.
  rewrite (validate_spec h cfg (DrawValidator.new h cfg) d Hret). cbv zeta.
  unfold UCLConstraints.verify_all_constraints.
  change (UCLConstraints.constraints (UCLConstraints.new h cfg))
    with (UCLConstraints._build_constraints h cfg).
  rewrite (verify_loop_spec d _ Hret). cbn [bind app].
  change (DrawValidator.constraints (DrawValidator.new h cfg))
    with (UCLConstraints.new h cfg).
  set (all := UCLConstraints._build_constraints h cfg) in *.
  set (hard := UCLConstraints.get_hard_constraints (UCLConstraints.new h cfg)).
  set (soft := UCLConstraints.get_soft_constraints (UCLConstraints.new h cfg)).
  pose proof (no_violated_names d all Hret) as Hall.
  pose proof (no_violated_names d hard (Forall_filter _ _ _ Hret)) as Hhard.
  pose proof (no_violated_names d soft (Forall_filter _ _ _ Hret)) as Hsoft.
  assert (Hsplit : (forall c, In c all -> Constraint.is_satisfied c d = Ok true)
                   <-> (forall c, In c hard -> Constraint.is_satisfied c d = Ok true)
                       /\ (forall c, In c soft -> Constraint.is_satisfied c d = Ok true)).
  { split.
    - intros H. split; intros c Hc; apply H; apply filter_In in Hc; apply Hc.
    - intros [Hh Hsf] c Hc. subst all. unfold UCLConstraints._build_constraints in Hc.
      simpl in Hc.
      repeat (destruct Hc as [<-|Hc]; [first [apply Hh; simpl; tauto | apply Hsf; simpl; tauto]|]).
      contradiction. }
  split.
  - intros Hv. apply Ok_triple_inj in Hv. destruct Hv as (Hlen & Herr & Hwarn).
    apply app_eq_nil in Herr. destruct Herr as [Hs Hh].
    assert (Hhv : map Constraint.name (filter (violated_by d) hard) = []).
    { destruct (map Constraint.name (filter (violated_by d) hard));
        [reflexivity | discriminate]. }
    assert (Hsv : map Constraint.name (filter (violated_by d) soft) = []).
    { destruct (map Constraint.name (filter (violated_by d) soft));
        [reflexivity | discriminate]. }
    split; [exact Hs|].
    rewrite (proj2 Hall (proj2 Hsplit (conj (proj1 Hhard Hhv) (proj1 Hsoft Hsv)))).
    reflexivity.
  - intros [Hs Hv]. apply Ok_pair_inj in Hv. destruct Hv as [Hlen Hnil].
    destruct (proj1 Hsplit (proj1 Hall Hnil)) as [Hh Hsf].
    rewrite Hs, (proj2 Hhard Hh), (proj2 Hsoft Hsf). reflexivity.
Qed.

(* ====================================================================== *)
(** * Part 27. The configuration and the rules it drives                    *)
(* ====================================================================== *)

Lemma sum_values_sum_over (d : dict Z Z) : config.sum_values d = sum_over snd d.
Proof.
  unfold config.sum_values.
  assert (G : forall a, fold_left (fun acc kv => acc + snd kv) d a = a + sum_over snd d).
  { induction d as [|kv r IH]; intros a; simpl; [lia|]. rewrite IH. unfold sum_over. lia. }
  now rewrite G.
Qed.

Lemma list_contains_In_int (k : Z) (l : list Z) : list_contains k l = true <-> In k l.
Proof.
  rewrite list_contains_spec. split.
  - intros (y & Hy & He). apply Z.eqb_eq in He. now subst.
  - intros Hin. exists k. split; [exact Hin | apply Z.eqb_refl].
Qed.

Lemma same_keys_spec {V W : Type} (d1 : dict Z V) (d2 : dict Z W) :
  config.same_keys d1 d2 = true <-> forall k, In k (map fst d1) <-> In k (map fst d2).
Proof.
  unfold config.same_keys. rewrite andb_true_iff, !forallb_forall. split.
  - intros [H1 H2] k. split; intros Hk; apply list_contains_In_int; auto.
  - intros Hall. split; intros k Hk; apply list_contains_In_int; now apply Hall.
Qed.

Lemma distribution_loop_spec (c : config.t) (items : dict Z (Z * Z)) :
  forall total_home total_away r,
    config.distribution_loop c items total_home total_away = Ok r
    <-> (forall chapeau home away, In (chapeau, (home, away)) items ->
           home + away = dict_get (config.OPPONENTS_PER_CHAPEAU c) chapeau 0)
        /\ r = (total_home + sum_over (fun it => fst (snd it)) items,
                total_away + sum_over (fun it => snd (snd it)) items).
Proof.
  induction items as [|[p [hm aw]] rest IH]; intros th ta r;
    cbn [config.distribution_loop].
  - unfold sum_over. cbn [fold_right]. rewrite !Z.add_0_r. split.
    + intros Hr. injection Hr as <-. split; [intros ? ? ? [] | reflexivity].
    + intros [_ ->]. reflexivity.
  - destruct (Z.eqb_spec (hm + aw) (dict_get (config.OPPONENTS_PER_CHAPEAU c) p 0))
      as [He|Hne]; cbn [negb].
    + rewrite IH. rewrite !sum_over_cons. cbn [fst snd]. split.
      * intros [Hall ->]. split.
        -- intros q x y [Heq|Hin]; [injection Heq as <- <- <-; exact He | eauto].
        -- f_equal; lia.
      * intros [Hall ->]. split; [intros q x y Hin; apply (Hall q x y); now right|].
        f_equal; lia.
    + split; [discriminate|]. intros [Hall _]. exfalso. apply Hne.
      apply (Hall p hm aw). now left.
Qed.

Lemma validate_config_iff (c : config.t) :
  config.validate_config c = Ok true
   <-> sum_over snd (config.CLUBS_PER_CHAPEAU c) = config.TOTAL_CLUBS c
       /\ (forall k, In k (map fst (config.CLUBS_PER_CHAPEAU c))
                     <-> In k (map fst (config.OPPONENTS_PER_CHAPEAU c)))
       /\ (forall k, In k (map fst (config.OPPONENTS_PER_CHAPEAU c))
                     <-> In k (map fst (config.DISTRIBUTION_CHAPEAUX c)))
       /\ sum_over snd (config.OPPONENTS_PER_CHAPEAU c) = config.MATCHES_PER_CLUB c
       /\ config.HOME_MATCHES_PER_CLUB c + config.AWAY_MATCHES_PER_CLUB c
          = config.MATCHES_PER_CLUB c
       /\ (forall chapeau home away,
             In (chapeau, (home, away)) (config.DISTRIBUTION_CHAPEAUX c) ->
             home + away = dict_get (config.OPPONENTS_PER_CHAPEAU c) chapeau 0)
       /\ sum_over (fun it => fst (snd it)) (config.DISTRIBUTION_CHAPEAUX c)
          = config.HOME_MATCHES_PER_CLUB c
       /\ sum_over (fun it => snd (snd it)) (config.DISTRIBUTION_CHAPEAUX c)
          = config.AWAY_MATCHES_PER_CLUB c
       /\ (config.TOTAL_CLUBS c * config.MATCHES_PER_CLUB c) mod 2 = 0.
Proof.
  unfold config.validate_config. cbv zeta. rewrite !sum_values_sum_over.
  destruct (Z.eqb_spec (sum_over snd (config.CLUBS_PER_CHAPEAU c)) (config.TOTAL_CLUBS c))
    as [H1|H1]; cbn [negb]; [|split; [discriminate | tauto]].
  destruct (config.same_keys (config.CLUBS_PER_CHAPEAU c) (config.OPPONENTS_PER_CHAPEAU c))
    eqn:K1; cbn [andb negb].
  2:{ split; [discriminate|]. intros (_ & Hk & _).
      pose proof (proj2 (same_keys_spec _ _) Hk). congruence. }
  destruct (config.same_keys (config.OPPONENTS_PER_CHAPEAU c)
              (config.DISTRIBUTION_CHAPEAUX c)) eqn:K2; cbn [negb].
  2:{ split; [discriminate|]. intros (_ & _ & Hk & _).
      pose proof (proj2 (same_keys_spec _ _) Hk). congruence. }
  pose proof (proj1 (same_keys_spec _ _) K1) as K1'.
  pose proof (proj1 (same_keys_spec _ _) K2) as K2'.
  destruct (Z.eqb_spec (sum_over snd (config.OPPONENTS_PER_CHAPEAU c))
              (config.MATCHES_PER_CLUB c)) as [H2|H2]; cbn [negb];
    [|split; [discriminate | tauto]].
  destruct (Z.eqb_spec (config.HOME_MATCHES_PER_CLUB c + config.AWAY_MATCHES_PER_CLUB c)
              (config.MATCHES_PER_CLUB c)) as [H3|H3]; cbn [negb];
    [|split; [discriminate | tauto]].
  destruct (config.distribution_loop c (config.DISTRIBUTION_CHAPEAUX c) 0 0)
    as [[th ta]|e] eqn:L; cbn [bind].
  2:{ split; [discriminate|]. intros (_ & _ & _ & _ & _ & Hd & _). exfalso.
      assert (Hok : config.distribution_loop c (config.DISTRIBUTION_CHAPEAUX c) 0 0
                    = Ok (0 + sum_over (fun it => fst (snd it)) (config.DISTRIBUTION_CHAPEAUX c),
                          0 + sum_over (fun it => snd (snd it)) (config.DISTRIBUTION_CHAPEAUX c))).
      { apply distribution_loop_spec. auto. }
      congruence. }
  apply distribution_loop_spec in L. destruct L as [Hd Hr].
  injection Hr as -> ->.
  destruct (Z.eqb_spec (sum_over (fun it => fst (snd it)) (config.DISTRIBUTION_CHAPEAUX c))
              (config.HOME_MATCHES_PER_CLUB c)) as [H4|H4]; cbn [negb orb];
    [|split; [discriminate | tauto]].
  destruct (Z.eqb_spec (sum_over (fun it => snd (snd it)) (config.DISTRIBUTION_CHAPEAUX c))
              (config.AWAY_MATCHES_PER_CLUB c)) as [H5|H5]; cbn [negb];
    [|split; [discriminate | tauto]].
  destruct (Z.eqb_spec ((config.TOTAL_CLUBS c * config.MATCHES_PER_CLUB c) mod 2) 0)
    as [H6|H6]; cbn [negb]; [|split; [discriminate | tauto]].
  split; [intros _; tauto | reflexivity].
Qed.

(** [validate_config] returns [True] exactly when the configuration is
    coherent: the pots hold all the clubs, the three per-pot dicts have the
    same keys, the opponents per pot add up to the matches per club, as do
    the home and away counts, each pot's home/away split adds up to its
    opponents, the splits add up to the home and away counts, and the total
    of club-matches is even.  It never returns [False]: it raises instead.
    The values of [config.py] pass. *)
Theorem validate_config_spec (c : config.t) :
  (config.validate_config c = Ok true
   <-> sum_over snd (config.CLUBS_PER_CHAPEAU c) = config.TOTAL_CLUBS c
       /\ (forall k, In k (map fst (config.CLUBS_PER_CHAPEAU c))
                     <-> In k (map fst (config.OPPONENTS_PER_CHAPEAU c)))
       /\ (forall k, In k (map fst (config.OPPONENTS_PER_CHAPEAU c))
                     <-> In k (map fst (config.DISTRIBUTION_CHAPEAUX c)))
       /\ sum_over snd (config.OPPONENTS_PER_CHAPEAU c) = config.MATCHES_PER_CLUB c
       /\ config.HOME_MATCHES_PER_CLUB c + config.AWAY_MATCHES_PER_CLUB c
          = config.MATCHES_PER_CLUB c
       /\ (forall chapeau home away,
             In (chapeau, (home, away)) (config.DISTRIBUTION_CHAPEAUX c) ->
             home + away = dict_get (config.OPPONENTS_PER_CHAPEAU c) chapeau 0)
       /\ sum_over (fun it => fst (snd it)) (config.DISTRIBUTION_CHAPEAUX c)
          = config.HOME_MATCHES_PER_CLUB c
       /\ sum_over (fun it => snd (snd it)) (config.DISTRIBUTION_CHAPEAUX c)
          = config.AWAY_MATCHES_PER_CLUB c
       /\ (config.TOTAL_CLUBS c * config.MATCHES_PER_CLUB c) mod 2 = 0)
  /\ config.validate_config c <> Ok false
  /\ config.validate_config config.default = Ok true.
Proof.
  split; [apply validate_config_iff|]. split; [|reflexivity].
  unfold config.validate_config. cbv zeta.
  repeat match goal with
         | |- (if ?b then _ else _) <> _ => destruct b; [discriminate|]
         end.
  destruct (config.distribution_loop c (config.DISTRIBUTION_CHAPEAUX c) 0 0)
    as [[th ta]|e]; cbn [bind]; [|discriminate].
  repeat match goal with
         | |- (if ?b then _ else _) <> _ => destruct b; [discriminate|]
         end.
  discriminate.
Qed.

Lemma sum_over_map {A B : Type} (f : B -> Z) (g : A -> B) (l : list A) :
  sum_over f (map g l) = sum_over (fun x => f (g x)) l.
Proof.
  induction l as [|x r IH]; [reflexivity|]. simpl map. now rewrite !sum_over_cons, IH.
Qed.

Lemma chapeau_value_in_range (c : Chapeau) : In (Chapeau_value c) [1; 2; 3; 4].
Proof. destruct c; simpl; auto. Qed.

Lemma four_pots_NoDup : NoDup [1; 2; 3; 4].
Proof.
  repeat (constructor; [simpl; intros H;
    repeat (destruct H as [H|H]; [discriminate H|]); exact H|]). constructor.
Qed.

(** Under a configuration that [validate_config] accepts and whose home/away
    split lists the four pots, rule 5 implies rule 3: a club with the right
    home and away matches against every pot has the right home and away
    totals.  In a draw of well-constructed matches it then also has the
    right number of matches, rule 2. *)
Theorem distribution_implies_balance (h : HashOrder) (cfg : config.t) (d : Draw.t)
    (Hcfg : config.validate_config cfg = Ok true)
    (Hpots : Permutation (map fst (config.DISTRIBUTION_CHAPEAUX cfg)) [1; 2; 3; 4])
    (Hrule : UCLConstraints._check_chapeau_home_away_distribution h cfg d = true) :
  UCLConstraints._check_home_away_balance h cfg d = true
  /\ (Forall Match.valid (Draw.matches d) ->
      UCLConstraints._check_matches_per_club h cfg d = true).
Proof.
  apply (proj1 (validate_config_iff cfg)) in Hcfg.
  destruct Hcfg as (_ & _ & _ & _ & Hsum & _ & Hhome & Haway & _).
  unfold UCLConstraints._check_chapeau_home_away_distribution in Hrule.
  rewrite forallb_forall in Hrule.
  assert (Hclub : forall club, In club (Draw.iter_all_clubs h d) ->
            Draw.get_number_of_home_matches_for_club d club = config.HOME_MATCHES_PER_CLUB cfg
            /\ Draw.get_number_of_away_matches_for_club d club
               = config.AWAY_MATCHES_PER_CLUB cfg).
  { intros club Hin. specialize (Hrule club Hin). rewrite forallb_forall in Hrule.
    unfold Draw.get_number_of_home_matches_for_club,
      Draw.get_number_of_away_matches_for_club.
    split.
    - rewrite (len_by_key (fun m => Chapeau_value (Club.chapeau (Match.club_away m)))
                 [1; 2; 3; 4] _ four_pots_NoDup)
        by (intros; apply chapeau_value_in_range).
      rewrite <- (sum_over_perm _ _ _ Hpots), sum_over_map, <- Hhome.
      apply sum_over_ext. intros [p [eh ea]] Hit. specialize (Hrule _ Hit).
      cbv beta iota zeta in Hrule. apply andb_true_iff in Hrule.
      destruct Hrule as [Hh _]. apply Z.eqb_eq in Hh. exact Hh.
    - rewrite (len_by_key (fun m => Chapeau_value (Club.chapeau (Match.club_home m)))
                 [1; 2; 3; 4] _ four_pots_NoDup)
        by (intros; apply chapeau_value_in_range).
      rewrite <- (sum_over_perm _ _ _ Hpots), sum_over_map, <- Haway.
      apply sum_over_ext. intros [p [eh ea]] Hit. specialize (Hrule _ Hit).
      cbv beta iota zeta in Hrule. apply andb_true_iff in Hrule.
      destruct Hrule as [_ Ha]. apply Z.eqb_eq in Ha. exact Ha. }
  split.
  - unfold UCLConstraints._check_home_away_balance. apply forallb_forall.
    intros club Hin. destruct (Hclub club Hin) as [Hh Ha]. cbv zeta.
    rewrite Hh, Ha, !Z.eqb_refl. reflexivity.
  - intros Hvalid. unfold UCLConstraints._check_matches_per_club. apply forallb_forall.
    intros club Hin. destruct (Hclub club Hin) as [Hh Ha]. apply Z.eqb_eq.
    pose proof (matches_split_valid d club Hvalid). lia.
Qed.

Lemma distribution_implies_balance_witness :
  config.validate_config config.default = Ok true
  /\ Permutation (map fst (config.DISTRIBUTION_CHAPEAUX config.default)) [1; 2; 3; 4]
  /\ UCLConstraints._check_chapeau_home_away_distribution
       insertion_hash_order config.default Examples.league12 = true
  /\ UCLConstraints._check_home_away_balance
       insertion_hash_order config.default Examples.league12 = true.
Proof.
  assert (H1 : config.validate_config config.default = Ok true) by reflexivity.
  assert (H2 : Permutation (map fst (config.DISTRIBUTION_CHAPEAUX config.default))
                           [1; 2; 3; 4]) by apply Permutation_refl.
  assert (H3 : UCLConstraints._check_chapeau_home_away_distribution
                 insertion_hash_order config.default Examples.league12 = true)
    by (vm_compute; reflexivity).
  split; [exact H1|]. split; [exact H2|]. split; [exact H3|].
  exact (proj1 (distribution_implies_balance insertion_hash_order config.default
                  Examples.league12 H1 H2 H3)).
Defined.

(* ====================================================================== *)
(** * Part 28. The club index of the loader                                 *)
(* ====================================================================== *)

Lemma dict_set_absent {K V : Type} `{PyEq K} (d : dict K V) (k : K) (v : V) :
  dict_lookup d k = None -> dict_set d k v = d ++ [(k, v)].
Proof.
  induction d as [|[k' v'] r IH]; simpl; [reflexivity|].
  destruct (py_eq k' k); [discriminate|]. intros Hn. now rewrite IH.
Qed.

Lemma index_of_lookup_None (clubs : list Club.t) (k : string) :
  dict_lookup (index_of clubs) k = None <-> ~ In k (map Club.id clubs).
Proof.
  induction clubs as [|c r IH]; simpl; [tauto|].
  change (py_eq (Club.id c) k) with (String.eqb (Club.id c) k).
  destruct (String.eqb_spec (Club.id c) k) as [He|Hne].
  - split; [discriminate | intros Hn; exfalso; apply Hn; now left].
  - rewrite IH. tauto.
Qed.

Lemma index_of_lookup (clubs : list Club.t) (c : Club.t) :
  NoDup (map Club.id clubs) -> In c clubs ->
  dict_lookup (index_of clubs) (Club.id c) = Some c.
Proof.
  induction clubs as [|x r IH]; intros Hnd Hin; [contradiction|].
  simpl in Hnd. inversion Hnd as [|? ? Hnotin Hnd']; subst. simpl.
  change (py_eq (Club.id x) (Club.id c)) with (String.eqb (Club.id x) (Club.id c)).
  destruct Hin as [->|Hin]; [now rewrite String.eqb_refl|].
  destruct (String.eqb_spec (Club.id x) (Club.id c)) as [He|_]; [|now apply IH].
  exfalso. apply Hnotin. rewrite He. now apply in_map.
Qed.

Lemma index_loop_spec (rest : list Club.t) : forall pre,
  (forall idx, SolutionLoader.index_loop rest (index_of pre) = SolutionLoader.Loaded idx ->
     (NoDup (map Club.id pre) -> NoDup (map Club.id (pre ++ rest)))
     /\ idx = index_of (pre ++ rest))
  /\ (NoDup (map Club.id (pre ++ rest)) ->
      SolutionLoader.index_loop rest (index_of pre)
      = SolutionLoader.Loaded (index_of (pre ++ rest)))
  /\ (forall a c b, rest = a ++ c :: b ->
        NoDup (map Club.id (pre ++ a)) -> In (Club.id c) (map Club.id (pre ++ a)) ->
        SolutionLoader.index_loop rest (index_of pre)
        = SolutionLoader.DrawImportError ("ID de club en doublon: " ++ Club.id c)%string).
Proof.
  induction rest as [|x r IH]; intros pre.
  - split; [|split].
    + simpl. intros idx Hl. injection Hl as <-. rewrite app_nil_r. auto.
    + intros _. simpl. now rewrite app_nil_r.
    + intros [|? ?] c b Heq; discriminate.
  - cbn [SolutionLoader.index_loop]. unfold SolutionLoader.has_key.
    destruct (dict_lookup (index_of pre) (Club.id x)) as [y|] eqn:E.
    + assert (Hin : In (Club.id x) (map Club.id pre)).
      { destruct (in_dec string_dec (Club.id x) (map Club.id pre)) as [Hi|Hn]; [exact Hi|].
        apply index_of_lookup_None in Hn. congruence. }
      split; [intros idx Hl; discriminate|]. split.
      * intros Hnd. exfalso. rewrite map_app in Hnd. simpl in Hnd.
        apply NoDup_remove_2 in Hnd. apply Hnd. apply in_or_app. now left.
      * intros a c b Heq Hnd Hc. destruct a as [|a0 a'].
        -- simpl in Heq. injection Heq as -> ->. reflexivity.
        -- simpl in Heq. injection Heq as -> ->. exfalso.
           rewrite map_app in Hnd. simpl in Hnd.
           apply NoDup_remove_2 in Hnd. apply Hnd. apply in_or_app. now left.
    + assert (Hnot : ~ In (Club.id x) (map Club.id pre)) by (now apply index_of_lookup_None).
      rewrite (dict_set_absent _ _ _ E).
      replace (index_of pre ++ [(Club.id x, x)]) with (index_of (pre ++ [x]))
        by (unfold index_of; now rewrite map_app).
      destruct (IH (pre ++ [x])) as (IH1 & IH2 & IH3).
      rewrite <- !app_assoc in IH2. simpl in IH2.
      split; [|split].
      * intros idx Hl. destruct (IH1 idx Hl) as [Hnd ->].
        rewrite <- !app_assoc in *. simpl in *. split; [|reflexivity].
        intros Hpre. apply Hnd. rewrite map_app. simpl.
        apply NoDup_app; [exact Hpre | repeat constructor; intros [] |].
        intros i Hi [<-|[]]. contradiction.
      * exact IH2.
      * intros a c b Heq Hnd Hc. destruct a as [|a0 a'].
        -- simpl in Heq. injection Heq as -> ->. rewrite app_nil_r in Hc. contradiction.
        -- simpl in Heq. injection Heq as -> ->.
           apply (IH3 a' c b eq_refl); now rewrite <- app_assoc.
Qed.

(** [_build_club_index] returns an index exactly for clubs with pairwise
    different ids; the index then lists every club under its id, in the
    order of the list, so that looking up the id of a listed club returns
    that club.  Otherwise it raises, naming the first id that repeats. *)
Theorem build_club_index_spec (clubs : list Club.t) :
  (NoDup (map Club.id clubs) ->
   SolutionLoader._build_club_index clubs = SolutionLoader.Loaded (index_of clubs))
  /\ (forall idx, SolutionLoader._build_club_index clubs = SolutionLoader.Loaded idx ->
        NoDup (map Club.id clubs)
        /\ idx = index_of clubs
        /\ forall c, In c clubs -> dict_lookup idx (Club.id c) = Some c)
  /\ (forall a c b, clubs = a ++ c :: b -> NoDup (map Club.id a) ->
        In (Club.id c) (map Club.id a) ->
        SolutionLoader._build_club_index clubs
        = SolutionLoader.DrawImportError ("ID de club en doublon: " ++ Club.id c)%string).
Proof.
  unfold SolutionLoader._build_club_index.
  destruct (index_loop_spec clubs []) as (H1 & H2 & H3). simpl in H1, H2, H3.
  split; [exact H2|]. split; [|exact H3].
  intros idx Hl. destruct (H1 idx Hl) as [Hnd ->].
  specialize (Hnd (NoDup_nil _)).
  split; [exact Hnd|]. split; [reflexivity|].
  intros c Hc. now apply index_of_lookup.
Qed.

(* ====================================================================== *)
(** * Part 29. Clubs grouped by country and by pot                          *)
(* ====================================================================== *)

(** In the dict filled by [d[k].append(x)] over a list, each key holds the
    elements with that key, in the order of the list; the keys stay pairwise
    different and no key holds an empty list. *)
Lemma group_fold {A K : Type} `{PyEq K} (key : A -> K) (l : list A) :
  forall (g : dict K (list A)),
    (forall q,
       dict_get (fold_left (fun g x => dict_set g (key x) (dict_get g (key x) [] ++ [x])) l g)
                q []
       = dict_get g q [] ++ filter (fun x => py_eq (key x) q) l)
    /\ (dict_wf g ->
        dict_wf (fold_left (fun g x => dict_set g (key x) (dict_get g (key x) [] ++ [x])) l g))
    /\ (Forall (fun kv => snd kv <> []) g ->
        Forall (fun kv => snd kv <> [])
          (fold_left (fun g x => dict_set g (key x) (dict_get g (key x) [] ++ [x])) l g)).
Proof.
  induction l as [|x r IH]; intros g; simpl fold_left.
  - split; [intros q; now rewrite app_nil_r | auto].
  - destruct (IH (dict_set g (key x) (dict_get g (key x) [] ++ [x]))) as (IH1 & IH2 & IH3).
    split; [|split].
    + intros q. rewrite IH1, dict_get_set. cbn [filter].
      destruct (py_eq (key x) q) eqn:E.
      * rewrite (dict_get_congr g (key x) q [] E). now rewrite <- app_assoc.
      * reflexivity.
    + intros Hwf. apply IH2. now apply dict_set_wf.
    + intros Hne. apply IH3. clear -Hne.
      generalize (dict_get g (key x) [] ++ [x]) (app_cons_not_nil (dict_get g (key x) []) [] x).
      intros v Hv. induction g as [|[k' v'] g' IHg]; simpl.
      * constructor; [simpl; congruence | constructor].
      * inversion Hne; subst. destruct (py_eq k' (key x)); constructor; simpl; auto.
Qed.

(** [get_clubs_by_country] files every club of the draw under its country
    code and nowhere else: a country's list holds the clubs of that country
    in the order the club set is iterated, no two keys are equal and no list
    is empty. *)
Theorem get_clubs_by_country_spec (h : HashOrder) (d : Draw.t) :
  (forall country,
     dict_get (Draw.get_clubs_by_country h d) country []
     = filter (fun club => String.eqb (Club.pays club) country) (Draw.iter_all_clubs h d))
  /\ NoDup (map fst (Draw.get_clubs_by_country h d))
  /\ (forall country clubs, In (country, clubs) (Draw.get_clubs_by_country h d) ->
        clubs <> []
        /\ clubs = filter (fun club => String.eqb (Club.pays club) country)
                          (Draw.iter_all_clubs h d))
  /\ (forall club, In club (Draw.iter_all_clubs h d) ->
        In club (dict_get (Draw.get_clubs_by_country h d) (Club.pays club) [])).
Proof.
  unfold Draw.get_clubs_by_country.
  destruct (group_fold Club.pays (Draw.iter_all_clubs h d) []) as (Hget & Hwf & Hne).
  specialize (Hwf I). specialize (Hne (Forall_nil _)).
  match goal with |- context [dict_get ?G _ []] => set (g := G) in * end.
  assert (Hget' : forall country, dict_get g country []
            = filter (fun club => String.eqb (Club.pays club) country)
                     (Draw.iter_all_clubs h d)).
  { intros country. exact (Hget country). }
  split; [exact Hget'|]. split; [|split].
  - clear -Hwf. induction g as [|[k v] r IH]; simpl; [constructor|].
    destruct Hwf as [Hnone Hwf]. constructor; [|now apply IH].
    intros Hin. apply in_map_iff in Hin. destruct Hin as ([k' v'] & Hk & Hin).
    simpl in Hk. subst k'. rewrite (dict_wf_In_lookup r k v' Hwf Hin) in Hnone. discriminate.
  - intros country clubs Hin. split.
    + rewrite Forall_forall in Hne. exact (Hne _ Hin).
    + rewrite <- Hget'. unfold dict_get. now rewrite (dict_wf_In_lookup g _ _ Hwf Hin).
  - intros club Hin. rewrite Hget'. apply filter_In. split; [exact Hin|].
    apply String.eqb_refl.
Qed.

(** [get_clubs_by_chapeau] lists the pots that have a club in ascending
    order, each with the clubs of that pot in the order the club set is
    iterated; every club of the draw is in the list of its pot. *)
Theorem get_clubs_by_chapeau_spec (h : HashOrder) (d : Draw.t) :
  Sorted (fun a b => Z.leb (fst a) (fst b) = true) (Draw.get_clubs_by_chapeau h d)
  /\ NoDup (map fst (Draw.get_clubs_by_chapeau h d))
  /\ (forall chapeau clubs, In (chapeau, clubs) (Draw.get_clubs_by_chapeau h d) ->
        clubs <> []
        /\ clubs = filter (fun club => Chapeau_value (Club.chapeau club) =? chapeau)
                          (Draw.iter_all_clubs h d))
  /\ (forall club, In club (Draw.iter_all_clubs h d) ->
        exists clubs,
          In (Chapeau_value (Club.chapeau club), clubs) (Draw.get_clubs_by_chapeau h d)
          /\ In club clubs).
Proof.
  unfold Draw.get_clubs_by_chapeau. cbv zeta.
  destruct (group_fold (fun club => Chapeau_value (Club.chapeau club))
              (Draw.iter_all_clubs h d) []) as (Hget & Hwf & Hne).
  specialize (Hwf I). specialize (Hne (Forall_nil _)).
  match goal with |- context [sorted fst Z.leb ?G] => set (g := G) in * end.
  assert (Hget' : forall chapeau, dict_get g chapeau []
            = filter (fun club => Chapeau_value (Club.chapeau club) =? chapeau)
                     (Draw.iter_all_clubs h d)).
  { intros chapeau. exact (Hget chapeau). }
  assert (Hperm : Permutation (sorted fst Z.leb g) g) by apply sorted_perm.
  assert (Hkeys : NoDup (map fst g)).
  { clear -Hwf. induction g as [|[k v] r IH]; simpl; [constructor|].
    destruct Hwf as [Hnone Hwf]. constructor; [|now apply IH].
    intros Hin. apply in_map_iff in Hin. destruct Hin as ([k' v'] & Hk & Hin).
    simpl in Hk. subst k'. rewrite (dict_wf_In_lookup r k v' Hwf Hin) in Hnone. discriminate. }
  split; [|split; [|split]].
  - apply sorted_Sorted. intros x y. destruct (Z.leb_spec x y); [now left|].
    right. apply Z.leb_le. lia.
  - apply (Permutation_NoDup (l := map fst g)); [|exact Hkeys].
    apply Permutation_map, Permutation_sym, Hperm.
  - intros chapeau clubs Hin. apply (Permutation_in _ Hperm) in Hin. split.
    + rewrite Forall_forall in Hne. exact (Hne _ Hin).
    + rewrite <- (Hget' chapeau). unfold dict_get.
      now rewrite (dict_wf_In_lookup g _ _ Hwf Hin).
  - intros club Hin.
    assert (Hc : In club (dict_get g (Chapeau_value (Club.chapeau club)) [])).
    { rewrite Hget'. apply filter_In. split; [exact Hin | apply Z.eqb_refl]. }
    unfold dict_get in Hc.
    destruct (dict_lookup g (Chapeau_value (Club.chapeau club))) as [clubs|] eqn:E;
      [|contradiction].
    destruct (dict_lookup_In g _ _ E) as (k' & Hentry & Hk).
    apply Z.eqb_eq in Hk. subst k'. exists clubs. split; [|exact Hc].
    apply (Permutation_in _ (Permutation_sym Hperm)). exact Hentry.
Qed.

(* ====================================================================== *)
(** * Part 30. The verdict does not depend on the iteration order of sets   *)
(* ====================================================================== *)

Lemma forallb_perm {A : Type} (f : A -> bool) (l l' : list A) :
  Permutation l l' -> forallb f l = forallb f l'.
Proof.
  intros Hp. apply bool_eq_iff. rewrite !forallb_forall.
  split; intros Hall x Hx; apply Hall.
  - eapply Permutation_in; [apply Permutation_sym|]; eauto.
  - eapply Permutation_in; eauto.
Qed.

Lemma forallb_ext_in {A : Type} (f g : A -> bool) (l : list A) :
  (forall x, In x l -> f x = g x) -> forallb f l = forallb g l.
Proof.
  induction l as [|x r IH]; intros Hfg; [reflexivity|]. simpl.
  rewrite (Hfg x (or_introl eq_refl)), IH; [reflexivity|].
  intros y Hy. apply Hfg. now right.
Qed.

Lemma filter_len_perm {A : Type} (f : A -> bool) (l l' : list A) :
  Permutation l l' -> len (filter f l) = len (filter f l').
Proof.
  intros Hp. unfold len. f_equal. apply Permutation_length.
  induction Hp; simpl; try (destruct (f x)); try (destruct (f y)); auto.
  - apply perm_swap.
  - eapply Permutation_trans; eauto.
Qed.

Lemma iter_all_clubs_perm (h1 h2 : HashOrder) (d : Draw.t) :
  Permutation (Draw.iter_all_clubs h1 d) (Draw.iter_all_clubs h2 d).
Proof.
  unfold Draw.iter_all_clubs.
  eapply Permutation_trans; [apply iter_perm | apply Permutation_sym, iter_perm].
Qed.

Lemma opponents_perm (h1 h2 : HashOrder) (d : Draw.t) (club : Club.t) :
  Permutation (Draw.get_opponents_for_club h1 d club) (Draw.get_opponents_for_club h2 d club).
Proof.
  unfold Draw.get_opponents_for_club.
  eapply Permutation_trans; [apply sorted_perm|].
  eapply Permutation_trans; [apply iter_perm|].
  apply Permutation_sym.
  eapply Permutation_trans; [apply sorted_perm | apply iter_perm].
Qed.

Lemma rule2_order (h1 h2 : HashOrder) (cfg : config.t) (d : Draw.t) :
  UCLConstraints._check_matches_per_club h1 cfg d
  = UCLConstraints._check_matches_per_club h2 cfg d.
Proof. apply forallb_perm, iter_all_clubs_perm. Qed.

Lemma rule3_order (h1 h2 : HashOrder) (cfg : config.t) (d : Draw.t) :
  UCLConstraints._check_home_away_balance h1 cfg d
  = UCLConstraints._check_home_away_balance h2 cfg d.
Proof. apply forallb_perm, iter_all_clubs_perm. Qed.

Lemma rule4_order (h1 h2 : HashOrder) (cfg : config.t) (d : Draw.t) :
  UCLConstraints._check_opponents_per_chapeau h1 cfg d
  = UCLConstraints._check_opponents_per_chapeau h2 cfg d.
Proof.
  unfold UCLConstraints._check_opponents_per_chapeau.
  rewrite (forallb_perm _ _ _ (iter_all_clubs_perm h1 h2 d)).
  apply forallb_ext_in. intros club _. apply forallb_ext_in. intros [p n] _.
  unfold UCLConstraints.opponents_by_chapeau.
  rewrite (counter_fold (fun o => Chapeau_value (Club.chapeau o))
             (Draw.get_opponents_for_club h1 d club) [] p).
  rewrite (counter_fold (fun o => Chapeau_value (Club.chapeau o))
             (Draw.get_opponents_for_club h2 d club) [] p).
  now rewrite (filter_len_perm _ _ _ (opponents_perm h1 h2 d club)).
Qed.

Lemma rule5_order (h1 h2 : HashOrder) (cfg : config.t) (d : Draw.t) :
  UCLConstraints._check_chapeau_home_away_distribution h1 cfg d
  = UCLConstraints._check_chapeau_home_away_distribution h2 cfg d.
Proof. apply forallb_perm, iter_all_clubs_perm. Qed.

Lemma rule6_order (h1 h2 : HashOrder) (cfg : config.t) (d : Draw.t) :
  UCLConstraints._check_no_same_country_opponents h1 cfg d
  = UCLConstraints._check_no_same_country_opponents h2 cfg d.
Proof.
  unfold UCLConstraints._check_no_same_country_opponents. cbv zeta.
  rewrite (forallb_perm _ _ _ (iter_all_clubs_perm h1 h2 d)).
  apply forallb_ext_in. intros club _. rewrite !country_clashes_len.
  unfold count_from_country.
  now rewrite (filter_len_perm _ _ _ (opponents_perm h1 h2 d club)).
Qed.

Lemma rule7_true_order (h1 h2 : HashOrder) (cfg : config.t) (d : Draw.t) :
  UCLConstraints._check_max_two_from_same_foreign_country h1 cfg d = Ok true ->
  UCLConstraints._check_max_two_from_same_foreign_country h2 cfg d = Ok true.
Proof.
  unfold UCLConstraints._check_max_two_from_same_foreign_country. cbv zeta.
  rewrite !for_all_true. intros Hall club Hin.
  assert (Hin1 : In club (Draw.iter_all_clubs h1 d)).
  { eapply Permutation_in; [apply (iter_all_clubs_perm h2 h1 d) | exact Hin]. }
  specialize (Hall club Hin1). rewrite foreign_country_loop_spec in *.
  intros country Hc (o & Ho & Hp).
  unfold count_from_country.
  rewrite (filter_len_perm _ _ _ (opponents_perm h2 h1 d club)).
  apply (Hall country Hc). exists o. split; [|exact Hp].
  eapply Permutation_in; [apply (opponents_perm h2 h1 d club) | exact Ho].
Qed.

Lemma rule7_order (h1 h2 : HashOrder) (cfg : config.t) (d : Draw.t) :
  UCLConstraints._check_max_two_from_same_foreign_country h1 cfg d
  = UCLConstraints._check_max_two_from_same_foreign_country h2 cfg d.
Proof.
  destruct (check_max_two_returns h1 cfg d) as [b1 H1].
  destruct (check_max_two_returns h2 cfg d) as [b2 H2].
  pose proof (rule7_true_order h1 h2 cfg d) as H12.
  pose proof (rule7_true_order h2 h1 cfg d) as H21.
  rewrite H1, H2 in *. destruct b1, b2; auto; symmetry; auto.
Qed.

Lemma rule8_order (h1 h2 : HashOrder) (cfg : config.t) (d : Draw.t) :
  UCLConstraints._check_no_consecutive_matches h1 cfg d
  = UCLConstraints._check_no_consecutive_matches h2 cfg d.
Proof. apply forallb_perm, iter_all_clubs_perm. Qed.

Lemma build_constraints_order (h1 h2 : HashOrder) (cfg : config.t) (d : Draw.t) :
  Forall2 (fun c1 c2 => Constraint.name c1 = Constraint.name c2
                        /\ Constraint.severity c1 = Constraint.severity c2
                        /\ Constraint.is_satisfied c1 d = Constraint.is_satisfied c2 d)
          (UCLConstraints._build_constraints h1 cfg)
          (UCLConstraints._build_constraints h2 cfg).
Proof.
  unfold UCLConstraints._build_constraints, Constraint.is_satisfied.
  repeat (apply Forall2_cons; [cbn [Constraint.name Constraint.severity Constraint.check_fn];
            repeat split;
            first [ reflexivity | apply rule7_order
                  | f_equal;
                    first [ apply rule2_order | apply rule3_order | apply rule4_order
                          | apply rule5_order | apply rule6_order | apply rule8_order ] ] |]).
  apply Forall2_nil.
Qed.

Lemma violated_names_order (d : Draw.t) (s : option string) (cs1 cs2 : list Constraint.t) :
  Forall2 (fun c1 c2 => Constraint.name c1 = Constraint.name c2
                        /\ Constraint.severity c1 = Constraint.severity c2
                        /\ Constraint.is_satisfied c1 d = Constraint.is_satisfied c2 d)
          cs1 cs2 ->
  map Constraint.name
      (filter (violated_by d)
         (filter (fun c => match s with
                           | Some sev => py_eq (Constraint.severity c) sev
                           | None => true
                           end) cs1))
  = map Constraint.name
      (filter (violated_by d)
         (filter (fun c => match s with
                           | Some sev => py_eq (Constraint.severity c) sev
                           | None => true
                           end) cs2)).
Proof.
  induction 1 as [|c1 c2 r1 r2 (Hn & Hs & Hi) Hr IH]; [reflexivity|].
  cbn [filter]. rewrite Hs.
  destruct (match s with
            | Some sev => py_eq (Constraint.severity c2) sev
            | None => true
            end); [|exact IH].
  assert (Hv : violated_by d c1 = violated_by d c2).
  { unfold violated_by. now rewrite Hi. }
  cbn [filter]. rewrite Hv.
  destruct (violated_by d c2); cbn [map]; rewrite ?Hn, IH; reflexivity.
Qed.

Lemma filter_true {A : Type} (l : list A) : filter (fun _ => true) l = l.
Proof. induction l as [|x r IH]; [reflexivity|]. simpl. now rewrite IH. Qed.

Lemma structural_nil_order (h1 h2 : HashOrder) (cfg : config.t) (d : Draw.t) :
  DrawValidator._check_internal_consistency h1 cfg d = [] ->
  DrawValidator._check_internal_consistency h2 cfg d = [].
Proof.
  unfold DrawValidator._check_internal_consistency. intros Hs.
  apply app_eq_nil in Hs. destruct Hs as [Ha Hs].
  apply app_eq_nil in Hs. destruct Hs as [Hb Hs].
  apply app_eq_nil in Hs. destruct Hs as [Hc Hs].
  apply app_eq_nil in Hs. destruct Hs as [Hp Hd].
  rewrite Ha, Hb. cbn [app].
  assert (Hc2 : DrawValidator.check_one_match_per_day h2 cfg d = []).
  { unfold DrawValidator.check_one_match_per_day in *. cbv zeta in *.
    rewrite flat_map_nil in *. intros club Hin. apply Hc.
    eapply Permutation_in; [apply (iter_all_clubs_perm h2 h1 d) | exact Hin]. }
  assert (Hp2 : DrawValidator.check_pairs h2 d = []).
  { unfold DrawValidator.check_pairs in *. rewrite flat_map_nil in *.
    intros [[a b] days] Hin. specialize (Hp _ Hin). cbv beta iota in *.
    destruct (len days >? 1); [discriminate | reflexivity]. }
  assert (Hd2 : DrawValidator.check_home_away_counts h2 cfg d = []).
  { unfold DrawValidator.check_home_away_counts in *. cbv zeta in *.
    rewrite flat_map_nil in *. intros club Hin. apply Hd.
    eapply Permutation_in; [apply (iter_all_clubs_perm h2 h1 d) | exact Hin]. }
  now rewrite Hc2, Hp2, Hd2.
Qed.

(** The order in which Python iterates a set changes with the hashes of its
    members, from one process to the next.  The outcome of a validation does
    not: whatever the two orders, [validate] returns the same verdict and
    the same warnings, error lists that are empty together, and
    [verify_all_constraints] returns the same pair. *)
Theorem verdict_independent_of_set_order (h1 h2 : HashOrder) (cfg : config.t) (d : Draw.t) :
  exists overall_pass errors1 errors2 warnings,
    DrawValidator.validate h1 cfg (DrawValidator.new h1 cfg) d
    = Ok (overall_pass, errors1, warnings)
    /\ DrawValidator.validate h2 cfg (DrawValidator.new h2 cfg) d
       = Ok (overall_pass, errors2, warnings)
    /\ (errors1 = [] <-> errors2 = [])
    /\ UCLConstraints.verify_all_constraints (UCLConstraints.new h1 cfg) d
       = UCLConstraints.verify_all_constraints (UCLConstraints.new h2 cfg) d.
Proof.
  pose proof (build_constraints_return h1 cfg d) as Hret1.
  pose proof (build_constraints_return h2 cfg d) as Hret2.
  pose proof (build_constraints_order h1 h2 cfg d) as Hord.
  pose proof (violated_names_order d (Some "hard"%string) _ _ Hord) as Hhard.
  pose proof (violated_names_order d (Some "soft"%string) _ _ Hord) as Hsoft.
  pose proof (violated_names_order d None _ _ Hord) as Hall.
  rewrite !filter_true in Hall.
  rewrite (validate_spec h1 cfg (DrawValidator.new h1 cfg) d Hret1).
  rewrite (validate_spec h2 cfg (DrawValidator.new h2 cfg) d Hret2).
  cbv zeta.
  change (UCLConstraints.get_hard_constraints
            (DrawValidator.constraints (DrawValidator.new h1 cfg)))
    with (filter (fun c => py_eq (Constraint.severity c) "hard"%string)
                 (UCLConstraints._build_constraints h1 cfg)).
  change (UCLConstraints.get_soft_constraints
            (DrawValidator.constraints (DrawValidator.new h1 cfg)))
    with (filter (fun c => py_eq (Constraint.severity c) "soft"%string)
                 (UCLConstraints._build_constraints h1 cfg)).
  rewrite Hhard, Hsoft.
  set (hard_entry := match map Constraint.name _ with [] => [] | _ :: _ => _ end).
  assert (Hnil : DrawValidator._check_internal_consistency h1 cfg d ++ hard_entry = []
                 <-> DrawValidator._check_internal_consistency h2 cfg d ++ hard_entry = []).
  { split; intros H; apply app_eq_nil in H; destruct H as [Hs He]; rewrite He, app_nil_r;
      eapply structural_nil_order; eauto. }
  eexists _, _, _, _. split; [reflexivity|]. split; [|split; [exact Hnil|]].
  - rewrite !len_eqb_0.
    destruct (DrawValidator._check_internal_consistency h1 cfg d ++ hard_entry) eqn:E1,
             (DrawValidator._check_internal_consistency h2 cfg d ++ hard_entry) eqn:E2;
      try reflexivity.
    + destruct Hnil as [H _]. specialize (H eq_refl). discriminate.
    + destruct Hnil as [_ H]. specialize (H eq_refl). discriminate.
  - unfold UCLConstraints.verify_all_constraints.
    change (UCLConstraints.constraints (UCLConstraints.new h1 cfg))
      with (UCLConstraints._build_constraints h1 cfg).
    change (UCLConstraints.constraints (UCLConstraints.new h2 cfg))
      with (UCLConstraints._build_constraints h2 cfg).
    rewrite (verify_loop_spec d _ Hret1), (verify_loop_spec d _ Hret2). cbn [bind app].
    now rewrite Hall.
Qed.

(* ====================================================================== *)
(** * Part 31. The foreign-country rule and the streak rule over the matches *)
(* ====================================================================== *)

(** ** The clubs and the opponents that the code collects are those of the
       matches *)

Lemma at_home_eq (club : Club.t) (m : Match.t) :
  at_home club m = py_eq club (Match.club_home m).
Proof. unfold at_home. simpl. unfold Club.eq. apply String.eqb_sym. Qed.

Lemma on_the_road_eq (club : Club.t) (m : Match.t) :
  on_the_road club m = py_eq club (Match.club_away m).
Proof. unfold on_the_road. simpl. unfold Club.eq. apply String.eqb_sym. Qed.

Lemma plays_in_involves (club : Club.t) (m : Match.t) :
  plays_in club m = Match.involves_club m club.
Proof. unfold plays_in, Match.involves_club. now rewrite at_home_eq, on_the_road_eq. Qed.






Lemma collected_is_participant (h : HashOrder) (d : Draw.t) (c : Club.t) :
  In c (Draw.iter_all_clubs h d) -> In c (participants d).
Proof. intros Hin. apply all_clubs_are_participants. now apply iter_all_clubs_In in Hin. Qed.

Lemma participant_is_collected (h : HashOrder) (d : Draw.t) (c : Club.t) :
  In c (participants d) ->
  exists c', In c' (Draw.iter_all_clubs h d) /\ Club.id c' = Club.id c.
Proof.
  intros Hin. unfold participants in Hin. apply in_flat_map in Hin.
  destruct Hin as (m & Hm & Hside).
  assert (Hc : list_contains c (Draw.iter_all_clubs h d) = true).
  { rewrite iter_all_clubs_contains. apply existsb_exists. exists m. split; [exact Hm|].
    unfold Match.involves_club. simpl in Hside.
    destruct Hside as [<- | [<- | []]]; rewrite py_eq_refl;
      [reflexivity | apply orb_true_r]. }
  apply list_contains_spec in Hc. destruct Hc as (c' & Hc' & Heq).
  exists c'. split; [exact Hc'|]. symmetry. apply String.eqb_eq. exact Heq.
Qed.






(** ** Sorting by round *)

Lemma round_filter_insert (j : Z) (x : Match.t) (l : list Match.t) :
  filter (fun m => Match.journee m =? j) (insert_sorted Match.journee Z.leb x l)
  = (if Match.journee x =? j then [x] else [])
    ++ filter (fun m => Match.journee m =? j) l.
Proof.
  induction l as [|y r IH]; cbn [insert_sorted filter].
  - destruct (Match.journee x =? j); reflexivity.
  - destruct (Z.leb_spec (Match.journee x) (Match.journee y)) as [Hle|Hgt].
    + cbn [filter]. destruct (Match.journee x =? j); reflexivity.
    + cbn [filter]. rewrite IH.
      destruct (Z.eqb_spec (Match.journee y) j), (Z.eqb_spec (Match.journee x) j);
        try reflexivity; lia.
Qed.

(** The sort is stable: the matches of a round keep their order. *)
Lemma round_filter_sorted (j : Z) (l : list Match.t) :
  filter (fun m => Match.journee m =? j) (sorted Match.journee Z.leb l)
  = filter (fun m => Match.journee m =? j) l.
Proof.
  induction l as [|x r IH]; [reflexivity|].
  change (sorted Match.journee Z.leb (x :: r))
    with (insert_sorted Match.journee Z.leb x (sorted Match.journee Z.leb r)).
  rewrite round_filter_insert, IH. cbn [filter].
  destruct (Match.journee x =? j); reflexivity.
Qed.

Lemma matches_for_club_on_matches (d : Draw.t) (club : Club.t) :
  Draw.get_matches_for_club d club = filter (plays_in club) (Draw.matches d).
Proof.
  unfold Draw.get_matches_for_club. apply filter_ext. intros m.
  symmetry. apply plays_in_involves.
Qed.

Lemma sorted_in_round_order (d : Draw.t) (club : Club.t) :
  in_round_order d club (sorted Match.journee Z.leb (Draw.get_matches_for_club d club)).
Proof.
  split; [apply sorted_by_round|]. intros j.
  rewrite round_filter_sorted, matches_for_club_on_matches. apply filter_filter.
Qed.

Lemma round_filter_nil (l : list Match.t) :
  (forall j, filter (fun m => Match.journee m =? j) l = []) -> l = [].
Proof.
  destruct l as [|x r]; [reflexivity|]. intros Hall.
  specialize (Hall (Match.journee x)). cbn [filter] in Hall.
  rewrite Z.eqb_refl in Hall. discriminate.
Qed.

Lemma round_filter_In (l : list Match.t) (x : Match.t) :
  In x l <-> In x (filter (fun m => Match.journee m =? Match.journee x) l).
Proof. rewrite filter_In, Z.eqb_refl. tauto. Qed.

Lemma round_order_head (x : Match.t) (r : list Match.t) (y : Match.t) :
  Sorted (fun a b => Match.journee a <= Match.journee b) (x :: r) ->
  In y (x :: r) -> Match.journee x <= Match.journee y.
Proof.
  intros Hs Hin. apply Sorted_StronglySorted in Hs.
  - inversion Hs as [|a l Hl Hall]; subst. destruct Hin as [<- | Hin]; [lia|].
    rewrite Forall_forall in Hall. now apply Hall.
  - intros a b c. lia.
Qed.

(** Two lists in round order that hold the same matches round by round are
    one list. *)
Lemma round_order_unique (l1 : list Match.t) : forall l2,
  Sorted (fun a b => Match.journee a <= Match.journee b) l1 ->
  Sorted (fun a b => Match.journee a <= Match.journee b) l2 ->
  (forall j, filter (fun m => Match.journee m =? j) l1
             = filter (fun m => Match.journee m =? j) l2) ->
  l1 = l2.
Proof.
  induction l1 as [|a r1 IH]; intros l2 Hs1 Hs2 Hall.
  - symmetry. apply round_filter_nil. intros j. now rewrite <- Hall.
  - destruct l2 as [|b r2].
    + apply round_filter_nil. intros j. now rewrite Hall.
    + assert (Hab : Match.journee a = Match.journee b).
      { assert (Ha : In a (b :: r2)).
        { apply (proj2 (round_filter_In (b :: r2) a)). rewrite <- Hall.
          apply (proj1 (round_filter_In (a :: r1) a)). now left. }
        assert (Hb : In b (a :: r1)).
        { apply (proj2 (round_filter_In (a :: r1) b)). rewrite Hall.
          apply (proj1 (round_filter_In (b :: r2) b)). now left. }
        pose proof (round_order_head b r2 a Hs2 Ha).
        pose proof (round_order_head a r1 b Hs1 Hb). lia. }
      pose proof (Hall (Match.journee a)) as Hj. cbn [filter] in Hj.
      rewrite Z.eqb_refl, <- Hab, Z.eqb_refl in Hj. injection Hj as -> Hj.
      f_equal. apply IH.
      * now inversion Hs1.
      * now inversion Hs2.
      * intros j. specialize (Hall j). cbn [filter] in Hall.
        destruct (Match.journee b =? j); [now injection Hall | exact Hall].
Qed.

Lemma in_round_order_unique (d : Draw.t) (club : Club.t) (ms ms' : list Match.t) :
  in_round_order d club ms -> in_round_order d club ms' -> ms' = ms.
Proof.
  intros [Hs Hf] [Hs' Hf']. apply round_order_unique; [exact Hs' | exact Hs |].
  intros j. now rewrite Hf, Hf'.
Qed.

Lemma in_round_order_id (d : Draw.t) (c c' : Club.t) (ms : list Match.t) :
  Club.id c = Club.id c' -> in_round_order d c ms -> in_round_order d c' ms.
Proof.
  intros Hid [Hs Hf]. split; [exact Hs|]. intros j. rewrite Hf.
  unfold plays_in, at_home, on_the_road. now rewrite Hid.
Qed.

Lemma venues_of_id (c c' : Club.t) (ms : list Match.t) :
  Club.id c = Club.id c' -> venues_of c ms = venues_of c' ms.
Proof. intros Hid. unfold venues_of, at_home. now rewrite Hid. Qed.

Lemma venue_sequence_on_matches (d : Draw.t) (club : Club.t) :
  UCLConstraints.venue_sequence d club
  = venues_of club (sorted Match.journee Z.leb (Draw.get_matches_for_club d club)).
Proof. reflexivity. Qed.

Lemma rule8_over_collected (h : HashOrder) (cfg : config.t) (d : Draw.t) :
  UCLConstraints._check_no_consecutive_matches h cfg d = true
  <-> forall club, In club (Draw.iter_all_clubs h d) ->
        within_streak_limits cfg (UCLConstraints.venue_sequence d club).
Proof.
  unfold UCLConstraints._check_no_consecutive_matches, within_streak_limits. cbv zeta.
  rewrite forallb_forall.
  split; intros Hall club Hin; specialize (Hall club Hin);
    apply (streak_loop_iff _ _ _ (venue_sequence_venues d club)
             (or_introl (venue_sequence_nonempty h d club Hin)));
    exact Hall.
Qed.

Lemma no_match_no_sequence (d : Draw.t) (club : Club.t) (ms : list Match.t) :
  existsb (plays_in club) (Draw.matches d) = false ->
  in_round_order d club ms -> ms = [].
Proof.
  intros Hno [_ Hf]. apply round_filter_nil. intros j. rewrite Hf. clear Hf.
  induction (Draw.matches d) as [|m r IH]; [reflexivity|].
  cbn [existsb] in Hno. apply orb_false_iff in Hno. destruct Hno as [Hm Hr].
  cbn [filter]. rewrite Hm. cbn [andb]. now apply IH.
Qed.

(** C6.  The soft rule is satisfied exactly when, for every club on either
    side of a match of the draw, the home/away sequence of its matches sorted
    by round contains no run of home matches longer than the home maximum and
    no run of away matches longer than the away maximum.  The sorted list is
    defined on the matches of the draw: for every club there is exactly one,
    it holds the matches that the club plays, all of them, and it is the list
    that the code walks.  With maxima that are not negative the same holds
    for every club whatsoever, a club without a match having an empty
    sequence. *)
Theorem C6_streak_rule (h : HashOrder) (cfg : config.t) (d : Draw.t) :
  (UCLConstraints._check_no_consecutive_matches h cfg d = true <-> streak_rule cfg d)
  /\ (forall club, exists ms,
        in_round_order d club ms
        /\ (forall ms', in_round_order d club ms' -> ms' = ms)
        /\ Permutation ms (filter (plays_in club) (Draw.matches d))
        /\ UCLConstraints.venue_sequence d club = venues_of club ms)
  /\ (0 <= config.MAX_CONSECUTIVE_HOME_MATCHES cfg ->
      0 <= config.MAX_CONSECUTIVE_AWAY_MATCHES cfg ->
      (UCLConstraints._check_no_consecutive_matches h cfg d = true
       <-> forall club ms, in_round_order d club ms ->
             within_streak_limits cfg (venues_of club ms))).
Proof.
  assert (Hiff : UCLConstraints._check_no_consecutive_matches h cfg d = true
                 <-> streak_rule cfg d).
  { rewrite rule8_over_collected. unfold streak_rule.
    split.
    - intros Hall club Hin ms Hms.
      destruct (participant_is_collected h d club Hin) as (c' & Hc' & Hid).
      rewrite <- (venues_of_id c' club ms Hid).
      rewrite (in_round_order_unique d c' _ ms (sorted_in_round_order d c')
                 (in_round_order_id d club c' ms (eq_sym Hid) Hms)).
      rewrite <- venue_sequence_on_matches. now apply Hall.
    - intros Hall club Hin. rewrite venue_sequence_on_matches.
      apply (Hall club (collected_is_participant h d club Hin)).
      apply sorted_in_round_order. }
  split; [exact Hiff|]. split.
  - intros club. exists (sorted Match.journee Z.leb (Draw.get_matches_for_club d club)).
    split; [apply sorted_in_round_order|].
    split; [intros ms' Hms'; exact (in_round_order_unique d club _ ms'
                                      (sorted_in_round_order d club) Hms')|].
    split; [|apply venue_sequence_on_matches].
    rewrite <- matches_for_club_on_matches. apply sorted_perm.
  - intros Hh Ha. rewrite Hiff. unfold streak_rule. split.
    + intros Hall club ms Hms.
      destruct (existsb (plays_in club) (Draw.matches d)) eqn:E.
      * apply existsb_exists in E. destruct E as (m & Hm & Hp).
        destruct (participants_of_match d m Hm) as [Hhome Haway].
        unfold plays_in in Hp. apply orb_true_iff in Hp.
        destruct Hp as [Hp|Hp]; apply String.eqb_eq in Hp.
        -- rewrite <- (venues_of_id _ club ms Hp).
           apply (Hall _ Hhome). exact (in_round_order_id d club _ ms (eq_sym Hp) Hms).
        -- rewrite <- (venues_of_id _ club ms Hp).
           apply (Hall _ Haway). exact (in_round_order_id d club _ ms (eq_sym Hp) Hms).
      * rewrite (no_match_no_sequence d club ms E Hms).
        split; intros Hrun; apply run_length in Hrun; simpl in Hrun; lia.
    + intros Hall club _ ms Hms. now apply Hall.
Qed.
